(** * BoolODE: the simulation-and-sampling engine of [run_experiment.py]

    A shallow embedding of [Experiment] and [simulateAndSample] and of the
    numpy / pandas / os.path operations they call, followed by the
    properties of the specification that concern them.

    Conventions of the model.
    - Expression levels are IEEE doubles in the source.  A double is
      modelled by the rational ([Q]) that is its value.  Where the
      program computes with doubles or compares them (the threshold of
      the retry loop, [np.linspace]) each operation is the exact one
      followed by [float], the rounding to the nearest double, ties to
      even.  Values that are only stored and copied are written as
      rationals, a literal such as [0.01] standing for the double
      nearest to it.  NaN, infinities and overflow are outside the
      model: arrays hold finite values.
    - Python exceptions are values of [exn]; a computation returns an
      [outcome].  [OutOfFuel] is not a Python outcome: it marks a [while]
      loop that was cut by the fuel of the model.
    - The process-wide numpy random source is a stream of naturals from
      which every draw is taken; any sequence of draws is some stream.
    - The file system is the log of the files written, most recent
      first; directories are not modelled.
    - [BoolODE.simulator], [BoolODE.utils] and sklearn are interfaces:
      the properties hold for every implementation of them. *)

From Stdlib Require Import QArith Qround Qpower ZArith String Ascii Lia Lqa.
From stdpp Require Import gmap strings list fin_maps pretty.

Local Open Scope string_scope.
Local Open Scope list_scope.
Local Open Scope Q_scope.

(** ** Exceptions and outcomes *)

Inductive exn : Type :=
| NameError (name : string)
| UnboundLocalError (name : string)
| KeyError (key : string)
| IndexError
| ValueError (msg : string)
| FileNotFoundError (path : string).

(** [isinstance(e, NameError)]: [UnboundLocalError] is a subclass of
    [NameError]. *)
Definition is_NameError (e : exn) : bool :=
  match e with
  | NameError _ | UnboundLocalError _ => true
  | _ => false
  end.

Inductive outcome (A : Type) : Type :=
| Ok (a : A)
| Raise (e : exn)
| OutOfFuel.
Arguments Ok {A} a.
Arguments Raise {A} e.
Arguments OutOfFuel {A}.

#[global] Instance outcome_ret : MRet outcome := fun _ a => Ok a.
#[global] Instance outcome_bind : MBind outcome := fun _ _ f o =>
  match o with
  | Ok a => f a
  | Raise e => Raise e
  | OutOfFuel => OutOfFuel
  end.

(** ** Rationals standing for floats *)

(** [a < b] on floats. *)
Definition Qltb (a b : Q) : bool := negb (Qle_bool b a).

Definition Qmaxb (a b : Q) : Q := if Qle_bool a b then b else a.

(** To the nearest integer, a half going to the even neighbour: the
    rounding of the significand of a double, and [np.round(q)] followed
    by [.astype(int)]. *)
Definition np_round (q : Q) : Z :=
  let f := Qfloor q in
  match Qcompare (q - inject_Z f) (1 # 2) with
  | Lt => f
  | Gt => (f + 1)%Z
  | Eq => if Z.even f then f else (f + 1)%Z
  end.

(** The exponent of the leading bit of [q > 0]: [2 ^ k <= q < 2 ^ (k + 1)]. *)
Definition ilog2 (q : Q) : Z :=
  let k := (Z.log2 (Qnum q) - Z.log2 (Zpos (Qden q)))%Z in
  if Qle_bool (2 ^ k) q then k else (k - 1)%Z.

(** The exponent of the last place of the doubles around [q > 0]: a
    significand of 53 bits, and the subnormal spacing [2 ^ -1074] below
    [2 ^ -1022]. *)
Definition ulp_exp (q : Q) : Z := Z.max (ilog2 q - 52) (-1074).

(** The double nearest to [q >= 0], ties to even. *)
Definition float_pos (q : Q) : Q :=
  inject_Z (np_round (q / 2 ^ ulp_exp q)) * 2 ^ ulp_exp q.

(** The double nearest to [q], as a fraction in lowest terms. *)
Definition float (q : Q) : Q :=
  Qred (if Qle_bool 0 q then float_pos q else - float_pos (- q)).

(** The doubles: the values that rounding leaves as they are. *)
Definition is_double (q : Q) : Prop := float q == q.

(** The operations [*], [/], [+] and [-] on doubles. *)
Definition fmul (a b : Q) : Q := float (a * b).
Definition fdiv (a b : Q) : Q := float (a / b).
Definition fadd (a b : Q) : Q := float (a + b).
Definition fsub (a b : Q) : Q := float (a - b).

(** ** Strings *)

(** [str(n)] for a non-negative Python int. *)
Definition str (n : nat) : string := pretty n.

(** [f'E{cellid}_{t}'] *)
Definition col_name (cellid t : nat) : string :=
  "E" +:+ str cellid +:+ "_" +:+ str t.

(** [f'E{cellid}_t{i}'] *)
Definition snapshot_name (cellid i : nat) : string :=
  "E" +:+ str cellid +:+ "_t" +:+ str i.

(** [sub in s] for strings. *)
Fixpoint contains (sub s : string) : bool :=
  String.prefix sub s ||
  match s with
  | EmptyString => false
  | String _ s' => contains sub s'
  end.

(** [k.replace('p_', '')]: every non-overlapping occurrence of ["p_"],
    scanning from the left, is removed. *)
Fixpoint replace_p_ (k : string) : string :=
  match k with
  | String "p" (String "_" rest) => replace_p_ rest
  | String c rest => String c (replace_p_ rest)
  | EmptyString => EmptyString
  end.

(** [i.replace('x_', '')]. *)
Fixpoint replace_x_ (k : string) : string :=
  match k with
  | String "x" (String "_" rest) => replace_x_ rest
  | String c rest => String c (replace_x_ rest)
  | EmptyString => EmptyString
  end.

(** [x in l] for a list of strings. *)
Definition str_in (x : string) (l : list string) : bool :=
  bool_decide (x ∈ l).

(** ** [os.path.join] (POSIX), two arguments *)

Definition ends_with_sep (a : string) : bool :=
  match String.rev a with
  | String "/" _ => true
  | _ => false
  end.

Definition os_path_join (a b : string) : string :=
  if String.prefix "/" b then b
  else if (String.length a =? 0)%nat || ends_with_sep a then a +:+ b
  else a +:+ "/" +:+ b.

(** ** numpy arrays of rank 2 *)

(** An array of shape [(length rows, shape1)]. *)
Record ndarray : Type := mkArray { shape1 : nat; rows : list (list Q) }.

Definition shape0 (P : ndarray) : nat := length (rows P).

Definition wf_ndarray (P : ndarray) : Prop :=
  Forall (fun r => length r = shape1 P) (rows P).

(** An array of dtype [float64]: every entry is a double. *)
Definition float64 (P : ndarray) : ndarray :=
  {| shape1 := shape1 P; rows := map (map float) (rows P) |}.

(** [P.T] *)
Definition ndarray_T (P : ndarray) : ndarray :=
  {| shape1 := shape0 P;
     rows := map (fun j => map (fun r => nth j r 0) (rows P)) (seq 0 (shape1 P)) |}.

(** [P[idx, :]] with a list of non-negative indices. *)
Definition take_rows (P : ndarray) (idx : list nat) : outcome ndarray :=
  rs ← mapM (fun i => match rows P !! i with
                      | Some r => Ok r
                      | None => Raise IndexError
                      end) idx;
  mret {| shape1 := shape1 P; rows := rs |}.

(** An index into an axis of length [n]: negative indices count from the
    end, anything outside [-n, n) is an [IndexError]. *)
Definition normalize_index (n : nat) (j : Z) : outcome nat :=
  if ((0 <=? j) && (j <? Z.of_nat n))%Z then Ok (Z.to_nat j)
  else if ((- Z.of_nat n <=? j) && (j <? 0))%Z then Ok (Z.to_nat (j + Z.of_nat n))
  else Raise IndexError.

(** [A[:, idx]] with a list of Python ints. *)
Definition take_cols (A : ndarray) (idx : list Z) : outcome ndarray :=
  js ← mapM (normalize_index (shape1 A)) idx;
  mret {| shape1 := length js;
          rows := map (fun r => map (fun j => nth j r 0) js) (rows A) |}.

(** [A.max()]: a [ValueError] on an array of size zero. *)
Definition ndarray_max (A : ndarray) : outcome Q :=
  match concat (rows A) with
  | [] => Raise (ValueError "zero-size array to reduction operation maximum which has no identity")
  | x :: xs => Ok (foldl Qmaxb x xs)
  end.

(** [P[rnaIndex, :].max()] *)
Definition transcript_max (P : ndarray) (rnaIndex : list nat) : outcome Q :=
  sub ← take_rows P rnaIndex;
  ndarray_max sub.

(** [A.ravel()] *)
Definition ravel (A : ndarray) : list Q := concat (rows A).

(** ** pandas data frames *)

Record DataFrame : Type :=
  mkFrame { index : list string; columns : list string; values : ndarray }.

(** [pd.DataFrame(data, index=idx, columns=cols)] *)
Definition pd_DataFrame (data : ndarray) (idx cols : list string) : outcome DataFrame :=
  if ((shape0 data =? length idx) && (shape1 data =? length cols))%nat
  then Ok {| index := idx; columns := cols; values := data |}
  else Raise (ValueError "Shape of passed values does not match the indices").

(** [df.T] *)
Definition DataFrame_T (df : DataFrame) : DataFrame :=
  {| index := columns df; columns := index df; values := ndarray_T (values df) |}.

(** [df.sort_index()]: the rows ordered by label. *)
Fixpoint insert_sorted {A} (le : A -> A -> bool) (x : A) (l : list A) : list A :=
  match l with
  | [] => [x]
  | y :: l' => if le x y then x :: l else y :: insert_sorted le x l'
  end.

Definition sort_by {A} (le : A -> A -> bool) (l : list A) : list A :=
  foldr (insert_sorted le) [] l.

(** [sorted(l)] on strings *)
Definition sorted (l : list string) : list string := sort_by String.leb l.

Definition sort_index (df : DataFrame) : DataFrame :=
  let labelled := sort_by (fun a b => String.leb a.1 b.1)
                          (zip (index df) (rows (values df))) in
  {| index := labelled.*1;
     columns := columns df;
     values := {| shape1 := shape1 (values df); rows := labelled.*2 |} |}.

(** ** The world: random source and files *)

Definition RNG : Type := nat -> nat.

Definition rng_next (g : RNG) : nat * RNG := (g 0%nat, fun n => g (S n)).

Record World : Type := mkWorld { rng : RNG; files : list (string * DataFrame) }.

(** Computations that may raise, draw random numbers and write files. *)
Definition M (A : Type) : Type := World -> outcome A * World.

#[global] Instance M_ret : MRet M := fun _ a w => (Ok a, w).
#[global] Instance M_bind : MBind M := fun _ _ f m w =>
  match m w with
  | (Ok a, w') => f a w'
  | (Raise e, w') => (Raise e, w')
  | (OutOfFuel, w') => (OutOfFuel, w')
  end.

Definition raise {A} (e : exn) : M A := fun w => (Raise e, w).
Definition out_of_fuel {A} : M A := fun w => (OutOfFuel, w).

(** A pure computation that may raise. *)
Definition lift {A} (o : outcome A) : M A := fun w => (o, w).

(** A library call that uses only the random source. *)
Definition with_rng {A} (f : RNG -> outcome A * RNG) : M A := fun w =>
  let '(o, g) := f (rng w) in (o, {| rng := g; files := files w |}).

(** A job run in a worker of the pool: it starts from the random state
    of the parent, from which the workers are forked, and leaves that
    state untouched; its files stay.  The scheduling of the pool is
    outside the model, which takes the jobs one after the other. *)
Definition in_worker {A} (m : M A) : M A := fun w =>
  let '(o, w') := m w in (o, {| rng := rng w; files := files w' |}).

(** [np.random.randint(low, high)]: an int of [[low, high)].  On an
    empty range numpy words its [ValueError] after [low]: ["high <= 0"]
    when [low] is 0, ["low >= high"] otherwise. *)
Definition np_random_randint (low high : Z) : M Z := fun w =>
  if (low <? high)%Z then
    let '(d, g) := rng_next (rng w) in
    (Ok (low + Z.of_nat d mod (high - low))%Z, {| rng := g; files := files w |})
  else if (low =? 0)%Z then (Raise (ValueError "high <= 0"), w)
  else (Raise (ValueError "low >= high"), w).

(** [np.random.choice(a, size=size)] *)
Fixpoint np_random_choice (a : list nat) (size : nat) : M (list nat) :=
  match size with
  | O => mret []
  | S size' =>
      match a with
      | [] => raise (ValueError "'a' cannot be empty unless no samples are taken")
      | x :: _ =>
          fun w =>
            let '(d, g) := rng_next (rng w) in
            (c ← np_random_choice a size';
             mret (nth (d mod length a) a x :: c)) {| rng := g; files := files w |}
      end
  end.

(** Files are found by their path, runs of ['/'] counting as one.
    Paths are compared as they are written: the working directory is
    outside the model, so that a relative and an absolute path never
    name one file here. *)
Fixpoint normpath (p : string) : string :=
  match p with
  | String "/" ((String "/" _) as rest) => normpath rest
  | String c rest => String c (normpath rest)
  | EmptyString => EmptyString
  end.

Definition same_file (p q : string) : bool :=
  bool_decide (normpath p = normpath q).

(** [df.to_csv(path)] *)
Definition to_csv (df : DataFrame) (path : string) : M unit := fun w =>
  (Ok tt, {| rng := rng w; files := (path, df) :: files w |}).

(** [pd.read_csv(path, index_col=0)]: the frame that was written at
    [path].  The text of the file, and what pandas parses its labels
    and values into, are outside the model. *)
Definition read_csv (path : string) : M DataFrame := fun w =>
  match List.find (fun f => same_file f.1 path) (files w) with
  | Some f => (Ok f.2, w)
  | None => (Raise (FileNotFoundError path), w)
  end.

(** ** The model generator's output and the settings *)

Module ModelSpec.
(** [mg.ModelSpec]: the ['pars'] and ['ics'] dictionaries. *)
Record t : Type := mk { pars : gmap string Q; ics : gmap string Q }.
End ModelSpec.

Module mg.
(** The fields of a [GenerateModel] object that [Experiment] reads.
    [varmapper] is the dict index -> name with keys [0 .. len-1], built
    by enumeration: it is the list of the names in index order. *)
Record t : Type := mk {
  ModelSpec : ModelSpec.t;
  varmapper : list string;
  genelist : list string;
  proteinlist : list string;
  x_max : Q  (* kineticParameterDefaults['x_max'] *)
}.
End mg.

Module settings.
Record t : Type := mk {
  outprefix : string;
  sample_cells : bool;
  num_cells : nat;
  nClusters : nat;
  doParallel : bool;
  n_snapshots : option nat  (* absent from the dict when [None] *)
}.
End settings.

(** ** The collaborators: [BoolODE.simulator], [BoolODE.utils], sklearn *)

Class Simulator (ModelFn : Type) : Type := {
  getInitialCondition :
    list Q -> ModelSpec.t -> list nat -> list nat -> list string -> list string ->
    list string -> gmap string nat -> RNG -> outcome (list Q) * RNG;
  (** returns an array of shape [(len(tspan), number of variables)] *)
  simulateModel :
    ModelFn -> list Q -> list Q -> bool -> list Q -> Z -> RNG -> outcome ndarray * RNG
}.

Class Utils : Type := {
  sampleCellFromTraj :
    nat -> list Q -> ndarray -> list string -> list nat -> list string -> list string ->
    list string -> bool -> RNG -> outcome DataFrame * RNG
}.

Class Sklearn : Type := {
  (** [KMeans(n_clusters=k).fit(X).labels_] *)
  KMeans_fit_labels : nat -> ndarray -> RNG -> outcome (list Z) * RNG
}.

(** ** Dictionaries *)

(** [d[k]] on a dict with string keys. *)
Definition getitem {V} (d : gmap string V) (k : string) : outcome V :=
  match d !! k with
  | Some v => Ok v
  | None => Raise (KeyError k)
  end.

(** A dict built by successive assignments [d[k] = v]: the last one wins. *)
Definition dict_of_pairs {V} (l : list (string * V)) : gmap string V :=
  foldl (fun d kv => <[kv.1 := kv.2]> d) ∅ l.

(** [enumerate(l)] *)
Definition enumerate {A} (l : list A) : list (nat * A) := imap pair l.

(** ** numpy helpers of the snapshot policy *)

(** [np.linspace(start, stop, num)] on doubles, as numpy computes it:
    [y = arange(0, num)], [delta = stop - start], [div = num - 1] and
    then [y = y * (delta / div)] (or [y = y / div * delta] when that
    step is zero), [y += start], the last entry being set to [stop]. *)
Definition np_linspace (start stop : Q) (num : nat) : list Q :=
  let div := (num - 1)%nat in
  let y := (fun i => inject_Z (Z.of_nat i)) <$> seq 0 num in
  let delta := fsub stop start in
  let y :=
    if (0 <? div)%nat then
      let step := fdiv delta (inject_Z (Z.of_nat div)) in
      if Qeq_bool step 0
      then (fun v => fmul (fdiv v (inject_Z (Z.of_nat div))) delta) <$> y
      else (fun v => fmul v step) <$> y
    else (fun v => fmul v delta) <$> y in
  let y := (fun v => fadd v start) <$> y in
  if (1 <? num)%nat then take (num - 1) y ++ [stop] else y.

(** ** [simulateAndSample] *)

Module argdict.
Record t {ModelFn : Type} : Type := mk {
  allParameters : gmap string Q;
  parNames : list string;
  Model : ModelFn;
  tspan : list Q;
  varmapper : list string;
  timeIndex : list nat;
  genelist : list string;
  proteinlist : list string;
  writeProtein : bool;
  outPrefix : string;
  sampleCells : bool;
  pars : list Q;
  ss : list Q;
  ModelSpec : ModelSpec.t;
  rnaIndex : list nat;
  proteinIndex : list nat;
  revvarmapper : gmap string nat;
  x_max : Q;  (* a double *)
  n_snapshots : nat;
  header : option (list string);  (* the key is set only with [sample_cells] *)
  seed : Z;
  cellid : nat
}.
Arguments t : clear implicits.
End argdict.

Section Simulation.
Context {ModelFn : Type} `{!Simulator ModelFn} `{!Utils}.

(** Retained for debugging *)
Definition isStochastic : bool := true.

(** One pass through the body of [while retry:], up to the degeneracy
    test: the new seed, the trajectory [P] (transposed) and [retry].
    The simulator returns an array of doubles, and the test compares
    its maximum with the product [0.1 * x_max] of two doubles. *)
Definition attempt (a : argdict.t ModelFn) (pars : list Q) (seed : Z)
  : M (Z * ndarray * bool) :=
  let seed := (seed + 1000)%Z in
  y0_exp ← with_rng (getInitialCondition (argdict.ss a) (argdict.ModelSpec a)
                       (argdict.rnaIndex a) (argdict.proteinIndex a)
                       (argdict.genelist a) (argdict.proteinlist a)
                       (argdict.varmapper a) (argdict.revvarmapper a));
  P ← with_rng (simulateModel (argdict.Model a) y0_exp pars isStochastic
                  (argdict.tspan a) seed);
  let P := ndarray_T (float64 P) in
  maxExp ← lift (transcript_max P (argdict.rnaIndex a));
  mret (seed, P, Qltb maxExp (fmul (float 0.1) (argdict.x_max a))).

(** [while retry: ...]; [fuel] bounds the number of passes. *)
Fixpoint retry_loop (fuel : nat) (a : argdict.t ModelFn) (pars : list Q)
    (seed : Z) (tries : nat) : M (ndarray * nat) :=
  match fuel with
  | O => out_of_fuel
  | S fuel' =>
      '(seed, P, retry) ← attempt a pars seed;
      let tries := S tries in
      if retry : bool then retry_loop fuel' a pars seed tries
      else mret (P, tries)
  end.

(** The body of [if sampleCells:] in the [n_snapshots == 0] branch: the
    sampled single observation and its file. *)
Definition write_sample (a : argdict.t ModelFn) (outPrefix : string)
    (P : ndarray) : M unit :=
  let cellid := argdict.cellid a in
  if argdict.sampleCells a then
    header ← match argdict.header a with
             | Some h => mret h
             | None => raise (KeyError "header")
             end;
    sampledf ← with_rng (sampleCellFromTraj cellid (argdict.tspan a) P
                           (argdict.varmapper a) (argdict.timeIndex a)
                           (argdict.genelist a) (argdict.proteinlist a)
                           header (argdict.writeProtein a));
    let sampledf := DataFrame_T sampledf in
    to_csv sampledf (outPrefix +:+ "E" +:+ str cellid +:+ "-cell.csv")
  else mret tt.

(** The [n_snapshots == 0] branch: every time index but the first. *)
Definition single_timepoint (a : argdict.t ModelFn) (outPrefix : string)
    (P : ndarray) : M DataFrame :=
  let cellid := argdict.cellid a in
  let timePoints := seq 1 (shape1 P - 1) in
  sub ← lift (take_rows P (argdict.rnaIndex a));
  subset ← lift (take_cols sub (Z.of_nat <$> timePoints));
  let colNames := col_name cellid <$> timePoints in
  df ← lift (pd_DataFrame subset (argdict.genelist a) colNames);
  write_sample a outPrefix P;;
  mret df.

(** The rounded boundary points of the snapshot windows.  [steps] is
    the number of time points less one: an int below [2 ^ 53], which is
    a double as it is. *)
Definition snapshotIndicesLimits (steps : Z) (n_snapshots : nat) : list Z :=
  np_round <$> np_linspace 0 (inject_Z steps) (n_snapshots + 1).

(** The [n_snapshots > 0] branch: one random index per window. *)
Definition snapshots (a : argdict.t ModelFn) (P : ndarray) : M DataFrame :=
  let cellid := argdict.cellid a in
  let n_snapshots := argdict.n_snapshots a in
  let steps := (Z.of_nat (shape1 P) - 1)%Z in
  let limits := snapshotIndicesLimits steps n_snapshots in
  snapshotIndices ← mapM (fun i => np_random_randint (nth i limits 0%Z)
                                     (nth (i + 1) limits 0%Z))
                      (seq 0 n_snapshots);
  let colNames := snapshot_name cellid <$> seq 0 n_snapshots in
  sub ← lift (take_rows P (argdict.rnaIndex a));
  subset ← lift (take_cols sub snapshotIndices);
  lift (pd_DataFrame subset (argdict.genelist a) colNames).

Definition simulateAndSample (fuel : nat) (a : argdict.t ModelFn) : M unit :=
  let cellid := argdict.cellid a in
  (if argdict.sampleCells a then
     match argdict.header a with
     | Some _ => mret tt
     | None => raise (KeyError "header")
     end
   else mret tt);;
  pars ← lift (mapM (getitem (argdict.allParameters a)) (argdict.parNames a));
  let outPrefix := os_path_join (argdict.outPrefix a) "simulations" in
  '(P, tries) ← retry_loop fuel a pars (argdict.seed a) 0;
  df ← (if (argdict.n_snapshots a =? 0)%nat
        then single_timepoint a outPrefix P
        else snapshots a P);
  to_csv df (os_path_join outPrefix ("E" +:+ str cellid +:+ ".csv")).

End Simulation.

(** ** [Experiment] *)

(** Row 0 of the initial-condition table, its two cells read by
    [ast.literal_eval]. *)
Module icsspec.
Record t : Type := mk { Genes : list string; Values : list Q }.
End icsspec.

(** [ss[i] = v] on a numpy vector. *)
Definition setitem (ss : list Q) (i : nat) (v : Q) : outcome (list Q) :=
  if (i <? length ss)%nat then Ok (<[i := v]> ss) else Raise IndexError.

(** [for x in l: acc = body(acc, x)] *)
Fixpoint for_fold {A B} (l : list A) (body : B -> A -> outcome B) (acc : B) : outcome B :=
  match l with
  | [] => Ok acc
  | x :: l' => acc' ← body acc x; for_fold l' body acc'
  end.

(** [for x in l: body(x)] *)
Fixpoint for_each {A} (l : list A) (body : A -> M unit) : M unit :=
  match l with
  | [] => mret tt
  | x :: l' => body x;; for_each l' body
  end.

(** [{v: k for k, v in varmapper.items()}] *)
Definition make_revvarmapper (varmapper : list string) : gmap string nat :=
  dict_of_pairs ((fun ik => (ik.2, ik.1)) <$> enumerate varmapper).

(** [[i for i in range(len(varmapper)) if tag in varmapper[i]]] *)
Definition indices_with (tag : string) (varmapper : list string) : list nat :=
  (List.filter (fun ik => contains tag ik.2) (enumerate varmapper)).*1.

(** The base vector [ss] when no override is given (the first loop over
    [varmapper.items()]). *)
Definition default_ss (m : mg.t) : outcome (list Q) :=
  for_fold (enumerate (mg.varmapper m))
    (fun ss ik =>
       let '(i, k) := ik in
       if contains "x_" k then setitem ss i 1.0
       else if contains "p_" k then
         if str_in (replace_p_ k) (mg.proteinlist m) then setitem ss i 20
         else Ok ss
       else Ok ss)
    (replicate (length (mg.varmapper m)) 0).

(** [{g: v for g, v in zip(genes, values)}] *)
Definition icsmap (spec : icsspec.t) : gmap string Q :=
  dict_of_pairs (zip (icsspec.Genes spec) (icsspec.Values spec)).

(** The body of [if not icsDF.empty:]. *)
Definition override_ss (m : mg.t) (spec : icsspec.t) (ss : list Q) : outcome (list Q) :=
  let revvarmapper := make_revvarmapper (mg.varmapper m) in
  let icsmap := icsmap spec in
  for_fold (enumerate (mg.varmapper m))
    (fun ss _ =>
       ss ← for_fold (mg.proteinlist m)
              (fun ss p =>
                 i ← getitem revvarmapper ("p_" +:+ p);
                 match icsmap !! p with
                 | Some v => setitem ss i v
                 | None => setitem ss i 0.01
                 end) ss;
       for_fold (mg.genelist m)
         (fun ss g =>
            i ← getitem revvarmapper ("x_" +:+ g);
            match icsmap !! g with
            | Some v => setitem ss i v
            | None => setitem ss i 0.01
            end) ss)
    ss.

(** [ss] as [Experiment] hands it to the cells: [icsDF] is [None] when
    the table is empty. *)
Definition build_ss (m : mg.t) (icsDF : option icsspec.t) : outcome (list Q) :=
  ss ← default_ss m;
  match icsDF with
  | None => Ok ss
  | Some spec => override_ss m spec ss
  end.

(** [d[k] = v] on a dict kept in insertion order. *)
Fixpoint dict_setitem {V} (d : list (string * V)) (k : string) (v : V) : list (string * V) :=
  match d with
  | [] => [(k, v)]
  | (k', v') :: d' => if String.eqb k' k then (k, v) :: d' else (k', v') :: dict_setitem d' k v
  end.

(** [pd.DataFrame.from_dict(d)]: one column per key, the arrays being of
    one length. *)
Definition DataFrame_from_dict (d : list (string * list Q)) : outcome DataFrame :=
  let len := match d with [] => O | kv :: _ => length kv.2 end in
  if forallb (fun kv => (length kv.2 =? len)%nat) d
  then Ok {| index := str <$> seq 0 len;
             columns := d.*1;
             values := ndarray_T {| shape1 := len; rows := d.*2 |} |}
  else Raise (ValueError "All arrays must be of the same length").

(** [pd.concat(frames, axis=0)] for frames that carry the same columns, as
    the frames of one run do (the sorted gene list); the alignment pandas
    performs on differing columns is not modelled. *)
Definition pd_concat (frames : list DataFrame) : outcome DataFrame :=
  match frames with
  | [] => Raise (ValueError "No objects to concatenate")
  | f :: _ =>
      Ok {| index := concat (index <$> frames);
            columns := columns f;
            values := {| shape1 := shape1 (values f);
                         rows := concat ((fun g => rows (values g)) <$> frames) |} |}
  end.

(** [outPrefix + '/ClusterIds.csv'] *)
Definition cluster_csv (outPrefix : string) : string := outPrefix +:+ "/ClusterIds.csv".

(** The names bound at the level of the module [run_experiment]: its
    imports and its functions, and the builtins it calls. *)
Definition module_scope : list string :=
  ["__author__"; "os"; "sys"; "ast"; "time"; "warnings"; "np"; "pd"; "tqdm"; "Path";
   "OptionParser"; "combinations"; "odeint"; "KMeans"; "SourceFileLoader"; "mp";
   "utils"; "GenerateModel"; "simulator"; "Experiment"; "startRun"; "simulateAndSample";
   "print"; "range"; "len"; "str"; "dict"; "sorted"; "list"; "zip"; "int"].

(** The names local to [Experiment]: its parameters and the targets of
    its assignments, [for] loops and [with] statement. *)
Definition Experiment_scope : list string :=
  ["mg"; "Model"; "tspan"; "settings"; "icsDF"; "writeProtein"; "normalizeTrajectory";
   "allParameters"; "parNames"; "pars"; "rnaIndex"; "revvarmapper"; "proteinIndex";
   "y0"; "ss"; "i"; "k"; "icsspec"; "genes"; "values"; "icsmap"; "p"; "g"; "result";
   "speciesoi"; "n_snapshots"; "startat"; "timeIndex"; "outPrefix"; "argdict";
   "sampleAt"; "header"; "groupedDict"; "simfilepath"; "start"; "pool"; "jobs";
   "cellid"; "cell_args"; "job"; "frames"; "csvPath"; "df"; "stop"; "indices";
   "newindices"; "groupedDF"; "clusterLabels"; "clusterDF"].

(** Reading the name [name] in a function whose local names are
    [locals], [value] being what follows when the name is bound: a name
    that is neither local nor bound in the module is a [NameError]. *)
Definition load_name {A} (locals : list string) (name : string) (value : M A) : M A :=
  if str_in name locals || str_in name module_scope then value
  else raise (NameError name).

(** Reading a local variable: [None] is a local that no assignment has
    reached. *)
Definition load_local {A} (name : string) (v : option A) : M A :=
  match v with
  | Some x => mret x
  | None => raise (UnboundLocalError name)
  end.

Section Orchestrator.
Context {ModelFn : Type} `{!Simulator ModelFn} `{!Utils} `{!Sklearn}.

(** One pass of the loop that reads the per-cell files back.
    [groupedDict] is [None] while the local variable is unbound. *)
Definition aggregate_cell (outPrefix : string) (n_snapshots : nat)
    (st : option (list (string * list Q)) * list DataFrame) (cellid : nat)
  : M (option (list (string * list Q)) * list DataFrame) :=
  let '(groupedDict, frames) := st in
  let csvPath := outPrefix +:+ "/simulations/E" +:+ str cellid +:+ ".csv" in
  df ← read_csv csvPath;
  let df := sort_index df in
  groupedDict ← (if (n_snapshots =? 0)%nat then
                   d ← load_local "groupedDict" groupedDict;
                   mret (Some (dict_setitem d ("E" +:+ str cellid) (ravel (values df))))
                 else mret groupedDict);
  mret (groupedDict, frames ++ [DataFrame_T df]).

Fixpoint aggregate (outPrefix : string) (n_snapshots : nat) (cells : list nat)
    (st : option (list (string * list Q)) * list DataFrame)
  : M (option (list (string * list Q)) * list DataFrame) :=
  match cells with
  | [] => mret st
  | cellid :: cells' =>
      st' ← aggregate_cell outPrefix n_snapshots st cellid;
      aggregate outPrefix n_snapshots cells' st'
  end.

(** The k-means step and the file it writes. *)
Definition cluster (outPrefix : string) (nClusters : nat)
    (groupedDict : option (list (string * list Q))) : M unit :=
  d ← load_local "groupedDict" groupedDict;
  groupedDF ← lift (DataFrame_from_dict d);
  clusterLabels ← with_rng (KMeans_fit_labels nClusters (values (DataFrame_T groupedDF)));
  clusterDF ← lift (pd_DataFrame {| shape1 := 1;
                                    rows := (fun l => [inject_Z l]) <$> clusterLabels |}
                      (columns groupedDF) ["cl"]);
  to_csv clusterDF (cluster_csv outPrefix).

(** Lines 59-149 of [Experiment]: parameters, index lists, the base
    vector [ss], the result index, and the argument dictionary of the
    cells.  Returns the dictionary (as a function of the cell id, which
    fills the keys ['seed'] and ['cellid']) and the binding of the
    local [groupedDict]. *)
Definition prepare (m : mg.t) (Model : ModelFn) (tspan : list Q)
    (s : settings.t) (icsDF : option icsspec.t) (writeProtein : bool)
  : M ((nat -> argdict.t ModelFn) * option (list (string * list Q))) :=
  let allParameters := ModelSpec.pars (mg.ModelSpec m) in
  let parNames := sorted (map_to_list allParameters).*1 in
  pars ← lift (mapM (getitem allParameters) parNames);
  let rnaIndex := indices_with "x_" (mg.varmapper m) in
  let revvarmapper := make_revvarmapper (mg.varmapper m) in
  let proteinIndex := indices_with "p_" (mg.varmapper m) in
  y0 ← lift (mapM (getitem (ModelSpec.ics (mg.ModelSpec m))) (mg.varmapper m));
  ss ← lift (build_ss m icsDF);
  (* the index of the result frame (the frame itself is rebuilt later);
     the else branch iterates over the bare name [proteinlist] *)
  (if (length (mg.proteinlist m) =? 0)%nat then mret tt
   else load_name Experiment_scope "proteinlist" (mret tt));;
  let n_snapshots := default O (settings.n_snapshots s) in
  let timeIndex := seq 0 (length tspan) in
  let outPrefix := settings.outprefix s in
  '(header, groupedDict) ←
    (if settings.sample_cells s then
       sampleAt ← np_random_choice timeIndex (settings.num_cells s);
       mret (Some (zip_with col_name (seq 0 (settings.num_cells s)) sampleAt),
             None)
     else mret (None, Some []));
  mret (fun cellid =>
          {| argdict.allParameters := allParameters;
             argdict.parNames := parNames;
             argdict.Model := Model;
             argdict.tspan := tspan;
             argdict.varmapper := mg.varmapper m;
             argdict.timeIndex := timeIndex;
             argdict.genelist := mg.genelist m;
             argdict.proteinlist := mg.proteinlist m;
             argdict.writeProtein := writeProtein;
             argdict.outPrefix := outPrefix;
             argdict.sampleCells := settings.sample_cells s;
             argdict.pars := pars;
             argdict.ss := ss;
             argdict.ModelSpec := mg.ModelSpec m;
             argdict.rnaIndex := rnaIndex;
             argdict.proteinIndex := proteinIndex;
             argdict.revvarmapper := revvarmapper;
             argdict.x_max := mg.x_max m;
             argdict.n_snapshots := n_snapshots;
             argdict.header := header;
             argdict.seed := Z.of_nat cellid;
             argdict.cellid := cellid |},
        groupedDict).

(** Lines 162-178: one job per cell id, the id being the seed.  With
    [doParallel] the jobs of the pool are taken in the order of
    submission, each in a forked worker, and the first failure is
    raised when its handle is collected. *)
Definition dispatch (fuel : nat) (s : settings.t)
    (argdict : nat -> argdict.t ModelFn) : M unit :=
  for_each (seq 0 (settings.num_cells s))
    (fun cellid =>
       if settings.doParallel s
       then in_worker (simulateAndSample fuel (argdict cellid))
       else simulateAndSample fuel (argdict cellid)).

(** Lines 181-222: read the files back, concatenate, cluster. *)
Definition collect (s : settings.t)
    (groupedDict : option (list (string * list Q))) : M DataFrame :=
  let n_snapshots := default O (settings.n_snapshots s) in
  let outPrefix := settings.outprefix s in
  '(groupedDict, frames) ←
    aggregate outPrefix n_snapshots (seq 0 (settings.num_cells s)) (groupedDict, []);
  result ← lift (pd_concat frames);
  let result := DataFrame_T result in
  let result := {| index := replace_x_ <$> index result;
                   columns := columns result;
                   values := values result |} in
  (if ((1 <? settings.nClusters s)%nat && (n_snapshots =? 0)%nat)%bool
   then cluster outPrefix (settings.nClusters s) groupedDict
   else mret tt);;
  mret result.

(** [Experiment(mg, Model, tspan, settings, icsDF, writeProtein,
    normalizeTrajectory)] *)
Definition Experiment (fuel : nat) (m : mg.t) (Model : ModelFn) (tspan : list Q)
    (s : settings.t) (icsDF : option icsspec.t)
    (writeProtein normalizeTrajectory : bool) : M DataFrame :=
  '(argdict, groupedDict) ← prepare m Model tspan s icsDF writeProtein;
  dispatch fuel s argdict;;
  collect s groupedDict.

End Orchestrator.

(** ** Notions used to state the properties *)

Section Attempts.
Context {ModelFn : Type} `{!Simulator ModelFn}.

(** The [k]-th pass of the body of the retry loop (counting from 0),
    whatever the earlier passes decided: the sequence of integration
    attempts of one cell. *)
Fixpoint nth_attempt (k : nat) (a : argdict.t ModelFn) (pars : list Q) (seed : Z)
  : M (Z * ndarray * bool) :=
  match k with
  | O => attempt a pars seed
  | S k' => '(seed', _, _) ← attempt a pars seed; nth_attempt k' a pars seed'
  end.

(** The acceptance threshold as the specification states it: every
    trajectory the retry loop hands on has a transcript maximum of at
    least the tenth of [x_max]. *)
Definition accepted_above_tenth (a : argdict.t ModelFn) (pars : list Q) (seed : Z)
    (w : World) : Prop :=
  forall fuel tries P tries' w',
    retry_loop fuel a pars seed tries w = (Ok (P, tries'), w') ->
    exists maxExp, transcript_max P (argdict.rnaIndex a) = Ok maxExp /\
                   0.1 * argdict.x_max a <= maxExp.
End Attempts.

(** The path of the table of a cell, as [simulateAndSample] builds it. *)
Definition cell_csv (outPrefix : string) (cellid : nat) : string :=
  os_path_join (os_path_join outPrefix "simulations") ("E" +:+ str cellid +:+ ".csv").

(** The path of the sampled single observation of a cell, as
    [simulateAndSample] builds it. *)
Definition sample_csv (outPrefix : string) (cellid : nat) : string :=
  os_path_join outPrefix "simulations" +:+ "E" +:+ str cellid +:+ "-cell.csv".

(** The documented path of the sampled observation: the file
    [E{cellid}-cell.csv] inside the simulations directory. *)
Definition documented_sample_csv (outPrefix : string) (cellid : nat) : string :=
  os_path_join (os_path_join outPrefix "simulations") ("E" +:+ str cellid +:+ "-cell.csv").

(** The clustering gate of [Experiment]. *)
Definition clustering_requested (s : settings.t) : bool :=
  (1 <? settings.nClusters s)%nat && (default O (settings.n_snapshots s) =? 0)%nat.

(** The files a cell may write. *)
Definition cell_file (out : string) (cellid : nat) (p : string) : Prop :=
  p = cell_csv out cellid \/ p = sample_csv out cellid.

(** [path] was written between the worlds [w] and [w']. *)
Definition written (w w' : World) (path : string) : Prop :=
  exists pre, files w' = pre ++ files w /\ path ∈ pre.*1.

Section ClusterFile.
Context {ModelFn : Type} `{!Simulator ModelFn} `{!Utils} `{!Sklearn}.

(** The cluster file as the specification states it: the run started
    in the world [w] writes [ClusterIds.csv] if and only if
    [nClusters > 1] and [n_snapshots == 0]. *)
Definition ClusterIds_iff_requested (fuel : nat) (m : mg.t) (Model : ModelFn)
    (tspan : list Q) (s : settings.t) (icsDF : option icsspec.t)
    (writeProtein normalizeTrajectory : bool) (w : World) : Prop :=
  let w' := (Experiment fuel m Model tspan s icsDF writeProtein normalizeTrajectory w).2 in
  written w w' (cluster_csv (settings.outprefix s)) <->
  (1 < settings.nClusters s)%nat /\ default O (settings.n_snapshots s) = O.
End ClusterFile.

(** Whatever the outcome, [m] only adds files, at paths that satisfy
    [ok]. *)
Definition writes_only {A} (ok : string -> Prop) (m : M A) : Prop :=
  forall w o w', m w = (o, w') ->
    exists pre, files w' = pre ++ files w /\ Forall ok pre.*1.

(** The entry of [ss] for the variable named [k] when no override is
    given. *)
Definition default_entry (m : mg.t) (k : string) : Q :=
  if contains "x_" k then 1.0
  else if contains "p_" k && str_in (replace_p_ k) (mg.proteinlist m) then 20
  else 0.

(** The value the override map gives to a gene or protein: its entry
    when it is named, [0.01] when it is not. *)
Definition override_entry (spec : icsspec.t) (name : string) : Q :=
  default 0.01 (icsmap spec !! name).

(** One assignment of the override loops: the variable [tag + x]
    receives the value of [x]. *)
Definition assign (m : mg.t) (spec : icsspec.t) (tag : string) (ss : list Q) (x : string)
  : outcome (list Q) :=
  j ← getitem (make_revvarmapper (mg.varmapper m)) (tag +:+ x);
  match icsmap spec !! x with
  | Some u => setitem ss j u
  | None => setitem ss j 0.01
  end.

(** The override map gives the value [v] to the gene or protein of the
    variable [name], read with the prefix [tag]. *)
Definition agrees (spec : icsspec.t) (name : string) (v : Q) (tag : string) : Prop :=
  forall x, tag +:+ x = name -> override_entry spec x = v.

(** The defaults as the specification states them: [1.0] for every
    variable whose name contains ["x_"], [20.0] for every variable whose
    name contains ["p_"]. *)
Definition defaults_as_specified (m : mg.t) : Prop :=
  forall ss, build_ss m None = Ok ss ->
  forall i k, mg.varmapper m !! i = Some k ->
    (contains "x_" k = true -> ss !! i = Some 1.0) /\
    (contains "p_" k = true -> ss !! i = Some 20).

(** The values a call [np.random.randint(low, high)] can return. *)
Definition drawn_from (low high t : Z) : Prop :=
  exists w w', np_random_randint low high w = (Ok t, w').

(** Window [i] of the policy [Snapshots(n)]: the time indices that the
    [i]-th draw of [snapshotIndices] can select. *)
Definition in_window (steps : Z) (n i : nat) (t : Z) : Prop :=
  let limits := snapshotIndicesLimits steps n in
  drawn_from (nth i limits 0%Z) (nth (i + 1) limits 0%Z) t.

(** Coverage of the closed range [[0, T-1]] by the [n] windows. *)
Definition windows_cover_closed_range (T n : nat) : Prop :=
  forall t : Z, (0 <= t <= Z.of_nat T - 1)%Z ->
    exists i, (i < n)%nat /\ in_window (Z.of_nat T - 1) n i t.

(** A table as the cell [c] leaves it: the genes label its rows, and its
    columns are named after the cell, by time index ([n = 0]) or by
    snapshot. *)
Definition table_of (genes : list string) (n c : nat) (df : DataFrame) : Prop :=
  index df = genes /\ shape0 (values df) = length genes /\ wf_ndarray (values df) /\
  ((n = 0%nat /\ exists T, columns df = col_name c <$> seq 1 (T - 1)) \/
   ((1 <= n)%nat /\ columns df = snapshot_name c <$> seq 0 n)).

(** ** A small run, used to exercise the statements *)

Module Demo.
(** A simulator whose trajectories die out for seeds below 3000: cell 0
    is accepted at its third attempt (seeds 1000, 2000, 3000).  The
    value of a variable at time [t] is its initial value times [t]. *)
#[export] Instance simulator : Simulator unit := {|
  getInitialCondition ss _ _ _ _ _ _ _ g := (Ok ss, g);
  simulateModel _ y0 _ _ tspan seed g :=
    (Ok {| shape1 := length y0;
           rows := (fun t => (fun y => if (seed <? 3000)%Z then 0 else y * t) <$> y0)
                     <$> tspan |}, g) |}.

#[export] Instance utils : Utils := {|
  sampleCellFromTraj cellid _ P _ _ genelist _ header _ g :=
    (Ok {| index := genelist; columns := header; values := P |}, g) |}.

#[export] Instance sklearn : Sklearn := {|
  KMeans_fit_labels k X g := (Ok ((fun _ => 0%Z) <$> rows X), g) |}.

(** Two genes, each with its transcript and its protein variable, and
    no species of type protein. *)
Definition model : mg.t :=
  {| mg.ModelSpec :=
       {| ModelSpec.pars := {[ "k" := 1 ]};
          ModelSpec.ics := list_to_map [("x_a", 1); ("p_a", 1); ("x_b", 1); ("p_b", 1)] |};
     mg.varmapper := ["x_a"; "p_a"; "x_b"; "p_b"];
     mg.genelist := ["a"; "b"];
     mg.proteinlist := [];
     mg.x_max := 2 |}.

(** The same genes, [b] being declared a protein. *)
Definition model_with_protein : mg.t :=
  {| mg.ModelSpec := mg.ModelSpec model;
     mg.varmapper := ["x_a"; "p_a"; "p_b"];
     mg.genelist := ["a"];
     mg.proteinlist := ["b"];
     mg.x_max := 2 |}.

Definition tspan : list Q := [0; 1; 2; 3; 4].

Definition clustering : settings.t :=
  {| settings.outprefix := "out"; settings.sample_cells := false;
     settings.num_cells := 2; settings.nClusters := 2;
     settings.doParallel := false; settings.n_snapshots := None |}.

Definition sampling : settings.t :=
  {| settings.outprefix := "out"; settings.sample_cells := true;
     settings.num_cells := 2; settings.nClusters := 2;
     settings.doParallel := false; settings.n_snapshots := None |}.

Definition world : World := {| rng := fun n => n; files := [] |}.

(** The argument dictionary of cell 0. *)
Definition cell0 (sampleCells : bool) (n_snapshots : nat) : argdict.t unit :=
  {| argdict.allParameters := ModelSpec.pars (mg.ModelSpec model);
     argdict.parNames := ["k"];
     argdict.Model := tt;
     argdict.tspan := tspan;
     argdict.varmapper := mg.varmapper model;
     argdict.timeIndex := seq 0 (length tspan);
     argdict.genelist := mg.genelist model;
     argdict.proteinlist := mg.proteinlist model;
     argdict.writeProtein := false;
     argdict.outPrefix := "out";
     argdict.sampleCells := sampleCells;
     argdict.pars := [1];
     argdict.ss := [1.0; 0; 1.0; 0];
     argdict.ModelSpec := mg.ModelSpec model;
     argdict.rnaIndex := [0; 2]%nat;
     argdict.proteinIndex := [1; 3]%nat;
     argdict.revvarmapper := make_revvarmapper (mg.varmapper model);
     argdict.x_max := mg.x_max model;
     argdict.n_snapshots := n_snapshots;
     argdict.header := if sampleCells then Some ["E0_2"] else None;
     argdict.seed := 0;
     argdict.cellid := 0 |}.
(** Two snapshots per cell. *)
Definition snapshot_run : settings.t :=
  {| settings.outprefix := "out"; settings.sample_cells := false;
     settings.num_cells := 2; settings.nClusters := 2;
     settings.doParallel := false; settings.n_snapshots := Some 2%nat |}.

(** A run without cells. *)
Definition no_cells : settings.t :=
  {| settings.outprefix := "out"; settings.sample_cells := false;
     settings.num_cells := 0; settings.nClusters := 2;
     settings.doParallel := false; settings.n_snapshots := None |}.

(** The model, the variable [x_b] having no initial condition. *)
Definition model_without_ics : mg.t :=
  {| mg.ModelSpec :=
       {| ModelSpec.pars := {[ "k" := 1 ]};
          ModelSpec.ics := list_to_map [("x_a", 1); ("p_a", 1)] |};
     mg.varmapper := ["x_a"; "p_a"; "x_b"; "p_b"];
     mg.genelist := ["a"; "b"];
     mg.proteinlist := [];
     mg.x_max := 2 |}.

(** The model with a gene [c] that has no variable. *)
Definition model_without_variable : mg.t :=
  {| mg.ModelSpec := mg.ModelSpec model;
     mg.varmapper := ["x_a"; "p_a"; "x_b"; "p_b"];
     mg.genelist := ["a"; "c"];
     mg.proteinlist := [];
     mg.x_max := 2 |}.

(** An override table with a gene listed twice and more genes than
    values. *)
Definition override : icsspec.t :=
  {| icsspec.Genes := ["a"; "b"; "a"; "c"]; icsspec.Values := [3; 5; 7] |}.

(** Cell 0 with [x_max = 43.0], two time points, and transcripts that
    start at [4.3]: the accepted trajectory peaks at the double [4.3]. *)
Definition cell43 : argdict.t unit :=
  {| argdict.allParameters := ModelSpec.pars (mg.ModelSpec model);
     argdict.parNames := ["k"];
     argdict.Model := tt;
     argdict.tspan := [0; 1];
     argdict.varmapper := mg.varmapper model;
     argdict.timeIndex := [0; 1]%nat;
     argdict.genelist := mg.genelist model;
     argdict.proteinlist := mg.proteinlist model;
     argdict.writeProtein := false;
     argdict.outPrefix := "out";
     argdict.sampleCells := false;
     argdict.pars := [1];
     argdict.ss := [4.3; 0; 4.3; 0];
     argdict.ModelSpec := mg.ModelSpec model;
     argdict.rnaIndex := [0; 2]%nat;
     argdict.proteinIndex := [1; 3]%nat;
     argdict.revvarmapper := make_revvarmapper (mg.varmapper model);
     argdict.x_max := 43;
     argdict.n_snapshots := 0;
     argdict.header := None;
     argdict.seed := 0;
     argdict.cellid := 0 |}.
End Demo.

(** * Properties *)

(** ** Reasoning about computations *)

Lemma outcome_bind_Ok {A B} (f : A -> outcome B) (o : outcome A) (b : B) :
  o ≫= f = Ok b -> exists a, o = Ok a /\ f a = Ok b.
Proof. destruct o as [a| |]; simpl; intros E; try discriminate. eauto. Qed.

Lemma M_bind_Ok {A B} (f : A -> M B) (m : M A) (w w' : World) (b : B) :
  (m ≫= f) w = (Ok b, w') ->
  exists a w1, m w = (Ok a, w1) /\ f a w1 = (Ok b, w').
Proof.
  unfold mbind, M_bind. destruct (m w) as [[a|e|] w1]; intros E; try discriminate.
  eauto.
Qed.

Lemma M_bind_eq_Ok {A B} (f : A -> M B) (m : M A) (w w1 : World) (a : A) :
  m w = (Ok a, w1) -> (m ≫= f) w = f a w1.
Proof. unfold mbind, M_bind. intros ->. reflexivity. Qed.

Lemma M_bind_eq_Raise {A B} (f : A -> M B) (m : M A) (w w1 : World) (e : exn) :
  m w = (Raise e, w1) -> (m ≫= f) w = (Raise e, w1).
Proof. unfold mbind, M_bind. intros ->. reflexivity. Qed.

Lemma M_ret_Ok {A} (a b : A) (w w' : World) :
  (mret a : M A) w = (Ok b, w') -> a = b /\ w = w'.
Proof. intros E. injection E as -> ->. auto. Qed.

Lemma lift_Ok {A} (o : outcome A) (w w' : World) (a : A) :
  lift o w = (Ok a, w') -> o = Ok a /\ w' = w.
Proof. unfold lift. intros E. inversion E. auto. Qed.

Lemma outcome_mapM_Ok {A B} (f : A -> outcome B) (l : list A) (r : list B) :
  mapM f l = Ok r -> Forall2 (fun x y => f x = Ok y) l r.
Proof.
  revert r. induction l as [|x l IH]; intros r E.
  - inversion E. constructor.
  - cbn in E. apply outcome_bind_Ok in E as (y & Hy & E).
    apply outcome_bind_Ok in E as (ys & Hys & E). inversion E; subst.
    constructor; [exact Hy|]. apply IH, Hys.
Qed.

Lemma Qltb_false (a b : Q) : Qltb a b = false -> b <= a.
Proof.
  unfold Qltb. intros E. apply negb_false_iff in E. now apply Qle_bool_iff.
Qed.

(** ** Doubles *)

(** *** Rounding to the nearest integer *)

Lemma np_round_bounds (q : Q) :
  q - (1 # 2) <= inject_Z (np_round q) /\ inject_Z (np_round q) <= q + (1 # 2).
Proof.
  unfold np_round.
  pose proof (Qfloor_le q) as Hlo. pose proof (Qlt_floor q) as Hhi.
  rewrite inject_Z_plus in Hhi. change (inject_Z 1) with 1 in Hhi.
  destruct (Qcompare (q - inject_Z (Qfloor q)) (1 # 2)) eqn:E.
  - apply Qeq_alt in E. destruct (Z.even (Qfloor q)).
    + lra.
    + rewrite inject_Z_plus. change (inject_Z 1) with 1. lra.
  - apply Qlt_alt in E. lra.
  - apply Qgt_alt in E. rewrite inject_Z_plus. change (inject_Z 1) with 1. lra.
Qed.

Lemma np_round_comp (p q : Q) : p == q -> np_round p = np_round q.
Proof.
  intros E. unfold np_round. rewrite (Qfloor_comp _ _ E).
  assert (E' : p - inject_Z (Qfloor q) == q - inject_Z (Qfloor q)) by (rewrite E; reflexivity).
  rewrite (Qcompare_comp _ _ E' (1#2) (1#2)); reflexivity.
Qed.

Lemma np_round_inject_Z (z : Z) : np_round (inject_Z z) = z.
Proof.
  unfold np_round. rewrite Qfloor_Z.
  assert (E : inject_Z z - inject_Z z == 0) by lra.
  rewrite (Qcompare_comp _ _ E (1#2) (1#2)) by reflexivity. reflexivity.
Qed.

Lemma inject_Z_lt_inv (a b : Z) : inject_Z a < inject_Z b -> (a < b)%Z.
Proof. now rewrite <- Zlt_Qlt. Qed.


Lemma np_round_le (p q : Q) : p <= q -> (np_round p <= np_round q)%Z.
Proof.
  intros H. destruct (Z_le_gt_dec (np_round p) (np_round q)) as [Hle|Hgt]; [exact Hle|].
  exfalso. pose proof (np_round_bounds p) as [_ Php]. pose proof (np_round_bounds q) as [Hq _].
  assert (Hz : inject_Z (np_round q) + 1 <= inject_Z (np_round p)).
  { rewrite <- (inject_Z_plus _ 1). rewrite <- Zle_Qle. lia. }
  assert (E : p == q) by lra.
  rewrite (np_round_comp _ _ E) in Hgt. lia.
Qed.

(** *** Powers of two *)

Lemma pow2_pos (k : Z) : 0 < 2 ^ k.
Proof. apply Qpower_0_lt. reflexivity. Qed.

Lemma pow2_plus (a b : Z) : 2 ^ (a + b) == 2 ^ a * 2 ^ b.
Proof. apply Qpower_plus. discriminate. Qed.

Lemma pow2_le (a b : Z) : (a <= b)%Z -> 2 ^ a <= 2 ^ b.
Proof. intros H. apply Qpower_le_compat_l; [exact H|discriminate]. Qed.

Lemma pow2_lt (a b : Z) : (a < b)%Z -> 2 ^ a < 2 ^ b.
Proof. intros H. apply Qpower_lt_compat_l; [exact H|reflexivity]. Qed.

Lemma pow2_lt_inv (a b : Z) : 2 ^ a < 2 ^ b -> (a < b)%Z.
Proof. intros H. eapply Qpower_lt_compat_l_inv; [exact H|reflexivity]. Qed.

Lemma pow2_inject_Z (k : Z) : (0 <= k)%Z -> inject_Z (2 ^ k) == 2 ^ k.
Proof. intros H. now rewrite Zpower_Qpower. Qed.

Lemma pow2_succ (k : Z) : 2 ^ (k + 1) == 2 * 2 ^ k.
Proof. rewrite pow2_plus. change (2 ^ 1) with 2. ring. Qed.

Lemma pow2_div (q : Q) (a b : Z) : q / 2 ^ a == q * 2 ^ (b - a) / 2 ^ b.
Proof.
  assert (Ha := pow2_pos a). assert (Hb := pow2_pos b).
  assert (E : 2 ^ (b - a) == 2 ^ b / 2 ^ a) by (apply Qpower_minus; discriminate).
  rewrite E. field. split; lra.
Qed.

(** *** The binary exponent *)

Lemma ilog2_spec (q : Q) : 0 < q -> 2 ^ ilog2 q <= q /\ q < 2 ^ (ilog2 q + 1).
Proof.
  intros Hq. destruct q as [n d].
  assert (Hn : (0 < n)%Z) by (unfold Qlt in Hq; simpl in Hq; lia).
  destruct (Z.log2_spec n Hn) as [Hn1 Hn2].
  destruct (Z.log2_spec (Zpos d) ltac:(lia)) as [Hd1 Hd2].
  pose proof (Z.log2_nonneg n) as Ha. pose proof (Z.log2_nonneg (Zpos d)) as Hb.
  unfold ilog2. cbn [Qnum Qden].
  set (a := Z.log2 n) in *. set (b := Z.log2 (Zpos d)) in *.
  assert (HD : 0 < inject_Z (Zpos d)) by reflexivity.
  assert (Eq : n # d == inject_Z n / inject_Z (Zpos d)) by apply Qmake_Qdiv.
  assert (Qn1 : 2 ^ a <= inject_Z n).
  { rewrite <- pow2_inject_Z by exact Ha. now rewrite <- Zle_Qle. }
  assert (Qn2 : inject_Z n < 2 ^ (a + 1)).
  { rewrite <- pow2_inject_Z by lia. rewrite <- Zlt_Qlt. unfold Z.succ in Hn2. exact Hn2. }
  assert (Qd1 : 2 ^ b <= inject_Z (Zpos d)).
  { rewrite <- pow2_inject_Z by exact Hb. now rewrite <- Zle_Qle. }
  assert (Qd2 : inject_Z (Zpos d) < 2 ^ (b + 1)).
  { rewrite <- pow2_inject_Z by lia. rewrite <- Zlt_Qlt. unfold Z.succ in Hd2. exact Hd2. }
  assert (Hup : n # d < 2 ^ (a - b + 1)).
  { rewrite Eq. apply Qlt_shift_div_r; [exact HD|].
    assert (E : 2 ^ (a + 1) == 2 ^ (a - b + 1) * 2 ^ b).
    { rewrite <- pow2_plus. apply Qpower_comp; [reflexivity|lia]. }
    pose proof (pow2_pos (a - b + 1)) as Hp.
    assert (2 ^ (a - b + 1) * 2 ^ b <= 2 ^ (a - b + 1) * inject_Z (Zpos d)).
    { apply Qmult_le_l; [exact Hp|exact Qd1]. }
    lra. }
  assert (Hlo : 2 ^ (a - b - 1) < n # d).
  { rewrite Eq. apply Qlt_shift_div_l; [exact HD|].
    assert (E : 2 ^ a == 2 ^ (a - b - 1) * 2 ^ (b + 1)).
    { rewrite <- pow2_plus. apply Qpower_comp; [reflexivity|lia]. }
    pose proof (pow2_pos (a - b - 1)) as Hp.
    assert (2 ^ (a - b - 1) * inject_Z (Zpos d) < 2 ^ (a - b - 1) * 2 ^ (b + 1)).
    { apply Qmult_lt_l; [exact Hp|exact Qd2]. }
    lra. }
  destruct (Qle_bool (2 ^ (a - b)) (n # d)) eqn:E.
  - apply Qle_bool_iff in E. split; [exact E|exact Hup].
  - assert (Hlt : n # d < 2 ^ (a - b)).
    { apply Qnot_le_lt. intros H. apply Qle_bool_iff in H. congruence. }
    split; [apply Qlt_le_weak; exact Hlo|].
    replace (a - b - 1 + 1)%Z with (a - b)%Z by lia. exact Hlt.
Qed.

Lemma ilog2_unique (q : Q) (k : Z) : 2 ^ k <= q -> q < 2 ^ (k + 1) -> ilog2 q = k.
Proof.
  intros Hlo Hhi. pose proof (pow2_pos k) as Hk.
  destruct (ilog2_spec q ltac:(lra)) as [Slo Shi].
  assert (H1 : (ilog2 q < k + 1)%Z) by (apply pow2_lt_inv; lra).
  assert (H2 : (k < ilog2 q + 1)%Z) by (apply pow2_lt_inv; lra).
  lia.
Qed.

Lemma ilog2_comp (p q : Q) : 0 < q -> p == q -> ilog2 p = ilog2 q.
Proof.
  intros Hq E. destruct (ilog2_spec q Hq) as [Slo Shi].
  apply ilog2_unique; rewrite E; assumption.
Qed.

Lemma ilog2_le (p q : Q) : 0 < p -> p <= q -> (ilog2 p <= ilog2 q)%Z.
Proof.
  intros Hp Hpq. destruct (ilog2_spec p Hp) as [Plo _].
  destruct (ilog2_spec q ltac:(lra)) as [_ Qhi].
  assert (H : (ilog2 p < ilog2 q + 1)%Z) by (apply pow2_lt_inv; lra). lia.
Qed.

(** *** Rounding to the nearest double *)

Lemma ulp_exp_bounds (q : Q) :
  0 < q ->
  (-1074 <= ulp_exp q)%Z /\ q < 2 ^ (ulp_exp q + 53) /\
  ((-1074 < ulp_exp q)%Z -> 2 ^ (ulp_exp q + 52) <= q).
Proof.
  intros Hq. destruct (ilog2_spec q Hq) as [Slo Shi]. unfold ulp_exp.
  split; [lia|]. split.
  - eapply Qlt_le_trans; [exact Shi|]. apply pow2_le. lia.
  - intros H. replace (Z.max (ilog2 q - 52) (-1074) + 52)%Z with (ilog2 q) by lia. exact Slo.
Qed.


Lemma scaled (q : Q) (e : Z) : q / 2 ^ e * 2 ^ e == q.
Proof. pose proof (pow2_pos e). field. lra. Qed.

Lemma float_pos_error (q : Q) :
  q - 2 ^ ulp_exp q / 2 <= float_pos q /\ float_pos q <= q + 2 ^ ulp_exp q / 2.
Proof.
  unfold float_pos. set (e := ulp_exp q). pose proof (pow2_pos e) as He.
  pose proof (np_round_bounds (q / 2 ^ e)) as [Rlo Rhi].
  pose proof (scaled q e) as E.
  split.
  - assert (H : (q / 2 ^ e - (1 # 2)) * 2 ^ e <= inject_Z (np_round (q / 2 ^ e)) * 2 ^ e).
    { apply Qmult_le_compat_r; [exact Rlo|lra]. }
    assert (E' : (q / 2 ^ e - (1 # 2)) * 2 ^ e == q - 2 ^ e / 2) by (field; lra).
    lra.
  - assert (H : inject_Z (np_round (q / 2 ^ e)) * 2 ^ e <= (q / 2 ^ e + (1 # 2)) * 2 ^ e).
    { apply Qmult_le_compat_r; [exact Rhi|lra]. }
    assert (E' : (q / 2 ^ e + (1 # 2)) * 2 ^ e == q + 2 ^ e / 2) by (field; lra).
    lra.
Qed.

Lemma float_pos_mantissa (q : Q) :
  0 < q ->
  (0 <= np_round (q / 2 ^ ulp_exp q) <= 2 ^ 53)%Z /\
  ((-1074 < ulp_exp q)%Z -> (2 ^ 52 <= np_round (q / 2 ^ ulp_exp q))%Z).
Proof.
  intros Hq. destruct (ulp_exp_bounds q Hq) as (_ & Hhi & Hlo).
  set (e := ulp_exp q) in *. pose proof (pow2_pos e) as He.
  assert (Hz : 0 <= q / 2 ^ e).
  { apply Qle_shift_div_l; [exact He|]. lra. }
  assert (Hz2 : q / 2 ^ e <= inject_Z (2 ^ 53)).
  { rewrite pow2_inject_Z by lia. apply Qle_shift_div_r; [exact He|].
    rewrite <- pow2_plus. rewrite Z.add_comm. lra. }
  split; [split|].
  - rewrite <- (np_round_inject_Z 0). apply np_round_le. exact Hz.
  - rewrite <- (np_round_inject_Z (2 ^ 53)). apply np_round_le. exact Hz2.
  - intros H. rewrite <- (np_round_inject_Z (2 ^ 52)). apply np_round_le.
    rewrite pow2_inject_Z by lia. apply Qle_shift_div_l; [exact He|].
    rewrite <- pow2_plus. rewrite Z.add_comm. now apply Hlo.
Qed.

Lemma float_pos_0 (q : Q) : q == 0 -> float_pos q == 0.
Proof.
  intros E. unfold float_pos.
  assert (E' : q / 2 ^ ulp_exp q == inject_Z 0).
  { generalize (2 ^ ulp_exp q). intros x. rewrite E. unfold Qdiv. change (inject_Z 0) with 0. ring. }
  rewrite (np_round_comp _ _ E'), np_round_inject_Z. ring.
Qed.

Lemma float_pos_nonneg (q : Q) : 0 <= q -> 0 <= float_pos q.
Proof.
  intros Hq. destruct (Qle_lt_or_eq _ _ Hq) as [Hpos|E].
  - destruct (float_pos_mantissa q Hpos) as [[Hm _] _].
    unfold float_pos. apply Qmult_le_0_compat.
    + change 0 with (inject_Z 0). now rewrite <- Zle_Qle.
    + apply Qlt_le_weak, pow2_pos.
  - rewrite float_pos_0; [lra|now symmetry].
Qed.

Lemma float_pos_comp (p q : Q) : 0 <= q -> p == q -> float_pos p == float_pos q.
Proof.
  intros Hq E. destruct (Qle_lt_or_eq _ _ Hq) as [Hpos|E0].
  - unfold float_pos, ulp_exp. rewrite (ilog2_comp p q Hpos E).
    assert (E' : p / 2 ^ Z.max (ilog2 q - 52) (-1074) == q / 2 ^ Z.max (ilog2 q - 52) (-1074))
      by (rewrite E; reflexivity).
    rewrite (np_round_comp _ _ E'). reflexivity.
  - rewrite (float_pos_0 q) by (now symmetry). apply float_pos_0. rewrite E. now symmetry.
Qed.

(** A multiple of a power of two that fits 53 bits is a double. *)
Lemma float_pos_exact (m e : Z) :
  (0 <= m < 2 ^ 53)%Z -> (-1074 <= e)%Z ->
  float_pos (inject_Z m * 2 ^ e) == inject_Z m * 2 ^ e.
Proof.
  intros Hm He. destruct (Z.eq_dec m 0%Z) as [->|Hne].
  - rewrite float_pos_0; change (inject_Z 0) with 0; ring.
  - set (q := inject_Z m * 2 ^ e). pose proof (pow2_pos e) as Hpe.
    assert (Hm1 : 1 <= inject_Z m).
    { change 1 with (inject_Z 1). rewrite <- Zle_Qle. lia. }
    assert (Hm2 : inject_Z m < 2 ^ 53).
    { rewrite <- pow2_inject_Z by lia. rewrite <- Zlt_Qlt. lia. }
    assert (Hq : 0 < q).
    { unfold q. apply Qmult_lt_0_compat; lra. }
    assert (Hqhi : q < 2 ^ (e + 53)).
    { unfold q. rewrite pow2_plus, (Qmult_comm (2 ^ e)).
      apply Qmult_lt_compat_r; assumption. }
    destruct (ulp_exp_bounds q Hq) as (Hmin & Hhi & Hlo).
    assert (Hle : (ulp_exp q <= e)%Z).
    { destruct (Z_lt_le_dec (-1074) (ulp_exp q)) as [Hn|Hs]; [|lia].
      specialize (Hlo Hn).
      assert (H : (ulp_exp q + 52 < e + 53)%Z) by (apply pow2_lt_inv; lra). lia. }
    unfold float_pos. fold q. set (f := ulp_exp q) in *.
    assert (E : q / 2 ^ f == inject_Z (m * 2 ^ (e - f))).
    { rewrite inject_Z_mult, pow2_inject_Z by lia. unfold q.
      assert (E2 : 2 ^ (e - f) == 2 ^ e / 2 ^ f) by (apply Qpower_minus; discriminate).
      rewrite E2. pose proof (pow2_pos f). field. lra. }
    rewrite (np_round_comp _ _ E), np_round_inject_Z, <- E. apply scaled.
Qed.

(** The value of [float_pos] is a double. *)
Lemma float_pos_idempotent (q : Q) : 0 <= q -> float_pos (float_pos q) == float_pos q.
Proof.
  intros Hq. destruct (Qle_lt_or_eq _ _ Hq) as [Hpos|E0].
  - destruct (ulp_exp_bounds q Hpos) as (Hmin & _).
    destruct (float_pos_mantissa q Hpos) as [[Hm0 Hm1] _].
    unfold float_pos at 2 3. set (e := ulp_exp q) in *.
    set (m := np_round (q / 2 ^ e)) in *.
    destruct (Z.eq_dec m (2 ^ 53)%Z) as [Em|Hne].
    + assert (E : inject_Z m * 2 ^ e == inject_Z (2 ^ 52) * 2 ^ (e + 1)).
      { rewrite Em, pow2_succ, !pow2_inject_Z by lia.
        assert (E53 : 2 ^ 53 == 2 * 2 ^ 52) by reflexivity. rewrite E53. ring. }
      assert (Hnn : 0 <= inject_Z (2 ^ 52) * 2 ^ (e + 1)).
      { apply Qmult_le_0_compat; [discriminate|apply Qlt_le_weak, pow2_pos]. }
      rewrite (float_pos_comp _ _ Hnn E), E. apply float_pos_exact; lia.
    + apply float_pos_exact; lia.
  - assert (E : float_pos q == 0) by (apply float_pos_0; now symmetry).
    rewrite (float_pos_comp _ 0 ltac:(lra) E). rewrite E. apply float_pos_0. reflexivity.
Qed.

Lemma float_pos_le (a b : Q) : 0 <= a -> a <= b -> float_pos a <= float_pos b.
Proof.
  intros Ha Hab. destruct (Qle_lt_or_eq _ _ Ha) as [Hpos|E0].
  - assert (Hb : 0 < b) by lra.
    destruct (ulp_exp_bounds a Hpos) as (Hamin & Hahi & _).
    destruct (ulp_exp_bounds b Hb) as (_ & _ & Hblo).
    destruct (float_pos_mantissa a Hpos) as [[_ Hma] _].
    destruct (float_pos_mantissa b Hb) as [_ Hmb].
    assert (Hexp : (ulp_exp a <= ulp_exp b)%Z).
    { unfold ulp_exp. pose proof (ilog2_le a b Hpos Hab). lia. }
    unfold float_pos. set (ea := ulp_exp a) in *. set (eb := ulp_exp b) in *.
    pose proof (pow2_pos ea) as Hpa. pose proof (pow2_pos eb) as Hpb.
    destruct (Z.eq_dec ea eb) as [Ee|Hne].
    + rewrite Ee. apply Qmult_le_compat_r; [|lra].
      rewrite <- Zle_Qle. apply np_round_le.
      apply Qle_shift_div_l; [exact Hpb|]. rewrite scaled. exact Hab.
    + assert (Hn : (-1074 < eb)%Z) by lia. specialize (Hmb Hn).
      apply Qle_trans with (2 ^ (eb + 52)).
      * apply Qle_trans with (2 ^ (ea + 53)); [|apply pow2_le; lia].
        rewrite pow2_plus, (Qmult_comm (2 ^ ea)).
        apply Qmult_le_compat_r; [|lra].
        rewrite <- (pow2_inject_Z 53) by lia. now rewrite <- Zle_Qle.
      * rewrite pow2_plus, (Qmult_comm (2 ^ eb)).
        apply Qmult_le_compat_r; [|lra].
        rewrite <- (pow2_inject_Z 52) by lia. now rewrite <- Zle_Qle.
  - rewrite (float_pos_0 a) by (now symmetry). apply float_pos_nonneg. lra.
Qed.

Lemma float_of_nonneg (q : Q) : 0 <= q -> float q == float_pos q.
Proof.
  intros H. unfold float. rewrite Qred_correct. apply Qle_bool_iff in H. now rewrite H.
Qed.

Lemma float_of_neg (q : Q) : q < 0 -> float q == - float_pos (- q).
Proof.
  intros H. unfold float. rewrite Qred_correct.
  destruct (Qle_bool 0 q) eqn:E; [|reflexivity].
  apply Qle_bool_iff in E. lra.
Qed.

Lemma float_0 : float 0 == 0.
Proof. rewrite float_of_nonneg by lra. now apply float_pos_0. Qed.

Lemma float_comp (p q : Q) : p == q -> float p == float q.
Proof.
  intros E. destruct (Qlt_le_dec q 0) as [Hn|Hp].
  - rewrite (float_of_neg q Hn), (float_of_neg p) by lra.
    apply Qopp_comp, float_pos_comp; [lra|]. now rewrite E.
  - rewrite (float_of_nonneg q Hp), (float_of_nonneg p) by lra.
    now apply float_pos_comp.
Qed.

#[global] Instance float_Proper : Proper (Qeq ==> Qeq) float.
Proof. intros p q E. now apply float_comp. Qed.

Lemma float_nonneg (q : Q) : 0 <= q -> 0 <= float q.
Proof. intros H. rewrite float_of_nonneg by exact H. now apply float_pos_nonneg. Qed.

Lemma float_nonpos (q : Q) : q <= 0 -> float q <= 0.
Proof.
  intros H. destruct (Qle_lt_or_eq _ _ H) as [Hn|E].
  - rewrite float_of_neg by exact Hn. pose proof (float_pos_nonneg (- q) ltac:(lra)). lra.
  - rewrite (float_comp q 0 E), float_0. lra.
Qed.

(** Rounding is monotone. *)
Lemma float_le (a b : Q) : a <= b -> float a <= float b.
Proof.
  intros Hab. destruct (Qlt_le_dec a 0) as [Ha|Ha]; destruct (Qlt_le_dec b 0) as [Hb|Hb].
  - rewrite (float_of_neg a Ha), (float_of_neg b Hb).
    pose proof (float_pos_le (- b) (- a) ltac:(lra) ltac:(lra)). lra.
  - pose proof (float_nonpos a ltac:(lra)). pose proof (float_nonneg b Hb). lra.
  - lra.
  - rewrite (float_of_nonneg a Ha), (float_of_nonneg b Hb). now apply float_pos_le.
Qed.

(** The doubles are the values that rounding leaves as they are. *)
Lemma float_idempotent (q : Q) : float (float q) == float q.
Proof.
  destruct (Qlt_le_dec q 0) as [Hn|Hp].
  - rewrite (float_of_neg q Hn).
    pose proof (float_pos_nonneg (- q) ltac:(lra)) as Hnn.
    destruct (Qle_lt_or_eq _ _ Hnn) as [Hpos|E].
    + rewrite float_of_neg by lra.
      apply Qopp_comp.
      rewrite (float_pos_comp (- - float_pos (- q)) (float_pos (- q)) Hnn) by ring.
      apply float_pos_idempotent. lra.
    + rewrite (float_comp (- float_pos (- q)) 0) by (rewrite <- E; ring).
      rewrite float_0, <- E. ring.
  - rewrite (float_of_nonneg q Hp).
    rewrite float_of_nonneg by (now apply float_pos_nonneg).
    now apply float_pos_idempotent.
Qed.

Lemma float_inject_Z (z : Z) : (0 <= z < 2 ^ 53)%Z -> float (inject_Z z) == inject_Z z.
Proof.
  intros Hz.
  assert (Hnn : 0 <= inject_Z z) by (change 0 with (inject_Z 0); rewrite <- Zle_Qle; lia).
  rewrite float_of_nonneg by exact Hnn.
  assert (E : inject_Z z == inject_Z z * 2 ^ 0) by (change (2 ^ 0) with 1; ring).
  assert (Hnn' : 0 <= inject_Z z * 2 ^ 0) by (rewrite <- E; exact Hnn).
  rewrite (float_pos_comp _ _ Hnn' E).
  rewrite float_pos_exact by lia. now rewrite <- E.
Qed.

(** Doubles are kept in lowest terms. *)
Lemma float_canonical (p q : Q) : p == q -> float p = float q.
Proof.
  intros E. unfold float. apply Qred_complete.
  pose proof (float_comp p q E) as H. unfold float in H.
  now rewrite !Qred_correct in H.
Qed.

(** Below [2 ^ k] the rounding error is at most [2 ^ (k - 54)]. *)
Lemma float_error (q : Q) (k : Z) :
  0 <= q -> q < 2 ^ k -> (-1021 <= k)%Z ->
  q - 2 ^ (k - 54) <= float q /\ float q <= q + 2 ^ (k - 54).
Proof.
  intros Hq Hk Hmin. pose proof (pow2_pos (k - 54)) as Hp.
  destruct (Qle_lt_or_eq _ _ Hq) as [Hpos|E0].
  - rewrite float_of_nonneg by exact Hq.
    pose proof (float_pos_error q) as [Elo Ehi].
    destruct (ilog2_spec q Hpos) as [Slo _].
    assert (Hlog : (ilog2 q < k)%Z).
    { apply pow2_lt_inv. eapply Qle_lt_trans; eassumption. }
    assert (He : (ulp_exp q <= k - 53)%Z) by (unfold ulp_exp; lia).
    assert (Hhalf : 2 ^ ulp_exp q / 2 <= 2 ^ (k - 54)).
    { apply pow2_le in He. replace (k - 53)%Z with (k - 54 + 1)%Z in He by lia.
      rewrite pow2_succ in He.
      assert (E : 2 ^ ulp_exp q / 2 == 2 ^ ulp_exp q * (1 # 2)) by field.
      rewrite E. lra. }
    split; lra.
  - rewrite (float_comp q 0) by (now symmetry). rewrite float_0. split; lra.
Qed.

(** The double nearest to one tenth. *)
Lemma float_tenth : float 0.1 = 3602879701896397 # 36028797018963968.
Proof. vm_compute. reflexivity. Qed.


(** Above the subnormal range the relative error of rounding is at most
    [2 ^ -53]. *)
Lemma float_relative_error (q : Q) :
  2 ^ (-1022) <= q -> q - q * 2 ^ (-53) <= float q /\ float q <= q + q * 2 ^ (-53).
Proof.
  intros Hq. pose proof (pow2_pos (-1022)) as Hmin.
  assert (Hpos : 0 < q) by (eapply Qlt_le_trans; eassumption).
  rewrite float_of_nonneg by (now apply Qlt_le_weak).
  pose proof (float_pos_error q) as [Elo Ehi].
  destruct (ulp_exp_bounds q Hpos) as (Hge & _ & Hlo).
  set (e := ulp_exp q) in *.
  assert (Hb : 2 ^ (e + 52) <= q).
  { destruct (Z_lt_le_dec (-1074) e) as [Hn|Hs]; [now apply Hlo|].
    replace e with (-1074)%Z by lia. exact Hq. }
  assert (E : 2 ^ e / 2 == 2 ^ (e + 52) * 2 ^ (-53)).
  { rewrite <- pow2_plus. replace (e + 52 + -53)%Z with (e - 1)%Z by lia.
    assert (E1 : 2 ^ (e - 1) == 2 ^ e / 2 ^ 1) by (apply Qpower_minus; discriminate).
    rewrite E1. reflexivity. }
  assert (Hu : 2 ^ (e + 52) * 2 ^ (-53) <= q * 2 ^ (-53)).
  { apply Qmult_le_compat_r; [exact Hb|apply Qlt_le_weak, pow2_pos]. }
  rewrite E in Elo, Ehi. revert Elo Ehi Hu. clear.
  generalize (float_pos q) (2 ^ (e + 52) * 2 ^ (-53)) (q * 2 ^ (-53)).
  intros f a b Elo Ehi Hu. split; lra.
Qed.

(** The product of the double [0.1] and [x], rounded, is the tenth of
    [x] up to one rounding. *)
Lemma fmul_tenth_ge (x : Q) :
  2 ^ (-1018) <= x -> x / 10 - x / 10 * 2 ^ (-53) <= fmul (float 0.1) x.
Proof.
  intros Hx. unfold fmul. rewrite float_tenth.
  set (y := (3602879701896397 # 36028797018963968) * x).
  pose proof (pow2_pos (-1018)) as H18. pose proof (pow2_pos (-53)) as Hu.
  assert (Hpos : 0 < x) by exact (Qlt_le_trans _ _ _ H18 Hx).
  assert (Ey : y == x / 10 + x / 10 * (1 # 18014398509481984)) by (unfold y; field).
  assert (Hxy : x / 10 <= y).
  { assert (0 <= x / 10 * (1 # 18014398509481984)).
    { apply Qmult_le_0_compat; [|discriminate]. apply Qle_shift_div_l; [reflexivity|].
      rewrite Qmult_0_l. now apply Qlt_le_weak. }
    rewrite Ey. revert H. generalize (x / 10 * (1 # 18014398509481984)) (x / 10).
    intros a b H. lra. }
  assert (Hmin : 2 ^ (-1022) <= y).
  { apply Qle_trans with (x / 10); [|exact Hxy].
    apply Qle_shift_div_l; [reflexivity|].
    apply Qle_trans with (2 ^ (-1018)); [|exact Hx].
    assert (E : 2 ^ (-1018) == 2 ^ (-1022) * 16).
    { replace (-1018)%Z with (-1022 + 4)%Z by lia. rewrite pow2_plus. reflexivity. }
    assert (H : 2 ^ (-1022) * 10 <= 2 ^ (-1022) * 16).
    { rewrite !(Qmult_comm (2 ^ (-1022))). apply Qmult_le_compat_r; [discriminate|].
      apply Qlt_le_weak, pow2_pos. }
    rewrite E. exact H. }
  destruct (float_relative_error y Hmin) as [Hlo _].
  assert (Hone : 2 ^ (-53) <= 1).
  { change 1 with (2 ^ 0). apply pow2_le. lia. }
  assert (Hm : x / 10 * (1 - 2 ^ (-53)) <= y * (1 - 2 ^ (-53))).
  { apply Qmult_le_compat_r; [exact Hxy|]. revert Hone. generalize (2 ^ (-53)). intros u H. lra. }
  assert (E1 : x / 10 * (1 - 2 ^ (-53)) == x / 10 - x / 10 * 2 ^ (-53)) by ring.
  assert (E2 : y * (1 - 2 ^ (-53)) == y - y * 2 ^ (-53)) by ring.
  rewrite E1, E2 in Hm. revert Hm Hlo. clear.
  generalize (float y) (y * 2 ^ (-53)) (x / 10 * 2 ^ (-53)) (x / 10). intros f a b c Hm Hlo. lra.
Qed.

Lemma Qmult_le_mono_l (a b c : Q) : 0 <= a -> b <= c -> a * b <= a * c.
Proof. intros Ha Hbc. rewrite !(Qmult_comm a). now apply Qmult_le_compat_r. Qed.

(** A double plus the double zero is that double. *)
Lemma fadd_0_r (x : Q) : fadd (float x) 0 == float x.
Proof.
  unfold fadd. rewrite (float_comp (float x + 0) (float x)) by ring. apply float_idempotent.
Qed.

(** *** The maximum of an array of doubles *)

Lemma foldl_Qmaxb_elem (x : Q) (xs : list Q) : foldl Qmaxb x xs ∈ x :: xs.
Proof.
  revert x. induction xs as [|y xs IH]; intros x; simpl; [left|].
  specialize (IH (Qmaxb x y)). apply elem_of_cons in IH as [E|Hin].
  - rewrite E. unfold Qmaxb. destruct (Qle_bool x y); [right; left|left].
  - right. right. exact Hin.
Qed.

(** The maximum over rows of an array is an entry of a row. *)
Lemma transcript_max_elem (P : ndarray) (idx : list nat) (m : Q) :
  transcript_max P idx = Ok m -> exists r, r ∈ rows P /\ m ∈ r.
Proof.
  unfold transcript_max. intros E. apply outcome_bind_Ok in E as (sub & Hsub & E).
  unfold take_rows in Hsub. apply outcome_bind_Ok in Hsub as (rs & Hrs & Hsub).
  inversion Hsub; subst sub; clear Hsub. unfold ndarray_max in E. simpl in E.
  apply outcome_mapM_Ok in Hrs.
  destruct (concat rs) as [|x xs] eqn:Ec; [discriminate E|]. inversion E; subst m; clear E.
  pose proof (foldl_Qmaxb_elem x xs) as Hin. rewrite <- Ec in Hin.
  apply list_elem_of_In, in_concat in Hin as (r & Hr & Hin).
  apply list_elem_of_In in Hr. apply list_elem_of_lookup in Hr as (k & Hk).
  destruct (Forall2_lookup_r _ _ _ k r Hrs Hk) as (i & _ & Hi).
  destruct (rows P !! i) as [r'|] eqn:Er; [|discriminate Hi]. inversion Hi; subst r'.
  exists r. split; [eapply list_elem_of_lookup_2, Er|now apply list_elem_of_In].
Qed.

Lemma float64_T_doubles (P : ndarray) :
  Forall (Forall is_double) (rows (ndarray_T (float64 P))).
Proof.
  unfold ndarray_T, float64. simpl. apply Forall_forall. intros r Hr.
  apply list_elem_of_fmap in Hr as (j & -> & _). apply Forall_forall. intros x Hx.
  apply list_elem_of_fmap in Hx as (r & -> & Hr).
  apply list_elem_of_fmap in Hr as (r0 & -> & _).
  change 0 with (float 0). rewrite map_nth. apply float_idempotent.
Qed.

Section RetryLoop.
Context {ModelFn : Type} `{!Simulator ModelFn}.

Lemma attempt_Ok (a : argdict.t ModelFn) pars seed w seed' P retry w' :
  attempt a pars seed w = (Ok (seed', P, retry), w') ->
  seed' = (seed + 1000)%Z /\
  exists maxExp, transcript_max P (argdict.rnaIndex a) = Ok maxExp /\
                 retry = Qltb maxExp (fmul (float 0.1) (argdict.x_max a)).
Proof.
  unfold attempt. intros E.
  apply M_bind_Ok in E as (y0 & w1 & _ & E).
  apply M_bind_Ok in E as (P0 & w2 & _ & E).
  apply M_bind_Ok in E as (mx & w3 & Hmax & E).
  apply lift_Ok in Hmax as [Hmax ->].
  apply M_ret_Ok in E as [E _]. apply pair_equal_spec in E as [E <-].
  apply pair_equal_spec in E as [<- <-]. eauto.
Qed.

(** The transcript maximum of an attempt is a double. *)
Lemma attempt_double (a : argdict.t ModelFn) pars seed w seed' P retry w' (m : Q) :
  attempt a pars seed w = (Ok (seed', P, retry), w') ->
  transcript_max P (argdict.rnaIndex a) = Ok m -> is_double m.
Proof.
  unfold attempt. intros E Hm.
  apply M_bind_Ok in E as (y0 & w1 & _ & E).
  apply M_bind_Ok in E as (P0 & w2 & _ & E).
  apply M_bind_Ok in E as (mx & w3 & _ & E).
  apply M_ret_Ok in E as [E _]. apply pair_equal_spec in E as [E _].
  apply pair_equal_spec in E as [_ <-].
  apply transcript_max_elem in Hm as (r & Hr & Hm).
  pose proof (float64_T_doubles P0) as HF. rewrite Forall_forall in HF.
  specialize (HF r Hr). rewrite Forall_forall in HF. now apply HF.
Qed.

(** C1, amended. Whatever the number of passes, a trajectory that
    leaves the retry loop of [simulateAndSample] has a maximum over its
    transcript rows ([rnaIndex]), a double, and this maximum is at least
    the product [0.1 * x_max] as the doubles give it: a trajectory below
    that threshold is never handed on.  The threshold is the tenth of
    [x_max] up to one rounding: the maximum is at least
    [x_max / 10 * (1 - 2^-53)] when [x_max >= 2^-1018]. *)
Theorem accepted_trajectory_not_degenerate
    (fuel : nat) (a : argdict.t ModelFn) (pars : list Q) (seed : Z) (tries : nat)
    (w w' : World) (P : ndarray) (tries' : nat) :
  retry_loop fuel a pars seed tries w = (Ok (P, tries'), w') ->
  exists maxExp, transcript_max P (argdict.rnaIndex a) = Ok maxExp /\
                 is_double maxExp /\
                 fmul (float 0.1) (argdict.x_max a) <= maxExp /\
                 (2 ^ (-1018) <= argdict.x_max a ->
                  argdict.x_max a / 10 - argdict.x_max a / 10 * 2 ^ (-53) <= maxExp).
Proof.
  revert seed tries w. induction fuel as [|fuel IH]; intros seed tries w E.
  - discriminate.
  - simpl in E. apply M_bind_Ok in E as ([[seed' P0] retry] & w1 & Ha & E).
    destruct retry.
    + eapply IH, E.
    + inversion E; subst. pose proof Ha as Hd.
      apply attempt_Ok in Ha as (_ & m & Hm & Hr).
      assert (Hle : fmul (float 0.1) (argdict.x_max a) <= m).
      { apply Qltb_false. now rewrite <- Hr. }
      exists m. split; [exact Hm|]. split; [eapply attempt_double; eassumption|].
      split; [exact Hle|]. intros Hx.
      eapply Qle_trans; [apply fmul_tenth_ge, Hx|exact Hle].
Qed.




End RetryLoop.

(** ** The snapshot windows *)

Lemma np_round_lt (p q : Q) : p + 1 < q -> (np_round p < np_round q)%Z.
Proof.
  intros H. apply inject_Z_lt_inv.
  pose proof (np_round_bounds p). pose proof (np_round_bounds q). lra.
Qed.

(** The entries of [np.linspace] before the last: [i * step + start], or
    [i / div * delta + start] when the step is zero. *)
Lemma np_linspace_lookup (start stop : Q) (n i : nat) :
  (i < n)%nat ->
  let delta := fsub stop start in
  let div := inject_Z (Z.of_nat n) in
  np_linspace start stop (S n) !! i
  = Some (fadd (if Qeq_bool (fdiv delta div) 0
                then fmul (fdiv (inject_Z (Z.of_nat i)) div) delta
                else fmul (inject_Z (Z.of_nat i)) (fdiv delta div)) start).
Proof.
  intros Hi delta div. unfold np_linspace.
  replace (S n - 1)%nat with n by lia.
  replace (0 <? n)%nat with true by (symmetry; apply Nat.ltb_lt; lia).
  replace (1 <? S n)%nat with true by (symmetry; apply Nat.ltb_lt; lia).
  cbv zeta. fold delta. fold div.
  destruct (Qeq_bool (fdiv delta div) 0);
    (rewrite lookup_app_l by (rewrite length_take, !length_fmap, length_seq; lia));
    rewrite lookup_take_lt by lia;
    rewrite !list_lookup_fmap, lookup_seq_lt by lia; reflexivity.
Qed.

Lemma np_linspace_last (start stop : Q) (n : nat) :
  (1 <= n)%nat -> np_linspace start stop (S n) !! n = Some stop.
Proof.
  intros Hn. unfold np_linspace.
  replace (S n - 1)%nat with n by lia.
  replace (1 <? S n)%nat with true by (symmetry; apply Nat.ltb_lt; lia).
  cbv zeta.
  assert (Hlen : forall y : list Q, length y = S n -> (take n y ++ [stop]) !! n = Some stop).
  { intros y Hy. rewrite lookup_app_r by (rewrite length_take; lia).
    rewrite length_take, Hy. replace (n - n `min` S n)%nat with 0%nat by lia. reflexivity. }
  apply Hlen. destruct (0 <? n)%nat; [destruct (Qeq_bool _ 0)|];
    rewrite !length_fmap, length_seq; reflexivity.
Qed.

Lemma np_linspace_length (start stop : Q) (num : nat) :
  length (np_linspace start stop num) = num.
Proof.
  unfold np_linspace. cbv zeta.
  assert (Hy : forall f g : Q -> Q,
            length (g <$> (f <$> ((fun i => inject_Z (Z.of_nat i)) <$> seq 0 num))) = num).
  { intros f g. now rewrite !length_fmap, length_seq. }
  destruct (1 <? num)%nat eqn:E.
  - apply Nat.ltb_lt in E. rewrite length_app, length_take. simpl.
    destruct (0 <? num - 1)%nat; [destruct (Qeq_bool _ 0)|]; rewrite Hy; lia.
  - destruct (0 <? num - 1)%nat; [destruct (Qeq_bool _ 0)|]; apply Hy.
Qed.

Lemma snapshotIndicesLimits_length (steps : Z) (n : nat) :
  (1 <= n)%nat -> length (snapshotIndicesLimits steps n) = S n.
Proof.
  intros _. unfold snapshotIndicesLimits. rewrite length_fmap, np_linspace_length. lia.
Qed.

Lemma snapshotIndicesLimits_nth (steps : Z) (n i : nat) (q : Q) :
  np_linspace 0 (inject_Z steps) (S n) !! i = Some q ->
  nth i (snapshotIndicesLimits steps n) 0%Z = np_round q.
Proof.
  intros E. unfold snapshotIndicesLimits. rewrite Nat.add_1_r.
  rewrite nth_lookup, list_lookup_fmap, E. reflexivity.
Qed.

Lemma snapshotIndicesLimits_first (steps : Z) (n : nat) :
  (1 <= n)%nat -> nth 0 (snapshotIndicesLimits steps n) 0%Z = 0%Z.
Proof.
  intros Hn. rewrite (snapshotIndicesLimits_nth _ _ _ _ (np_linspace_lookup _ _ n 0 ltac:(lia))).
  etrans; [|exact (np_round_inject_Z 0)]. apply np_round_comp. unfold fadd, fmul.
  change (inject_Z (Z.of_nat 0)) with 0. change (inject_Z 0) with 0.
  assert (E : forall x, x == 0 -> float (float x + 0) == 0).
  { intros x Ex. rewrite Ex, float_0. rewrite (float_comp (0 + 0) 0) by ring. apply float_0. }
  match goal with |- context [Qeq_bool ?x 0] => destruct (Qeq_bool x 0) end; apply E.
  - unfold fdiv. rewrite (float_comp (0 / inject_Z (Z.of_nat n)) 0) by (unfold Qdiv; ring).
    rewrite float_0. ring.
  - ring.
Qed.

Lemma snapshotIndicesLimits_last (steps : Z) (n : nat) :
  (1 <= n)%nat -> nth n (snapshotIndicesLimits steps n) 0%Z = steps.
Proof.
  intros Hn. rewrite (snapshotIndicesLimits_nth _ _ _ _ (np_linspace_last _ _ n Hn)).
  apply np_round_inject_Z.
Qed.

(** Up to [2 ^ 25] steps and with no more windows than steps, the
    rounded points increase. *)
Section Windows.
Variables (steps : Z) (n : nat).
Hypothesis Hn : (1 <= n)%nat.
Hypothesis Hsteps : (Z.of_nat n <= steps)%Z.
Hypothesis Hmax : (steps <= 2 ^ 25)%Z.

#[local] Abbreviation N := (inject_Z steps).
#[local] Abbreviation dn := (inject_Z (Z.of_nat n)).
#[local] Abbreviation step := (fdiv (fsub N 0) dn).

Lemma window_dn : 1 <= dn /\ dn <= N /\ N <= 33554432.
Proof.
  split; [|split].
  - change 1 with (inject_Z 1). rewrite <- Zle_Qle. lia.
  - rewrite <- Zle_Qle. lia.
  - change 33554432 with (inject_Z (2 ^ 25)). rewrite <- Zle_Qle. lia.
Qed.

Lemma window_step :
  N / dn - (1 # 268435456) <= step /\ step <= N / dn + (1 # 268435456) /\ 1 <= step.
Proof.
  destruct window_dn as (H1 & H2 & H3).
  assert (Ed : fsub N 0 == N).
  { unfold fsub. rewrite (float_comp (N - 0) N) by ring. apply float_inject_Z. lia. }
  assert (Es : step == float (N / dn)).
  { unfold fdiv. apply float_comp. now rewrite Ed. }
  assert (Hr1 : 1 <= N / dn).
  { apply Qle_shift_div_l; lra. }
  assert (Hr2 : N / dn <= 33554432).
  { apply Qle_shift_div_r; [lra|].
    assert (33554432 * 1 <= 33554432 * dn) by (apply Qmult_le_mono_l; lra). lra. }
  destruct (float_error (N / dn) 26) as [Elo Ehi]; [lra| |lia|].
  { change (2 ^ 26) with 67108864. lra. }
  change (2 ^ (26 - 54)) with (1 # 268435456) in *.
  rewrite Es. split; [exact Elo|]. split; [exact Ehi|].
  rewrite <- (float_inject_Z 1) by lia. now apply float_le.
Qed.

Lemma window_step_nonzero : Qeq_bool step 0 = false.
Proof.
  destruct window_step as (_ & _ & H). destruct (Qeq_bool step 0) eqn:E; [|reflexivity].
  apply Qeq_bool_iff in E. lra.
Qed.

(** The point of rank [j < n], before rounding to an integer. *)
#[local] Abbreviation point j := (fadd (fmul (inject_Z (Z.of_nat j)) step) 0).

Lemma window_limit (j : nat) :
  (j < n)%nat -> nth j (snapshotIndicesLimits steps n) 0%Z = np_round (point j).
Proof.
  intros Hj. apply snapshotIndicesLimits_nth.
  rewrite (np_linspace_lookup _ _ n j Hj). cbv zeta.
  now rewrite window_step_nonzero.
Qed.

Lemma window_point (j : nat) :
  (j < n)%nat ->
  let x := inject_Z (Z.of_nat j) * step in
  x - (1 # 268435456) <= point j /\ point j <= x + (1 # 268435456).
Proof.
  intros Hj x. destruct window_dn as (H1 & H2 & H3).
  destruct window_step as (Slo & Shi & S1).
  assert (Ep : point j == float x) by (unfold fmul; apply fadd_0_r).
  assert (Hj0 : 0 <= inject_Z (Z.of_nat j)).
  { change 0 with (inject_Z 0). rewrite <- Zle_Qle. lia. }
  assert (Hjn : inject_Z (Z.of_nat j) <= dn).
  { rewrite <- Zle_Qle. lia. }
  assert (Hx0 : 0 <= x) by (apply Qmult_le_0_compat; lra).
  assert (Hx1 : x <= dn * step) by (apply Qmult_le_compat_r; lra).
  assert (Hx2 : dn * step <= dn * (N / dn + (1 # 268435456))) by (apply Qmult_le_mono_l; lra).
  assert (Hx3 : dn * (N / dn + (1 # 268435456)) == N + dn * (1 # 268435456)) by (field; lra).
  destruct (float_error x 26) as [Elo Ehi]; [exact Hx0| |lia|].
  { change (2 ^ 26) with 67108864. lra. }
  change (2 ^ (26 - 54)) with (1 # 268435456) in *.
  rewrite Ep. split; assumption.
Qed.

Lemma snapshotIndicesLimits_increasing (i : nat) :
  (i < n)%nat ->
  (nth i (snapshotIndicesLimits steps n) 0 < nth (S i) (snapshotIndicesLimits steps n) 0)%Z.
Proof.
  intros Hi. destruct window_dn as (H1 & H2 & H3).
  destruct window_step as (Slo & Shi & S1).
  rewrite (window_limit i Hi).
  destruct (window_point i Hi) as [_ Pi]. cbv zeta in Pi.
  destruct (decide (S i = n)) as [Elast|Hne].
  - rewrite Elast, snapshotIndicesLimits_last by exact Hn.
    apply inject_Z_lt_inv.
    pose proof (np_round_bounds (point i)) as [_ Rhi].
    set (p := point i) in *.
    assert (Ei : inject_Z (Z.of_nat i) == dn - 1).
    { rewrite <- Elast, Nat2Z.inj_succ. unfold Z.succ.
      rewrite inject_Z_plus. change (inject_Z 1) with 1. ring. }
    assert (Hx : (dn - 1) * step <= (dn - 1) * (N / dn + (1 # 268435456)))
      by (apply Qmult_le_mono_l; lra).
    assert (Hx2 : (dn - 1) * (N / dn + (1 # 268435456))
                  == N - N / dn + (dn - 1) * (1 # 268435456)) by (field; lra).
    assert (Hr1 : 1 <= N / dn) by (apply Qle_shift_div_l; lra).
    rewrite Ei in Pi. lra.
  - destruct (decide (steps = Z.of_nat n)) as [Eq|Hgt].
    + rewrite (window_limit (S i)) by lia.
      assert (Es : step == 1).
      { assert (E : fsub N 0 / dn == 1).
        { assert (Ed : fsub N 0 == N).
          { unfold fsub. rewrite (float_comp (N - 0) N) by ring. apply float_inject_Z. lia. }
          rewrite Ed, Eq. field. lra. }
        unfold fdiv. rewrite (float_comp _ _ E). apply (float_inject_Z 1). lia. }
      assert (Ep : forall j, (j < n)%nat -> np_round (point j) = Z.of_nat j).
      { intros j Hj. etrans; [|exact (np_round_inject_Z (Z.of_nat j))]. apply np_round_comp.
        unfold fmul. rewrite fadd_0_r.
        rewrite (float_comp (inject_Z (Z.of_nat j) * step) (inject_Z (Z.of_nat j)))
          by (rewrite Es; ring).
        apply float_inject_Z. lia. }
      rewrite !Ep by lia. lia.
    + rewrite (window_limit (S i)) by lia. apply np_round_lt.
      destruct (window_point (S i) ltac:(lia)) as [Plo _]. cbv zeta in Plo.
      set (p := point i) in *. set (q := point (S i)) in *.
      rewrite Nat2Z.inj_succ in Plo. unfold Z.succ in Plo. rewrite inject_Z_plus in Plo.
      change (inject_Z 1) with 1 in Plo.
      assert (Ex : (inject_Z (Z.of_nat i) + 1) * step == inject_Z (Z.of_nat i) * step + step)
        by ring.
      assert (Hr : 1 + (1 # 33554432) <= N / dn).
      { apply Qle_shift_div_l; [lra|].
        assert (Hd : dn + 1 <= N).
        { change 1 with (inject_Z 1). rewrite <- inject_Z_plus, <- Zle_Qle. lia. }
        assert (E : (1 + (1 # 33554432)) * dn == dn + dn * (1 # 33554432)) by ring.
        lra. }
      rewrite Ex in Plo. lra.
Qed.
End Windows.

Lemma np_random_randint_Ok (low high : Z) (w w' : World) (t : Z) :
  np_random_randint low high w = (Ok t, w') -> (low <= t < high)%Z /\ files w' = files w.
Proof.
  unfold np_random_randint.
  destruct (low <? high)%Z eqn:E; [|destruct (low =? 0)%Z; discriminate].
  apply Z.ltb_lt in E. simpl. intros H. inversion H; subst; clear H. simpl.
  pose proof (Z.mod_pos_bound (Z.of_nat (rng w 0%nat)) (high - low)). split; [lia|reflexivity].
Qed.

Lemma drawn_from_iff (low high t : Z) : drawn_from low high t <-> (low <= t < high)%Z.
Proof.
  split.
  - intros (w & w' & H). now apply np_random_randint_Ok in H.
  - intros H. exists {| rng := fun _ => Z.to_nat (t - low); files := [] |}. eexists.
    unfold np_random_randint. simpl.
    replace (low <? high)%Z with true by (symmetry; apply Z.ltb_lt; lia).
    rewrite Z2Nat.id by lia. rewrite Z.mod_small by lia.
    replace (low + (t - low))%Z with t by lia. reflexivity.
Qed.

Lemma increasing_le (b : nat -> Z) (n : nat) :
  (forall i, (i < n)%nat -> (b i < b (S i))%Z) ->
  forall i j, (i <= j)%nat -> (j <= n)%nat -> (b i <= b j)%Z.
Proof.
  intros Hinc i j Hij Hj. induction j as [|j IH].
  - replace i with 0%nat by lia. lia.
  - destruct (decide (i = S j)) as [->|Hne]; [lia|].
    specialize (Hinc j ltac:(lia)). specialize (IH ltac:(lia) ltac:(lia)). lia.
Qed.

Lemma increasing_locate (b : nat -> Z) (n : nat) (t : Z) :
  (forall i, (i < n)%nat -> (b i < b (S i))%Z) ->
  (b 0%nat <= t < b n)%Z ->
  exists i, (i < n)%nat /\ (b i <= t < b (S i))%Z /\
            forall j, (j < n)%nat -> (b j <= t < b (S j))%Z -> j = i.
Proof.
  intros Hinc Ht.
  assert (Hex : exists i, (i < n)%nat /\ (b i <= t < b (S i))%Z).
  { clear Hinc. induction n as [|n IH]; [lia|].
    destruct (Z_lt_le_dec t (b n)) as [Hlt|Hge].
    - destruct IH as (i & Hi & Hb); [lia|]. exists i. split; [lia|exact Hb].
    - exists n. split; [lia|lia]. }
  destruct Hex as (i & Hi & Hb). exists i. split; [exact Hi|]. split; [exact Hb|].
  intros j Hj Hbj. destruct (Nat.lt_trichotomy j i) as [Hlt|[->|Hgt]]; [|reflexivity|].
  - pose proof (increasing_le b n Hinc (S j) i ltac:(lia) ltac:(lia)). lia.
  - pose proof (increasing_le b n Hinc (S i) j ltac:(lia) ltac:(lia)). lia.
Qed.

(** C2, amended.  Under [Snapshots(n)] with [1 <= n] and [n + 1 <= T],
    for a trajectory of at most [2 ^ 25] time points, the [n] windows
    cut by the rounded points of [np.linspace(0, T-1, n+1)], computed
    in doubles, are non-empty and pairwise disjoint, and their union is
    exactly the time indices [0 .. T-2]: every such index lies in one
    window and one only, and no window reaches beyond. *)
Theorem snapshot_windows_partition (T n : nat) :
  (1 <= n)%nat -> (n + 1 <= T)%nat -> (Z.of_nat T <= 2 ^ 25)%Z ->
  (forall t : Z, (0 <= t < Z.of_nat T - 1)%Z ->
     exists i, (i < n)%nat /\ in_window (Z.of_nat T - 1) n i t /\
               forall j, (j < n)%nat -> in_window (Z.of_nat T - 1) n j t -> j = i) /\
  (forall i t, (i < n)%nat -> in_window (Z.of_nat T - 1) n i t ->
               (0 <= t < Z.of_nat T - 1)%Z) /\
  (forall i, (i < n)%nat -> exists t, in_window (Z.of_nat T - 1) n i t).
Proof.
  intros Hn HT Hmax. set (steps := (Z.of_nat T - 1)%Z).
  set (b := fun i => nth i (snapshotIndicesLimits steps n) 0%Z).
  assert (Hinc : forall i, (i < n)%nat -> (b i < b (S i))%Z).
  { intros i Hi. apply snapshotIndicesLimits_increasing; unfold steps; lia. }
  assert (H0 : b 0%nat = 0%Z) by (apply snapshotIndicesLimits_first; lia).
  assert (Hlast : b n = steps) by (apply snapshotIndicesLimits_last; lia).
  assert (Hwin : forall i t, in_window steps n i t <-> (b i <= t < b (S i))%Z).
  { intros i t. unfold in_window. cbv zeta. rewrite drawn_from_iff, Nat.add_1_r. reflexivity. }
  split; [|split].
  - intros t Ht. destruct (increasing_locate b n t Hinc) as (i & Hi & Hb & Huniq); [lia|].
    exists i. split; [exact Hi|]. split; [now apply Hwin|].
    intros j Hj Hw. apply Huniq; [exact Hj|now apply Hwin].
  - intros i t Hi Hw. apply Hwin in Hw.
    pose proof (increasing_le b n Hinc 0%nat i ltac:(lia) ltac:(lia)).
    pose proof (increasing_le b n Hinc (S i) n ltac:(lia) ltac:(lia)). lia.
  - intros i Hi. exists (b i). apply Hwin. specialize (Hinc i Hi). lia.
Qed.

(** With 30 time points and 14 windows the point of rank 7 is
    [7 * (29.0 / 14) = 14.500000000000002], which rounds to 15: windows
    6 and 7 are [[12, 15)] and [[15, 17)]. *)
Example snapshotIndicesLimits_30_14 :
  snapshotIndicesLimits 29 14 = [0; 2; 4; 6; 8; 10; 12; 15; 17; 19; 21; 23; 25; 27; 29]%Z.
Proof. vm_compute. reflexivity. Qed.

(** C2 as stated fails: with [T = 3] and [n = 2] the windows are [[0, 1)]
    and [[1, 2)], and the time index [T - 1 = 2] is in neither. *)
Lemma windows_cover_closed_range_fails : ~ windows_cover_closed_range 3 2.
Proof.
  intros H. destruct (H 2%Z ltac:(lia)) as (i & Hi & Hw).
  unfold in_window in Hw. cbv zeta in Hw. apply drawn_from_iff in Hw.
  destruct i as [|[|i]]; [| |lia]; vm_compute in Hw; destruct Hw as [H1 H2];
    first [now apply H1 | discriminate H2].
Qed.

(** ** The per-cell table *)

Lemma M_mapM_Ok {A B} (f : A -> M B) (l : list A) (r : list B) (w w' : World)
    (R : A -> B -> Prop) (I : World -> World -> Prop) :
  (forall w, I w w) ->
  (forall w1 w2 w3, I w1 w2 -> I w2 w3 -> I w1 w3) ->
  (forall x y w1 w2, f x w1 = (Ok y, w2) -> R x y /\ I w1 w2) ->
  mapM f l w = (Ok r, w') -> Forall2 R l r /\ I w w'.
Proof.
  intros Hrefl Htrans Hf. revert r w. induction l as [|x l IH]; intros r w E.
  - inversion E; subst. split; [constructor|apply Hrefl].
  - cbn in E. apply M_bind_Ok in E as (y & w1 & Hy & E).
    apply M_bind_Ok in E as (ys & w2 & Hys & E). inversion E; subst.
    apply Hf in Hy as [Hy HI]. apply IH in Hys as [Hys HI'].
    split; [constructor; assumption|]. eapply Htrans; eassumption.
Qed.

Lemma normalize_index_of_nat (n t k : nat) :
  normalize_index n (Z.of_nat t) = Ok k -> k = t /\ (t < n)%nat.
Proof.
  unfold normalize_index.
  destruct ((0 <=? Z.of_nat t)%Z && (Z.of_nat t <? Z.of_nat n)%Z) eqn:E1.
  - intros E. inversion E. rewrite Nat2Z.id. split; [reflexivity|].
    apply andb_true_iff in E1 as [_ E1]. apply Z.ltb_lt in E1. lia.
  - destruct ((- Z.of_nat n <=? Z.of_nat t)%Z && (Z.of_nat t <? 0)%Z) eqn:E2; [|discriminate].
    apply andb_true_iff in E2 as [_ E2]. apply Z.ltb_lt in E2. lia.
Qed.

Lemma normalize_index_nonneg (n : nat) (j : Z) (k : nat) :
  (0 <= j)%Z -> normalize_index n j = Ok k -> k = Z.to_nat j /\ (j < Z.of_nat n)%Z.
Proof.
  intros Hj. unfold normalize_index.
  destruct ((0 <=? j)%Z && (j <? Z.of_nat n)%Z) eqn:E1.
  - intros E. inversion E. split; [reflexivity|].
    apply andb_true_iff in E1 as [_ E1]. now apply Z.ltb_lt in E1.
  - destruct ((- Z.of_nat n <=? j)%Z && (j <? 0)%Z) eqn:E2; [|discriminate].
    apply andb_true_iff in E2 as [_ E2]. apply Z.ltb_lt in E2. lia.
Qed.

Lemma take_cols_Ok (A B : ndarray) (idx : list Z) :
  take_cols A idx = Ok B ->
  exists js, Forall2 (fun j k => normalize_index (shape1 A) j = Ok k) idx js /\
             B = {| shape1 := length js;
                    rows := map (fun r => map (fun j => nth j r 0) js) (rows A) |}.
Proof.
  unfold take_cols. intros E. apply outcome_bind_Ok in E as (js & Hjs & E).
  inversion E; subst. exists js. split; [|reflexivity]. now apply outcome_mapM_Ok.
Qed.

Lemma take_rows_shape1 (P sub : ndarray) (idx : list nat) :
  take_rows P idx = Ok sub -> shape1 sub = shape1 P.
Proof.
  unfold take_rows. intros E. apply outcome_bind_Ok in E as (rs & _ & E).
  inversion E. reflexivity.
Qed.

Lemma pd_DataFrame_Ok (data : ndarray) (idx cols : list string) (df : DataFrame) :
  pd_DataFrame data idx cols = Ok df ->
  df = {| index := idx; columns := cols; values := data |} /\
  shape0 data = length idx /\ shape1 data = length cols.
Proof.
  unfold pd_DataFrame.
  destruct ((shape0 data =? length idx)%nat && (shape1 data =? length cols)%nat) eqn:E;
    [|discriminate].
  apply andb_true_iff in E as [E1 E2]. apply Nat.eqb_eq in E1, E2.
  intros H. inversion H. auto.
Qed.

Lemma to_csv_eq (df : DataFrame) (path : string) (w : World) :
  to_csv df path w = (Ok tt, {| rng := rng w; files := (path, df) :: files w |}).
Proof. reflexivity. Qed.

Lemma col_name_inj (cellid t t' : nat) : col_name cellid t = col_name cellid t' -> t = t'.
Proof.
  unfold col_name. intros E. do 3 apply (inj (String.app _)) in E.
  now apply (inj pretty) in E.
Qed.


Lemma in_window_iff (steps : Z) (n i : nat) (t : Z) :
  in_window steps n i t <->
  (nth i (snapshotIndicesLimits steps n) 0 <= t < nth (S i) (snapshotIndicesLimits steps n) 0)%Z.
Proof. unfold in_window. cbv zeta. rewrite drawn_from_iff, Nat.add_1_r. reflexivity. Qed.

(** Once every window has yielded a draw, the draws are valid time
    indices: the boundaries increase from 0. *)
Lemma drawn_indices_nonneg (steps : Z) (n : nat) (idx : list Z) :
  (1 <= n)%nat ->
  Forall2 (in_window steps n) (seq 0 n) idx ->
  forall i t, idx !! i = Some t -> (0 <= t)%Z.
Proof.
  intros Hn HF i t Hi.
  set (b := fun i => nth i (snapshotIndicesLimits steps n) 0%Z).
  assert (Hinc : forall j, (j < n)%nat -> (b j < b (S j))%Z).
  { intros j Hj. destruct (Forall2_lookup_l _ _ _ j j HF) as (z & _ & Hz).
    - apply lookup_seq. lia.
    - apply in_window_iff in Hz. unfold b. lia. }
  destruct (Forall2_lookup_r _ _ _ i t HF Hi) as (j & Hj & Hw).
  apply lookup_seq in Hj as [-> Hlt]. simpl in Hw. apply in_window_iff in Hw.
  pose proof (increasing_le b n Hinc 0%nat i ltac:(lia) ltac:(lia)) as Hle.
  unfold b in Hle at 1. rewrite snapshotIndicesLimits_first in Hle by lia.
  unfold b in Hle. lia.
Qed.

(** ** A cell whose trajectory is accepted gets its table *)

Lemma take_rows_Ok (P sub : ndarray) (idx : list nat) :
  take_rows P idx = Ok sub -> shape1 sub = shape1 P /\ shape0 sub = length idx.
Proof.
  unfold take_rows. intros E. apply outcome_bind_Ok in E as (rs & Hrs & E).
  inversion E; subst. split; [reflexivity|]. unfold shape0. simpl.
  apply outcome_mapM_Ok, Forall2_length in Hrs. congruence.
Qed.

Lemma transcript_max_rows (P : ndarray) (idx : list nat) (m : Q) :
  transcript_max P idx = Ok m -> exists sub, take_rows P idx = Ok sub.
Proof.
  unfold transcript_max. intros E. apply outcome_bind_Ok in E as (sub & Hsub & _). eauto.
Qed.

Lemma normalize_index_in_range (n : nat) (j : Z) :
  (0 <= j < Z.of_nat n)%Z -> normalize_index n j = Ok (Z.to_nat j).
Proof.
  intros [H0 H1]. unfold normalize_index.
  apply Z.leb_le in H0. apply Z.ltb_lt in H1. now rewrite H0, H1.
Qed.

Lemma take_cols_in_range (A : ndarray) (idx : list Z) :
  Forall (fun j => (0 <= j < Z.of_nat (shape1 A))%Z) idx ->
  take_cols A idx
  = Ok {| shape1 := length idx;
          rows := map (fun r => map (fun j => nth (Z.to_nat j) r 0) idx) (rows A) |}.
Proof.
  intros H. unfold take_cols.
  assert (E : mapM (normalize_index (shape1 A)) idx = Ok (Z.to_nat <$> idx)).
  { induction H as [|j idx Hj _ IH]; [reflexivity|].
    cbn. rewrite (normalize_index_in_range _ _ Hj). cbn. rewrite IH. reflexivity. }
  rewrite E. cbn. rewrite length_fmap. do 2 f_equal. apply map_ext. intros r.
  now rewrite <- list_fmap_compose.
Qed.

Lemma np_random_randint_total (low high : Z) (w : World) :
  (low < high)%Z ->
  exists t w', np_random_randint low high w = (Ok t, w').
Proof.
  intros H. unfold np_random_randint. apply Z.ltb_lt in H. rewrite H. simpl. eauto.
Qed.



Section Returns.
Context {ModelFn : Type} `{!Simulator ModelFn} `{!Utils}.

Lemma retry_loop_rows fuel (a : argdict.t ModelFn) pars seed tries w P tries' w' :
  retry_loop fuel a pars seed tries w = (Ok (P, tries'), w') ->
  exists sub, take_rows P (argdict.rnaIndex a) = Ok sub.
Proof.
  revert seed tries w. induction fuel as [|fuel IH]; intros seed tries w E; [discriminate|].
  simpl in E. apply M_bind_Ok in E as ([[seed' P0] retry] & w1 & Ha & E).
  destruct retry; [eapply IH, E|]. inversion E; subst.
  apply attempt_Ok in Ha as (_ & m & Hm & _). eapply transcript_max_rows, Hm.
Qed.

Lemma single_timepoint_returns (a : argdict.t ModelFn) outPrefix P sub w w2 :
  take_rows P (argdict.rnaIndex a) = Ok sub ->
  length (argdict.genelist a) = length (argdict.rnaIndex a) ->
  write_sample a outPrefix P w = (Ok tt, w2) ->
  exists df, single_timepoint a outPrefix P w = (Ok df, w2).
Proof.
  intros Hsub Hlen Hsample. unfold single_timepoint. rewrite Hsub.
  pose proof (take_rows_Ok _ _ _ Hsub) as [Hs1 Hs0].
  erewrite M_bind_eq_Ok by reflexivity.
  rewrite take_cols_in_range.
  2:{ apply Forall_forall. intros j Hj. apply list_elem_of_fmap in Hj as (t & -> & Ht).
      apply elem_of_seq in Ht. rewrite Hs1. lia. }
  erewrite M_bind_eq_Ok by reflexivity.
  unfold pd_DataFrame. unfold shape0 at 1. cbn [rows shape1].
  rewrite length_map. fold (shape0 sub). rewrite Hs0, Hlen, !length_fmap, !Nat.eqb_refl.
  cbn [andb]. erewrite M_bind_eq_Ok by reflexivity.
  rewrite (M_bind_eq_Ok _ _ _ _ _ Hsample). eexists. reflexivity.
Qed.

End Returns.

Section PerCell.
Context {ModelFn : Type} `{!Simulator ModelFn} `{!Utils}.

Lemma single_timepoint_Ok (a : argdict.t ModelFn) outPrefix P w df w' :
  single_timepoint a outPrefix P w = (Ok df, w') ->
  exists sub,
    take_rows P (argdict.rnaIndex a) = Ok sub /\
    index df = argdict.genelist a /\
    columns df = col_name (argdict.cellid a) <$> seq 1 (shape1 P - 1) /\
    values df = {| shape1 := shape1 P - 1;
                   rows := (fun r => (fun t => nth t r 0) <$> seq 1 (shape1 P - 1)) <$> rows sub |}.
Proof.
  unfold single_timepoint. intros E.
  apply M_bind_Ok in E as (sub & w1 & Hsub & E). apply lift_Ok in Hsub as [Hsub ->].
  apply M_bind_Ok in E as (subset & w1 & Hss & E). apply lift_Ok in Hss as [Hss ->].
  apply M_bind_Ok in E as (df0 & w1 & Hdf & E). apply lift_Ok in Hdf as [Hdf ->].
  apply M_bind_Ok in E as ([] & w1 & _ & E). inversion E; subst df0 w1; clear E.
  apply pd_DataFrame_Ok in Hdf as (-> & _ & _).
  apply take_cols_Ok in Hss as (js & Hjs & ->).
  assert (Ejs : js = seq 1 (shape1 P - 1)).
  { clear -Hjs. revert js Hjs. generalize (seq 1 (shape1 P - 1)).
    induction l as [|t l IH]; intros js H; inversion H; subst; [reflexivity|].
    apply normalize_index_of_nat in H2 as [-> _]. f_equal. now apply IH. }
  subst js. exists sub. split; [exact Hsub|]. split; [reflexivity|]. split; [reflexivity|].
  simpl. rewrite length_seq. reflexivity.
Qed.

(** C3. Under [SingleTimepoint] ([n_snapshots == 0]) the table written
    for a cell whose accepted trajectory has [T = P.shape[1]] time
    points has exactly [T - 1] columns, named after the time indices
    [1 .. T-1] and holding the transcript values at these indices; no
    column stands for the time index 0.  And the table is written once a
    trajectory is accepted, the gene list being as long as [rnaIndex]
    and the sampled observation, when asked for, being written. *)
Theorem single_timepoint_table (fuel : nat) (a : argdict.t ModelFn) (w : World) :
  argdict.n_snapshots a = 0%nat ->
  (forall w', simulateAndSample fuel a w = (Ok tt, w') ->
   exists pars P tries w1 sub df,
     retry_loop fuel a pars (argdict.seed a) 0 w = (Ok (P, tries), w1) /\
     take_rows P (argdict.rnaIndex a) = Ok sub /\
     head (files w') = Some (cell_csv (argdict.outPrefix a) (argdict.cellid a), df) /\
     columns df = col_name (argdict.cellid a) <$> seq 1 (shape1 P - 1) /\
     length (columns df) = (shape1 P - 1)%nat /\
     values df = {| shape1 := shape1 P - 1;
                    rows := (fun r => (fun t => nth t r 0) <$> seq 1 (shape1 P - 1))
                              <$> rows sub |} /\
     col_name (argdict.cellid a) 0 ∉ columns df) /\
  (forall pars P tries w1 w2,
     mapM (getitem (argdict.allParameters a)) (argdict.parNames a) = Ok pars ->
     retry_loop fuel a pars (argdict.seed a) 0 w = (Ok (P, tries), w1) ->
     length (argdict.genelist a) = length (argdict.rnaIndex a) ->
     write_sample a (os_path_join (argdict.outPrefix a) "simulations") P w1 = (Ok tt, w2) ->
     exists w', simulateAndSample fuel a w = (Ok tt, w')).
Proof.
  intros Hn. split.
  - intros w' E. unfold simulateAndSample in E.
    apply M_bind_Ok in E as ([] & w0 & Hh & E).
    assert (w0 = w) as ->.
    { destruct (argdict.sampleCells a); [destruct (argdict.header a)|];
        inversion Hh; reflexivity. }
    apply M_bind_Ok in E as (pars & w0 & Hp & E). apply lift_Ok in Hp as [Hp ->].
    apply M_bind_Ok in E as ([P tries] & w1 & Hloop & E).
    rewrite Hn in E. simpl in E.
    apply M_bind_Ok in E as (df & w2 & Hdf & E).
    rewrite to_csv_eq in E. inversion E; subst w'; clear E.
    apply single_timepoint_Ok in Hdf as (sub & Hsub & _ & Hcols & Hvals).
    exists pars, P, tries, w1, sub, df.
    split; [exact Hloop|]. split; [exact Hsub|]. split; [reflexivity|].
    split; [exact Hcols|]. split; [rewrite Hcols, length_fmap, length_seq; reflexivity|].
    split; [exact Hvals|].
    rewrite Hcols. intros Hin. apply list_elem_of_fmap in Hin as (t & Ht & Hin).
    apply col_name_inj in Ht. subst t. apply elem_of_seq in Hin. lia.
  - intros pars P tries w1 w2 Hp Hloop Hlen Hsample.
    destruct (retry_loop_rows _ _ _ _ _ _ _ _ _ Hloop) as (sub & Hsub).
    destruct (single_timepoint_returns _ _ _ _ _ _ Hsub Hlen Hsample) as (df & Hdf).
    unfold simulateAndSample.
    assert (Hh : (if argdict.sampleCells a
                  then match argdict.header a with
                       | Some _ => mret tt
                       | None => raise (KeyError "header")
                       end
                  else mret tt) w = (Ok tt, w)).
    { unfold write_sample in Hsample.
      destruct (argdict.sampleCells a); [|reflexivity].
      destruct (argdict.header a); [reflexivity|discriminate Hsample]. }
    rewrite (M_bind_eq_Ok _ _ _ _ _ Hh), Hp. erewrite M_bind_eq_Ok by reflexivity.
    rewrite (M_bind_eq_Ok _ _ _ _ _ Hloop), Hn. cbn [Nat.eqb].
    rewrite (M_bind_eq_Ok _ _ _ _ _ Hdf), to_csv_eq. eauto.
Qed.
End PerCell.

Section PerCellSnapshots.
Context {ModelFn : Type} `{!Simulator ModelFn} `{!Utils}.

Lemma snapshots_Ok (a : argdict.t ModelFn) P w df w' :
  (1 <= argdict.n_snapshots a)%nat ->
  snapshots a P w = (Ok df, w') ->
  exists sub snapshotIndices,
    take_rows P (argdict.rnaIndex a) = Ok sub /\
    Forall2 (in_window (Z.of_nat (shape1 P) - 1) (argdict.n_snapshots a))
            (seq 0 (argdict.n_snapshots a)) snapshotIndices /\
    (forall i t, snapshotIndices !! i = Some t -> (0 <= t < Z.of_nat (shape1 P))%Z) /\
    index df = argdict.genelist a /\
    columns df = snapshot_name (argdict.cellid a) <$> seq 0 (argdict.n_snapshots a) /\
    values df = {| shape1 := argdict.n_snapshots a;
                   rows := (fun r => (fun t => nth (Z.to_nat t) r 0) <$> snapshotIndices)
                             <$> rows sub |} /\
    files w' = files w.
Proof.
  intros Hn. unfold snapshots. intros E.
  apply M_bind_Ok in E as (idx & w1 & Hidx & E).
  apply M_bind_Ok in E as (sub & w2 & Hsub & E). apply lift_Ok in Hsub as [Hsub ->].
  apply M_bind_Ok in E as (subset & w2 & Hss & E). apply lift_Ok in Hss as [Hss ->].
  apply lift_Ok in E as [Hdf ->].
  apply (M_mapM_Ok _ _ _ _ _
           (in_window (Z.of_nat (shape1 P) - 1) (argdict.n_snapshots a))
           (fun w1 w2 => files w2 = files w1)) in Hidx as [HF Hfiles];
    [|reflexivity|intros; congruence|].
  2:{ intros i z wa wb Hr. split; [|now apply np_random_randint_Ok in Hr].
      unfold in_window. cbv zeta. exists wa, wb. exact Hr. }
  pose proof (drawn_indices_nonneg _ _ _ Hn HF) as Hnonneg.
  apply pd_DataFrame_Ok in Hdf as (-> & _ & _).
  apply take_cols_Ok in Hss as (js & Hjs & ->).
  rewrite (take_rows_shape1 _ _ _ Hsub) in Hjs.
  assert (Ejs : js = Z.to_nat <$> idx /\
                forall i t, idx !! i = Some t -> (t < Z.of_nat (shape1 P))%Z).
  { clear -Hjs Hnonneg. revert js Hjs Hnonneg.
    induction idx as [|t l IH]; intros js H Hnn; inversion H; subst.
    - split; [reflexivity|]. intros i t Hi. discriminate.
    - apply normalize_index_nonneg in H2 as [-> Hlt]; [|apply (Hnn 0%nat); reflexivity].
      destruct (IH _ H4) as [-> Hrest]; [intros i z Hi; apply (Hnn (S i)); exact Hi|].
      split; [reflexivity|]. intros [|i] z Hi; [|eapply Hrest, Hi].
      inversion Hi; subst. exact Hlt. }
  destruct Ejs as [-> Hlt].
  exists sub, idx. split; [exact Hsub|]. split; [exact HF|].
  split; [intros i t Hi; split; [eapply Hnonneg, Hi|eapply Hlt, Hi]|].
  split; [reflexivity|]. split; [reflexivity|]. split; [|exact Hfiles].
  simpl. rewrite length_fmap. apply Forall2_length in HF. rewrite length_seq in HF.
  rewrite <- HF. f_equal. apply map_ext. intros r. rewrite <- list_fmap_compose. reflexivity.
Qed.

End PerCellSnapshots.

(** ** The base vector of initial conditions *)

Lemma for_fold_app {A B} (l1 l2 : list A) (body : B -> A -> outcome B) (acc : B) :
  for_fold (l1 ++ l2) body acc = (acc' ← for_fold l1 body acc; for_fold l2 body acc').
Proof.
  revert acc. induction l1 as [|x l1 IH]; intros acc; simpl; [reflexivity|].
  destruct (body acc x); simpl; auto.
Qed.

Lemma setitem_Ok (ss ss' : list Q) (i : nat) (v : Q) :
  setitem ss i v = Ok ss' -> ss' = <[i := v]> ss /\ (i < length ss)%nat.
Proof.
  unfold setitem. destruct (i <? length ss)%nat eqn:E; [|discriminate].
  apply Nat.ltb_lt in E. intros H. inversion H. auto.
Qed.

Lemma setitem_lt (ss : list Q) (i : nat) (v : Q) :
  (i < length ss)%nat -> setitem ss i v = Ok (<[i := v]> ss).
Proof. intros H. unfold setitem. apply Nat.ltb_lt in H. now rewrite H. Qed.

Lemma enumerate_snoc {A} (l : list A) (x : A) :
  enumerate (l ++ [x]) = enumerate l ++ [(length l, x)].
Proof. unfold enumerate. rewrite imap_app. simpl. now rewrite Nat.add_0_r. Qed.

Lemma default_ss_prefix (m : mg.t) (l : list string) (n : nat) :
  (length l <= n)%nat ->
  for_fold (enumerate l)
    (fun ss ik =>
       let '(i, k) := ik in
       if contains "x_" k then setitem ss i 1.0
       else if contains "p_" k then
         if str_in (replace_p_ k) (mg.proteinlist m) then setitem ss i 20
         else Ok ss
       else Ok ss)
    (replicate n 0)
  = Ok ((default_entry m <$> l) ++ replicate (n - length l) 0).
Proof.
  induction l as [|k l IH] using rev_ind; intros Hn.
  - simpl. now rewrite Nat.sub_0_r.
  - rewrite length_app in Hn. simpl in Hn.
    rewrite enumerate_snoc, for_fold_app, IH by lia. cbn [mbind outcome_bind for_fold].
    rewrite fmap_app, length_app. simpl.
    replace (n - length l)%nat with (S (n - (length l + 1))) by lia.
    set (rest := replicate (n - (length l + 1)) 0).
    assert (Hlen : length (default_entry m <$> l) = length l) by apply length_fmap.
    set (pre := default_entry m <$> l) in *.
    assert (Hset : forall v, setitem (pre ++ replicate (S (n - (length l + 1))) 0) (length l) v
                             = Ok ((pre ++ [v]) ++ rest)).
    { intros v. rewrite setitem_lt.
      - f_equal. rewrite <- Hlen.
        rewrite insert_app_r_alt by lia. rewrite Nat.sub_diag. simpl.
        rewrite <- app_assoc, Hlen. reflexivity.
      - rewrite length_app, Hlen, length_replicate. lia. }
    assert (Hkeep : pre ++ replicate (S (n - (length l + 1))) 0 = (pre ++ [0]) ++ rest).
    { simpl. now rewrite <- app_assoc. }
    unfold default_entry.
    destruct (contains "x_" k); [now rewrite Hset|].
    destruct (contains "p_" k); cbn [andb]; [|now rewrite Hkeep].
    destruct (str_in (replace_p_ k) (mg.proteinlist m)); [now rewrite Hset|now rewrite Hkeep].
Qed.

Lemma default_ss_eq (m : mg.t) : default_ss m = Ok (default_entry m <$> mg.varmapper m).
Proof.
  unfold default_ss. rewrite default_ss_prefix by lia.
  now rewrite Nat.sub_diag, app_nil_r.
Qed.

Lemma foldl_insert_lookup {V} (l : list (string * V)) (acc : gmap string V) k v :
  foldl (fun d kv => <[kv.1 := kv.2]> d) acc l !! k = Some v ->
  (k, v) ∈ l \/ acc !! k = Some v.
Proof.
  revert acc. induction l as [|[k' v'] l IH]; intros acc H; simpl in H; [now right|].
  apply IH in H as [H|H]; [left; now right|].
  destruct (decide (k' = k)) as [->|Hne].
  - rewrite lookup_insert_eq in H. inversion H; subst. left. now left.
  - rewrite lookup_insert_ne in H by exact Hne. now right.
Qed.

Lemma dict_of_pairs_lookup {V} (l : list (string * V)) k v :
  dict_of_pairs l !! k = Some v -> (k, v) ∈ l.
Proof.
  intros H. apply foldl_insert_lookup in H as [H|H]; [exact H|].
  rewrite lookup_empty in H. discriminate.
Qed.

Lemma make_revvarmapper_lookup (varmapper : list string) (name : string) (i : nat) :
  make_revvarmapper varmapper !! name = Some i -> varmapper !! i = Some name.
Proof.
  intros H. apply dict_of_pairs_lookup in H.
  apply list_elem_of_fmap in H as ([j k] & E & H). simpl in E. inversion E; subst.
  apply elem_of_lookup_imap_1 in H as (j' & k' & E' & H). now inversion E'; subst.
Qed.

Lemma for_fold_invariant {A B} (I : B -> Prop) (l : list A) (body : B -> A -> outcome B)
    (acc acc' : B) :
  for_fold l body acc = Ok acc' ->
  (forall b x b', x ∈ l -> body b x = Ok b' -> I b -> I b') ->
  I acc -> I acc'.
Proof.
  revert acc. induction l as [|x l IH]; intros acc E Hstep Hacc; simpl in E.
  - now inversion E; subst.
  - apply outcome_bind_Ok in E as (b & Hb & E).
    apply (IH b); [exact E| |].
    + intros b0 y b' Hy. apply Hstep. now right.
    + eapply Hstep; [left|exact Hb|exact Hacc].
Qed.

Lemma for_fold_establish {A B} (I : B -> Prop) (l : list A) (body : B -> A -> outcome B)
    (acc acc' : B) (x0 : A) :
  for_fold l body acc = Ok acc' ->
  x0 ∈ l ->
  (forall b b', body b x0 = Ok b' -> I b') ->
  (forall b x b', x ∈ l -> body b x = Ok b' -> I b -> I b') ->
  I acc'.
Proof.
  revert acc. induction l as [|x l IH]; intros acc E Hin Hx0 Hstep; [inversion Hin|].
  simpl in E. apply outcome_bind_Ok in E as (b & Hb & E).
  apply elem_of_cons in Hin as [->|Hin].
  - eapply for_fold_invariant; [exact E| |eapply Hx0, Hb].
    intros b0 y b' Hy. apply Hstep. now right.
  - eapply IH; [exact E|exact Hin|exact Hx0|].
    intros b0 y b' Hy. apply Hstep. now right.
Qed.

Section Override.
Variables (m : mg.t) (spec : icsspec.t).
(** A variable [name] of index [i] whose gene or protein has the value
    [v] in the override map. *)
Variables (name : string) (i : nat) (v : Q).
Hypothesis Hrev : make_revvarmapper (mg.varmapper m) !! name = Some i.

#[local] Abbreviation assigned := (assign m spec).
#[local] Abbreviation agreed := (agrees spec name v).

Lemma assign_Ok tag ss x ss' :
  assigned tag ss x = Ok ss' ->
  exists j, make_revvarmapper (mg.varmapper m) !! (tag +:+ x) = Some j /\
            ss' = <[j := override_entry spec x]> ss /\ (j < length ss)%nat.
Proof.
  unfold assign, getitem. intros E.
  destruct (make_revvarmapper (mg.varmapper m) !! (tag +:+ x)) as [j|] eqn:Hj;
    [|discriminate].
  simpl in E. exists j. split; [reflexivity|]. unfold override_entry.
  destruct (icsmap spec !! x); simpl; now apply setitem_Ok.
Qed.

Lemma assign_preserves tag ss x ss' :
  agreed tag -> assigned tag ss x = Ok ss' -> ss !! i = Some v -> ss' !! i = Some v.
Proof.
  intros Hval E Hi. apply assign_Ok in E as (j & Hj & -> & Hlt).
  destruct (decide (j = i)) as [->|Hne].
  - rewrite list_lookup_insert_eq by exact Hlt. f_equal. apply Hval.
    apply make_revvarmapper_lookup in Hj, Hrev. congruence.
  - now rewrite list_lookup_insert_ne.
Qed.

Lemma assign_establishes tag ss x ss' :
  agreed tag -> tag +:+ x = name -> assigned tag ss x = Ok ss' -> ss' !! i = Some v.
Proof.
  intros Hval Hn E. apply assign_Ok in E as (j & Hj & -> & Hlt).
  rewrite Hn, Hrev in Hj. inversion Hj; subst j.
  rewrite list_lookup_insert_eq by exact Hlt. f_equal. now apply Hval.
Qed.

Lemma override_ss_entry (ss ss' : list Q) :
  agreed "p_" -> agreed "x_" ->
  (exists p, p ∈ mg.proteinlist m /\ "p_" +:+ p = name) \/
  (exists g, g ∈ mg.genelist m /\ "x_" +:+ g = name) ->
  override_ss m spec ss = Ok ss' ->
  ss' !! i = Some v.
Proof.
  intros Hvp Hvg Hin E. unfold override_ss in E. cbv zeta in E.
  change (for_fold (enumerate (mg.varmapper m))
            (fun ss _ => ss0 ← for_fold (mg.proteinlist m) (assigned "p_") ss;
                         for_fold (mg.genelist m) (assigned "x_") ss0) ss = Ok ss') in E.
  pose proof (make_revvarmapper_lookup _ _ _ Hrev) as Hvm.
  eapply (for_fold_establish (fun ss => ss !! i = Some v));
    [exact E|apply (elem_of_lookup_imap_2 pair _ _ _ Hvm)| |].
  - intros b b' Hb. apply outcome_bind_Ok in Hb as (b1 & Hp & Hg).
    destruct Hin as [(p & Hp0 & Hn)|(g & Hg0 & Hn)].
    + eapply (for_fold_invariant (fun ss => ss !! i = Some v)); [exact Hg| |].
      * intros ? ? ? _. now apply assign_preserves.
      * eapply (for_fold_establish (fun ss => ss !! i = Some v)); [exact Hp|exact Hp0| |].
        -- intros ? ?. now apply assign_establishes.
        -- intros ? ? ? _. now apply assign_preserves.
    + eapply (for_fold_establish (fun ss => ss !! i = Some v)); [exact Hg|exact Hg0| |].
      * intros ? ?. now apply assign_establishes.
      * intros ? ? ? _. now apply assign_preserves.
  - intros b x b' _ Hb Hi. apply outcome_bind_Ok in Hb as (b1 & Hp & Hg).
    eapply (for_fold_invariant (fun ss => ss !! i = Some v)); [exact Hg| |].
    + intros ? ? ? _. now apply assign_preserves.
    + eapply (for_fold_invariant (fun ss => ss !! i = Some v)); [exact Hp| |exact Hi].
      intros ? ? ? _. now apply assign_preserves.
Qed.
End Override.

Lemma tagged_names_differ (x y : string) : "p_" +:+ x <> "x_" +:+ y.
Proof. discriminate. Qed.

Lemma foldl_insert_is_Some {V} (l : list (string * V)) (acc : gmap string V) k :
  (k ∈ l.*1 \/ is_Some (acc !! k)) ->
  is_Some (foldl (fun d kv => <[kv.1 := kv.2]> d) acc l !! k).
Proof.
  revert acc. induction l as [|[k' v'] l IH]; intros acc H; simpl.
  - destruct H as [H|H]; [inversion H|exact H].
  - apply IH. destruct H as [H|H].
    + apply elem_of_cons in H as [->|H]; [right|now left].
      simpl. rewrite lookup_insert_eq. eauto.
    + right. simpl. destruct (decide (k' = k)) as [->|Hne].
      * rewrite lookup_insert_eq. eauto.
      * now rewrite lookup_insert_ne.
Qed.

Lemma make_revvarmapper_total (varmapper : list string) (name : string) :
  name ∈ varmapper ->
  exists i, make_revvarmapper varmapper !! name = Some i /\ (i < length varmapper)%nat.
Proof.
  intros Hin. unfold make_revvarmapper, dict_of_pairs.
  destruct (foldl_insert_is_Some ((fun ik : nat * string => (ik.2, ik.1)) <$> enumerate varmapper)
              ∅ name) as (i & Hi).
  { left. apply list_elem_of_lookup in Hin as (j & Hj).
    apply list_elem_of_fmap. exists (name, j). split; [reflexivity|].
    apply list_elem_of_fmap. exists (j, name). split; [reflexivity|].
    apply (elem_of_lookup_imap_2 pair _ _ _ Hj). }
  exists i. split; [exact Hi|].
  apply make_revvarmapper_lookup in Hi. eapply lookup_lt_Some, Hi.
Qed.

Lemma for_fold_total {A B} (I : B -> Prop) (l : list A) (body : B -> A -> outcome B)
    (acc : B) :
  (forall b x, x ∈ l -> I b -> exists b', body b x = Ok b' /\ I b') ->
  I acc -> exists acc', for_fold l body acc = Ok acc' /\ I acc'.
Proof.
  revert acc. induction l as [|x l IH]; intros acc Hstep Hacc; simpl; [eauto|].
  destruct (Hstep acc x) as (b & Hb & HIb); [now left|exact Hacc|].
  rewrite Hb. simpl. apply IH; [|exact HIb].
  intros b0 y Hy. apply Hstep. now right.
Qed.

Lemma assign_total (m : mg.t) (spec : icsspec.t) (tag : string) (ss : list Q) (x : string) :
  tag +:+ x ∈ mg.varmapper m ->
  length ss = length (mg.varmapper m) ->
  exists ss', assign m spec tag ss x = Ok ss' /\ length ss' = length (mg.varmapper m).
Proof.
  intros Hin Hlen. destruct (make_revvarmapper_total _ _ Hin) as (i & Hi & Hlt).
  unfold assign, getitem. rewrite Hi. simpl.
  destruct (icsmap spec !! x); rewrite setitem_lt by lia;
    eexists; (split; [reflexivity|]); now rewrite length_insert.
Qed.

Lemma override_ss_total (m : mg.t) (spec : icsspec.t) (ss : list Q) :
  (forall p, p ∈ mg.proteinlist m -> "p_" +:+ p ∈ mg.varmapper m) ->
  (forall g, g ∈ mg.genelist m -> "x_" +:+ g ∈ mg.varmapper m) ->
  length ss = length (mg.varmapper m) ->
  exists ss', override_ss m spec ss = Ok ss'.
Proof.
  intros Hp Hg Hlen. unfold override_ss. cbv zeta.
  change (exists ss', for_fold (enumerate (mg.varmapper m))
            (fun ss _ => ss0 ← for_fold (mg.proteinlist m) (assign m spec "p_") ss;
                         for_fold (mg.genelist m) (assign m spec "x_") ss0) ss = Ok ss').
  destruct (for_fold_total (fun ss => length ss = length (mg.varmapper m))
              (enumerate (mg.varmapper m))
              (fun ss _ => ss0 ← for_fold (mg.proteinlist m) (assign m spec "p_") ss;
                           for_fold (mg.genelist m) (assign m spec "x_") ss0) ss)
    as (ss' & E & _); [|exact Hlen|eauto].
  intros b _ _ Hb.
  destruct (for_fold_total (fun ss => length ss = length (mg.varmapper m))
              (mg.proteinlist m) (assign m spec "p_") b) as (b1 & E1 & H1); [|exact Hb|].
  { intros c p Hin Hc. apply assign_total; auto. }
  destruct (for_fold_total (fun ss => length ss = length (mg.varmapper m))
              (mg.genelist m) (assign m spec "x_") b1) as (b2 & E2 & H2); [|exact H1|].
  { intros c g Hin Hc. apply assign_total; auto. }
  exists b2. rewrite E1. simpl. rewrite E2. auto.
Qed.

(** C5, amended.  With an empty override table, the entry of a variable
    is [1.0] when its name contains ["x_"]; otherwise it is [20.0] when
    its name contains ["p_"] and, the ["p_"] removed, is in the protein
    list; otherwise it is [0.0].  With an override table, the variable
    ["p_" + p] of every protein [p] of the protein list and the variable
    ["x_" + g] of every gene [g] of the gene list hold the value the map
    gives to [p] or [g] when it names it, and [0.01] when it does not;
    and the vector is built whenever these variables exist. *)
Theorem initial_condition_base_vector (m : mg.t) :
  build_ss m None = Ok (default_entry m <$> mg.varmapper m) /\
  (forall spec ss, build_ss m (Some spec) = Ok ss ->
     (forall p i, p ∈ mg.proteinlist m ->
        make_revvarmapper (mg.varmapper m) !! ("p_" +:+ p) = Some i ->
        ss !! i = Some (override_entry spec p)) /\
     (forall g i, g ∈ mg.genelist m ->
        make_revvarmapper (mg.varmapper m) !! ("x_" +:+ g) = Some i ->
        ss !! i = Some (override_entry spec g))) /\
  (forall spec,
     (forall p, p ∈ mg.proteinlist m -> "p_" +:+ p ∈ mg.varmapper m) ->
     (forall g, g ∈ mg.genelist m -> "x_" +:+ g ∈ mg.varmapper m) ->
     exists ss, build_ss m (Some spec) = Ok ss).
Proof.
  split; [unfold build_ss; now rewrite default_ss_eq|]. split.
  - intros spec ss E. unfold build_ss in E. rewrite default_ss_eq in E. simpl in E.
    split.
    + intros p i Hp Hi.
      eapply (override_ss_entry m spec _ i _ Hi); [| |left; eauto|exact E].
      * intros x Hx. apply (inj (String.app "p_")) in Hx. now subst.
      * intros x Hx. symmetry in Hx. now apply tagged_names_differ in Hx.
    + intros g i Hg Hi.
      eapply (override_ss_entry m spec _ i _ Hi); [| |right; eauto|exact E].
      * intros x Hx. now apply tagged_names_differ in Hx.
      * intros x Hx. apply (inj (String.app "x_")) in Hx. now subst.
  - intros spec Hp Hg. unfold build_ss. rewrite default_ss_eq. simpl.
    apply override_ss_total; [exact Hp|exact Hg|apply length_fmap].
Qed.

(** ** Files *)

Lemma writes_nothing {A} (ok : string -> Prop) (m : M A) :
  (forall w o w', m w = (o, w') -> files w' = files w) -> writes_only ok m.
Proof. intros H w o w' E. exists []. split; [exact (H _ _ _ E)|constructor]. Qed.

Lemma writes_only_ret {A} ok (a : A) : writes_only ok (mret a).
Proof. apply writes_nothing. intros w o w' E. now inversion E. Qed.

Lemma writes_only_raise {A} ok (e : exn) : writes_only ok (@raise A e).
Proof. apply writes_nothing. intros w o w' E. now inversion E. Qed.

Lemma writes_only_lift {A} ok (o : outcome A) : writes_only ok (lift o).
Proof. apply writes_nothing. intros w o' w' E. now inversion E. Qed.

Lemma writes_only_with_rng {A} ok (f : RNG -> outcome A * RNG) : writes_only ok (with_rng f).
Proof.
  apply writes_nothing. intros w o w' E. unfold with_rng in E.
  destruct (f (rng w)). now inversion E.
Qed.

Lemma writes_only_to_csv ok df path : ok path -> writes_only ok (to_csv df path).
Proof.
  intros Hok w o w' E. inversion E; subst. exists [(path, df)].
  split; [reflexivity|]. repeat constructor. exact Hok.
Qed.

Lemma writes_only_read_csv ok path : writes_only ok (read_csv path).
Proof.
  apply writes_nothing. intros w o w' E. unfold read_csv in E.
  destruct (List.find _ _); now inversion E.
Qed.

Lemma writes_only_randint ok low high : writes_only ok (np_random_randint low high).
Proof.
  apply writes_nothing. intros w o w' E. unfold np_random_randint in E.
  destruct (low <? high)%Z; [|destruct (low =? 0)%Z]; now inversion E.
Qed.

Lemma writes_only_bind {A B} ok (m : M A) (f : A -> M B) :
  writes_only ok m ->
  (forall w a w1, m w = (Ok a, w1) -> writes_only ok (f a)) ->
  writes_only ok (m ≫= f).
Proof.
  intros Hm Hf w o w' E. unfold mbind, M_bind in E.
  destruct (m w) as [[a|e|] w1] eqn:Em.
  - destruct (Hm _ _ _ Em) as (pre1 & E1 & F1).
    destruct (Hf _ _ _ Em _ _ _ E) as (pre2 & E2 & F2).
    exists (pre2 ++ pre1). rewrite E2, E1, app_assoc. split; [reflexivity|].
    rewrite fmap_app. now apply Forall_app.
  - inversion E; subst. exact (Hm _ _ _ Em).
  - inversion E; subst. exact (Hm _ _ _ Em).
Qed.

Lemma writes_only_in_worker {A} ok (m : M A) : writes_only ok m -> writes_only ok (in_worker m).
Proof.
  intros Hm w o w' E. unfold in_worker in E. destruct (m w) as [o1 w1] eqn:Em.
  inversion E; subst. exact (Hm _ _ _ Em).
Qed.

Lemma writes_only_mono {A} (ok ok' : string -> Prop) (m : M A) :
  (forall p, ok p -> ok' p) -> writes_only ok m -> writes_only ok' m.
Proof.
  intros Himp Hm w o w' E. destruct (Hm _ _ _ E) as (pre & E1 & F).
  exists pre. split; [exact E1|]. eapply Forall_impl; eauto.
Qed.

Lemma writes_only_for_each {A} ok (l : list A) (body : A -> M unit) :
  (forall x, x ∈ l -> writes_only ok (body x)) -> writes_only ok (for_each l body).
Proof.
  induction l as [|x l IH]; intros H; simpl; [apply writes_only_ret|].
  apply writes_only_bind; [apply H; now left|].
  intros _ _ _ _. apply IH. intros y Hy. apply H. now right.
Qed.

Lemma writes_only_mapM {A B} ok (f : A -> M B) (l : list A) :
  (forall x, writes_only ok (f x)) -> writes_only ok (mapM f l).
Proof.
  intros H. induction l as [|x l IH]; cbn; [apply writes_only_ret|].
  apply writes_only_bind; [apply H|]. intros _ y _ _.
  apply writes_only_bind; [apply IH|]. intros _ ys _ _. apply writes_only_ret.
Qed.

Lemma writes_only_choice ok (a : list nat) (size : nat) :
  writes_only ok (np_random_choice a size).
Proof.
  apply writes_nothing. induction size as [|size IH]; intros w o w' E; simpl in E.
  - now inversion E.
  - destruct a as [|x a']; [now inversion E|].
    unfold mbind, M_bind in E.
    destruct (np_random_choice (x :: a') size _) as [[c| |] w1] eqn:Ec;
      apply IH in Ec; inversion E; subst; exact Ec.
Qed.

Lemma written_extend_r (w w1 w2 : World) (path : string) :
  written w w1 path -> (exists pre, files w2 = pre ++ files w1) -> written w w2 path.
Proof.
  intros (pre1 & E1 & Hin) (pre2 & E2). exists (pre2 ++ pre1).
  rewrite E2, E1, app_assoc. split; [reflexivity|]. rewrite fmap_app.
  apply elem_of_app. now right.
Qed.

Lemma written_extend_l (w w1 w2 : World) (path : string) :
  (exists pre, files w1 = pre ++ files w) -> written w1 w2 path -> written w w2 path.
Proof.
  intros (pre1 & E1) (pre2 & E2 & Hin). exists (pre2 ++ pre1).
  rewrite E2, E1, app_assoc. split; [reflexivity|]. rewrite fmap_app.
  apply elem_of_app. now left.
Qed.

Lemma writes_only_extends {A} ok (m : M A) w o w' :
  writes_only ok m -> m w = (o, w') -> exists pre, files w' = pre ++ files w.
Proof. intros Hm E. destruct (Hm _ _ _ E) as (pre & E1 & _). eauto. Qed.

Lemma writes_only_not_written {A} ok (m : M A) w o w' path :
  writes_only ok m -> m w = (o, w') -> ~ ok path -> ~ written w w' path.
Proof.
  intros Hm E Hnot (pre' & E' & Hin). destruct (Hm _ _ _ E) as (pre & E1 & F).
  rewrite E1 in E'. apply app_inv_tail in E'. subst pre'.
  rewrite Forall_forall in F. apply Hnot, F, Hin.
Qed.

(** ** Paths *)

Lemma string_app_cons (x : ascii) (a b : string) : String x a +:+ b = String x (a +:+ b).
Proof. reflexivity. Qed.

Lemma string_app_nil (b : string) : "" +:+ b = b.
Proof. reflexivity. Qed.

Lemma string_app_assoc (a b c : string) : (a +:+ b) +:+ c = a +:+ (b +:+ c).
Proof.
  induction a as [|x a IH]; [reflexivity|].
  rewrite !string_app_cons. f_equal. exact IH.
Qed.

(** Brings the literal prefixes of a concatenation to the front. *)
Ltac string_head := rewrite ?string_app_cons, ?string_app_nil; simpl String.prefix.

Lemma os_path_join_simulations (out : string) :
  os_path_join out "simulations" = out +:+ "simulations" \/
  os_path_join out "simulations" = out +:+ "/simulations".
Proof.
  unfold os_path_join. simpl String.prefix. cbv iota.
  destruct ((String.length out =? 0)%nat || ends_with_sep out); [now left|now right].
Qed.

Lemma cell_csv_cases (out : string) (cellid : nat) :
  exists x, cell_csv out cellid = out +:+ x /\
            (String.prefix "simulations" x = true \/ String.prefix "/simulations" x = true).
Proof.
  unfold cell_csv.
  set (f := "E" +:+ str cellid +:+ ".csv").
  assert (Hj : forall d, os_path_join d f = d +:+ f \/ os_path_join d f = d +:+ "/" +:+ f).
  { intros d. unfold os_path_join. subst f. string_head. cbv iota.
    destruct ((String.length d =? 0)%nat || ends_with_sep d); [now left|now right]. }
  destruct (os_path_join_simulations out) as [-> | ->];
    destruct (Hj (out +:+ "simulations")) as [-> | ->] ||
    destruct (Hj (out +:+ "/simulations")) as [-> | ->];
    rewrite string_app_assoc; eexists; (split; [reflexivity|]); string_head; auto.
Qed.

Lemma sample_csv_cases (out : string) (cellid : nat) :
  exists x, sample_csv out cellid = out +:+ x /\
            (String.prefix "simulations" x = true \/ String.prefix "/simulations" x = true).
Proof.
  unfold sample_csv.
  destruct (os_path_join_simulations out) as [-> | ->];
    rewrite string_app_assoc; eexists; (split; [reflexivity|]); string_head; auto.
Qed.

Lemma cell_csv_not_cluster (out : string) (cellid : nat) :
  cell_csv out cellid <> cluster_csv out.
Proof.
  destruct (cell_csv_cases out cellid) as (x & -> & Hx). unfold cluster_csv. intros E.
  apply (inj (String.app out)) in E. subst x. simpl in Hx. destruct Hx; discriminate.
Qed.

Lemma sample_csv_not_cluster (out : string) (cellid : nat) :
  sample_csv out cellid <> cluster_csv out.
Proof.
  destruct (sample_csv_cases out cellid) as (x & -> & Hx). unfold cluster_csv. intros E.
  apply (inj (String.app out)) in E. subst x. simpl in Hx. destruct Hx; discriminate.
Qed.

(** ** The files of a cell *)

Section CellFiles.
Context {ModelFn : Type} `{!Simulator ModelFn} `{!Utils}.

Lemma writes_only_attempt ok (a : argdict.t ModelFn) pars seed :
  writes_only ok (attempt a pars seed).
Proof.
  unfold attempt.
  apply writes_only_bind; [apply writes_only_with_rng|]. intros _ y0 _ _.
  apply writes_only_bind; [apply writes_only_with_rng|]. intros _ P _ _.
  apply writes_only_bind; [apply writes_only_lift|]. intros _ mx _ _.
  apply writes_only_ret.
Qed.

Lemma writes_only_retry_loop ok fuel (a : argdict.t ModelFn) pars seed tries :
  writes_only ok (retry_loop fuel a pars seed tries).
Proof.
  revert seed tries. induction fuel as [|fuel IH]; intros seed tries; simpl.
  - apply writes_nothing. intros w o w' E. now inversion E.
  - apply writes_only_bind; [apply writes_only_attempt|].
    intros _ [[seed' P] retry] _ _. destruct retry; [apply IH|apply writes_only_ret].
Qed.

Lemma writes_only_single_timepoint (a : argdict.t ModelFn) P :
  writes_only (fun p => p = sample_csv (argdict.outPrefix a) (argdict.cellid a))
    (single_timepoint a (os_path_join (argdict.outPrefix a) "simulations") P).
Proof.
  unfold single_timepoint.
  apply writes_only_bind; [apply writes_only_lift|]. intros _ sub _ _.
  apply writes_only_bind; [apply writes_only_lift|]. intros _ subset _ _.
  apply writes_only_bind; [apply writes_only_lift|]. intros _ df _ _.
  apply writes_only_bind; [|intros; apply writes_only_ret].
  unfold write_sample.
  destruct (argdict.sampleCells a); [|apply writes_only_ret].
  apply writes_only_bind.
  { destruct (argdict.header a); [apply writes_only_ret|apply writes_only_raise]. }
  intros _ header _ _.
  apply writes_only_bind; [apply writes_only_with_rng|]. intros _ sampledf _ _.
  apply writes_only_to_csv. reflexivity.
Qed.

Lemma writes_only_snapshots ok (a : argdict.t ModelFn) P : writes_only ok (snapshots a P).
Proof.
  unfold snapshots.
  apply writes_only_bind; [apply writes_only_mapM; intros; apply writes_only_randint|].
  intros _ idx _ _.
  apply writes_only_bind; [apply writes_only_lift|]. intros _ sub _ _.
  apply writes_only_bind; [apply writes_only_lift|]. intros _ subset _ _.
  apply writes_only_lift.
Qed.

Lemma writes_only_simulateAndSample fuel (a : argdict.t ModelFn) :
  writes_only (cell_file (argdict.outPrefix a) (argdict.cellid a)) (simulateAndSample fuel a).
Proof.
  unfold simulateAndSample.
  apply writes_only_bind.
  { destruct (argdict.sampleCells a); [|apply writes_only_ret].
    destruct (argdict.header a); [apply writes_only_ret|apply writes_only_raise]. }
  intros _ _ _ _.
  apply writes_only_bind; [apply writes_only_lift|]. intros _ pars _ _.
  apply writes_only_bind; [apply writes_only_retry_loop|]. intros _ [P tries] _ _.
  apply writes_only_bind.
  - destruct (argdict.n_snapshots a =? 0)%nat.
    + eapply writes_only_mono; [|apply writes_only_single_timepoint].
      intros p ->. now right.
    + apply writes_only_snapshots.
  - intros _ df _ _. apply writes_only_to_csv. now left.
Qed.

Lemma simulateAndSample_written fuel (a : argdict.t ModelFn) w w' :
  simulateAndSample fuel a w = (Ok tt, w') ->
  written w w' (cell_csv (argdict.outPrefix a) (argdict.cellid a)).
Proof.
  intros E. pose proof E as E0. unfold simulateAndSample in E.
  apply M_bind_Ok in E as ([] & w0 & Hh & E).
  apply M_bind_Ok in E as (pars & w1 & Hp & E).
  apply M_bind_Ok in E as ([P tries] & w2 & Hloop & E).
  apply M_bind_Ok in E as (df & w3 & Hdf & E).
  rewrite to_csv_eq in E.
  destruct (writes_only_simulateAndSample fuel a _ _ _ E0) as (pre & Epre & _).
  exists pre. split; [exact Epre|].
  inversion E; subst w'; clear E. simpl in Epre.
  destruct pre as [|[p d] pre].
  - exfalso. simpl in Epre.
    assert (Hlen : (length (files w) <= length (files w3))%nat).
    { assert (Hext : exists q, files w3 = q ++ files w).
      { clear Epre E0.
        assert (H0 : files w0 = files w).
        { destruct (argdict.sampleCells a); [destruct (argdict.header a)|];
            now inversion Hh. }
        apply lift_Ok in Hp as [_ ->].
        destruct (writes_only_retry_loop (fun _ => True) _ _ _ _ _ _ _ _ Hloop)
          as (q1 & E1 & _).
        assert (H3 : exists q, files w3 = q ++ files w2).
        { destruct (argdict.n_snapshots a =? 0)%nat.
          - destruct (writes_only_single_timepoint _ _ _ _ _ Hdf) as (q & Eq & _). eauto.
          - destruct (writes_only_snapshots (fun _ => True) _ _ _ _ _ Hdf) as (q & Eq & _).
            eauto. }
        destruct H3 as (q3 & E3). exists (q3 ++ q1).
        rewrite E3, E1, H0, app_assoc. reflexivity. }
      destruct Hext as (q & ->). rewrite length_app. lia. }
    apply (f_equal length) in Epre. simpl in Epre. lia.
  - simpl in Epre. inversion Epre; subst. simpl. now left.
Qed.
End CellFiles.

(** ** The orchestrator *)

Lemma outcome_mapM_total {A B} (f : A -> outcome B) (l : list A) :
  Forall (fun x => exists y, f x = Ok y) l -> exists r, mapM f l = Ok r.
Proof.
  induction 1 as [|x l (y & Hy) _ (r & Hr)]; [exists []; reflexivity|].
  exists (y :: r). cbn. rewrite Hy. cbn. rewrite Hr. reflexivity.
Qed.

Lemma insert_sorted_elem {A} (le : A -> A -> bool) (x y : A) (l : list A) :
  y ∈ insert_sorted le x l -> y = x \/ y ∈ l.
Proof.
  induction l as [|z l IH]; simpl.
  - intros H. apply list_elem_of_singleton in H. now left.
  - destruct (le x z).
    + intros H. apply elem_of_cons in H as [->|H]; [now left|now right].
    + intros H. apply elem_of_cons in H as [->|H]; [right; now left|].
      destruct (IH H) as [->|H']; [now left|right; now right].
Qed.

Lemma sort_by_elem {A} (le : A -> A -> bool) (y : A) (l : list A) :
  y ∈ sort_by le l -> y ∈ l.
Proof.
  unfold sort_by. induction l as [|x l IH]; simpl; [trivial|].
  intros H. apply insert_sorted_elem in H as [->|H]; [now left|right; now apply IH].
Qed.

(** The parameter values are always found: the names are the keys. *)
Lemma pars_lookup_total (d : gmap string Q) :
  exists pars, mapM (getitem d) (sorted (map_to_list d).*1) = Ok pars.
Proof.
  apply outcome_mapM_total, Forall_forall. intros k Hk.
  apply sort_by_elem, list_elem_of_fmap in Hk as ([k' v] & -> & Hk).
  apply elem_of_map_to_list in Hk. exists v. unfold getitem. simpl. now rewrite Hk.
Qed.

Section OrchestratorFacts.
Context {ModelFn : Type} `{!Simulator ModelFn} `{!Utils} `{!Sklearn}.

Lemma prepare_Ok m (Model : ModelFn) tspan s icsDF writeProtein w argdict gd w1 :
  prepare m Model tspan s icsDF writeProtein w = (Ok (argdict, gd), w1) ->
  files w1 = files w /\
  mg.proteinlist m = [] /\
  (forall c, argdict.outPrefix (argdict c) = settings.outprefix s /\
             argdict.cellid (argdict c) = c) /\
  gd = (if settings.sample_cells s then None else Some []).
Proof.
  unfold prepare. intros E.
  apply M_bind_Ok in E as (pars & w0 & Hp & E). apply lift_Ok in Hp as [_ ->].
  apply M_bind_Ok in E as (y0 & w0 & Hy & E). apply lift_Ok in Hy as [_ ->].
  apply M_bind_Ok in E as (ss & w0 & Hs & E). apply lift_Ok in Hs as [_ ->].
  apply M_bind_Ok in E as ([] & w0 & Hpl & E).
  destruct (length (mg.proteinlist m) =? 0)%nat eqn:El; [|discriminate Hpl].
  inversion Hpl; subst w0; clear Hpl.
  apply Nat.eqb_eq, length_zero_iff_nil in El.
  apply M_bind_Ok in E as ([header gd0] & w0 & Hh & E).
  inversion E; subst; clear E.
  split; [|split; [exact El|split; [intros c; split; reflexivity|]]].
  - destruct (settings.sample_cells s).
    + apply M_bind_Ok in Hh as (sampleAt & w2 & Hc & Hh). inversion Hh; subst.
      destruct (writes_only_choice (fun _ => False) _ _ _ _ _ Hc) as (pre & Epre & F).
      destruct pre as [|x pre]; [exact Epre|]. inversion F; contradiction.
    + now inversion Hh.
  - destruct (settings.sample_cells s).
    + apply M_bind_Ok in Hh as (sampleAt & w2 & Hc & Hh). now inversion Hh.
    + now inversion Hh.
Qed.

Lemma writes_only_prepare ok m (Model : ModelFn) tspan s icsDF writeProtein :
  writes_only ok (prepare m Model tspan s icsDF writeProtein).
Proof.
  unfold prepare.
  apply writes_only_bind; [apply writes_only_lift|]. intros _ pars _ _.
  apply writes_only_bind; [apply writes_only_lift|]. intros _ y0 _ _.
  apply writes_only_bind; [apply writes_only_lift|]. intros _ ss _ _.
  apply writes_only_bind.
  { destruct (_ =? _)%nat; [apply writes_only_ret|apply writes_only_raise]. }
  intros _ _ _ _.
  apply writes_only_bind; [|intros _ [header gd] _ _; apply writes_only_ret].
  destruct (settings.sample_cells s); [|apply writes_only_ret].
  apply writes_only_bind; [apply writes_only_choice|]. intros; apply writes_only_ret.
Qed.

Lemma writes_only_dispatch fuel s (argdict : nat -> argdict.t ModelFn) out :
  (forall c, argdict.outPrefix (argdict c) = out /\ argdict.cellid (argdict c) = c) ->
  writes_only (fun p => exists c, cell_file out c p) (dispatch fuel s argdict).
Proof.
  intros Harg. unfold dispatch. apply writes_only_for_each. intros c _.
  assert (Hjob : writes_only (fun p => exists c, cell_file out c p)
                   (simulateAndSample fuel (argdict c))).
  { eapply writes_only_mono; [|apply writes_only_simulateAndSample].
    intros p Hp. destruct (Harg c) as [Ho Hc]. rewrite Ho, Hc in Hp. eauto. }
  destruct (settings.doParallel s); [apply writes_only_in_worker|]; exact Hjob.
Qed.

Lemma writes_only_aggregate ok outPrefix n cells st :
  writes_only ok (aggregate outPrefix n cells st).
Proof.
  revert st. induction cells as [|c cells IH]; intros st; simpl; [apply writes_only_ret|].
  apply writes_only_bind; [|intros; apply IH].
  unfold aggregate_cell. destruct st as [gd frames].
  apply writes_only_bind; [apply writes_only_read_csv|]. intros _ df _ _.
  apply writes_only_bind; [|intros; apply writes_only_ret].
  destruct (n =? 0)%nat; [|apply writes_only_ret].
  apply writes_only_bind; [|intros; apply writes_only_ret].
  destruct gd; [apply writes_only_ret|apply writes_only_raise].
Qed.

Lemma writes_only_cluster out k gd :
  writes_only (fun p => p = cluster_csv out) (cluster out k gd).
Proof.
  unfold cluster.
  apply writes_only_bind.
  { destruct gd; [apply writes_only_ret|apply writes_only_raise]. }
  intros _ d _ _.
  apply writes_only_bind; [apply writes_only_lift|]. intros _ groupedDF _ _.
  apply writes_only_bind; [apply writes_only_with_rng|]. intros _ labels _ _.
  apply writes_only_bind; [apply writes_only_lift|]. intros _ clusterDF _ _.
  apply writes_only_to_csv. reflexivity.
Qed.

Lemma cluster_Ok out k gd w w' :
  cluster out k gd w = (Ok tt, w') -> written w w' (cluster_csv out).
Proof.
  unfold cluster. intros E.
  apply M_bind_Ok in E as (d & w1 & Hd & E).
  assert (w1 = w) as -> by (destruct gd; now inversion Hd).
  apply M_bind_Ok in E as (g & w1 & Hg & E). apply lift_Ok in Hg as [_ ->].
  apply M_bind_Ok in E as (labels & w1 & Hk & E).
  apply M_bind_Ok in E as (cdf & w2 & Hc & E). apply lift_Ok in Hc as [_ ->].
  rewrite to_csv_eq in E. inversion E; subst w'.
  exists [(cluster_csv out, cdf)]. simpl. split; [|now left].
  destruct (writes_only_with_rng (fun _ => False) _ _ _ _ Hk) as (pre & -> & F).
  destruct pre; [reflexivity|inversion F; contradiction].
Qed.

Lemma writes_only_collect s gd :
  writes_only (fun p => clustering_requested s = true /\ p = cluster_csv (settings.outprefix s))
    (collect s gd).
Proof.
  unfold collect.
  apply writes_only_bind; [apply writes_only_aggregate|]. intros _ [gd' frames] _ _.
  apply writes_only_bind; [apply writes_only_lift|]. intros _ result _ _.
  apply writes_only_bind; [|intros; apply writes_only_ret].
  fold (clustering_requested s).
  destruct (clustering_requested s); [|apply writes_only_ret].
  eapply writes_only_mono; [|apply writes_only_cluster]. auto.
Qed.

Lemma writes_only_Experiment fuel m (Model : ModelFn) tspan s icsDF wp nt :
  writes_only (fun p => (exists c, cell_file (settings.outprefix s) c p) \/
                        (clustering_requested s = true /\ p = cluster_csv (settings.outprefix s)))
    (Experiment fuel m Model tspan s icsDF wp nt).
Proof.
  unfold Experiment.
  apply writes_only_bind; [apply writes_only_prepare|].
  intros w [argdict gd] w1 Hprep. apply prepare_Ok in Hprep as (_ & _ & Harg & _).
  apply writes_only_bind.
  - eapply writes_only_mono; [|apply writes_only_dispatch, Harg]. auto.
  - intros _ _ _ _. eapply writes_only_mono; [|apply writes_only_collect]. auto.
Qed.

(** C6, amended. A run of [Experiment] writes [ClusterIds.csv] only if
    [nClusters > 1] and [n_snapshots == 0], whatever its outcome; and a
    run that returns writes it whenever [nClusters > 1] and
    [n_snapshots == 0].  In particular [nClusters = 1] or
    [n_snapshots > 0] never produce the file. *)
Theorem ClusterIds_written_iff fuel m (Model : ModelFn) tspan s icsDF wp nt w o w' :
  Experiment fuel m Model tspan s icsDF wp nt w = (o, w') ->
  (written w w' (cluster_csv (settings.outprefix s)) ->
   (1 < settings.nClusters s)%nat /\ default O (settings.n_snapshots s) = O) /\
  (forall result, o = Ok result ->
     (1 < settings.nClusters s)%nat -> default O (settings.n_snapshots s) = O ->
     written w w' (cluster_csv (settings.outprefix s))).
Proof.
  intros E. split.
  - intros Hw. destruct (clustering_requested s) eqn:Eg.
    + unfold clustering_requested in Eg. apply andb_true_iff in Eg as [E1 E2].
      apply Nat.ltb_lt in E1. apply Nat.eqb_eq in E2. auto.
    + exfalso. revert Hw. eapply writes_only_not_written;
        [apply writes_only_Experiment|exact E|].
      intros [(c & [Hc|Hc])|[Hg _]]; [| |congruence].
      * symmetry in Hc. now apply cell_csv_not_cluster in Hc.
      * symmetry in Hc. now apply sample_csv_not_cluster in Hc.
  - intros result -> Hk Hn. unfold Experiment in E.
    apply M_bind_Ok in E as ([argdict gd] & w1 & Hprep & E).
    apply M_bind_Ok in E as ([] & w2 & Hdisp & E).
    unfold collect in E.
    apply M_bind_Ok in E as ([gd' frames] & w3 & Hagg & E).
    apply M_bind_Ok in E as (res & w4 & Hcat & E). apply lift_Ok in Hcat as [_ ->].
    apply M_bind_Ok in E as ([] & w5 & Hcl & E). inversion E; subst w5; clear E.
    rewrite Hn in Hcl. apply Nat.ltb_lt in Hk. rewrite Hk in Hcl. simpl in Hcl.
    apply cluster_Ok in Hcl.
    eapply written_extend_l; [|exact Hcl].
    pose proof (writes_only_extends _ _ _ _ _ (writes_only_prepare (fun _ => True) _ _ _ _ _ _) Hprep)
      as (q1 & E1).
    pose proof (prepare_Ok _ _ _ _ _ _ _ _ _ _ Hprep) as (_ & _ & Harg & _).
    pose proof (writes_only_extends _ _ _ _ _ (writes_only_dispatch _ _ _ _ Harg) Hdisp)
      as (q2 & E2).
    pose proof (writes_only_extends _ _ _ _ _ (writes_only_aggregate (fun _ => True) _ _ _ _) Hagg)
      as (q3 & E3).
    exists (q3 ++ q2 ++ q1). rewrite E3, E2, E1, !app_assoc. reflexivity.
Qed.
End OrchestratorFacts.

Lemma for_each_written {A} (l : list A) (body : A -> M unit) (path : A -> string) w w' :
  for_each l body w = (Ok tt, w') ->
  (forall x, writes_only (fun _ => True) (body x)) ->
  (forall x wa wb, body x wa = (Ok tt, wb) -> written wa wb (path x)) ->
  forall x, x ∈ l -> written w w' (path x).
Proof.
  intros E Hext Hbody. revert w E. induction l as [|y l IH]; intros w E x Hx; [inversion Hx|].
  simpl in E. apply M_bind_Ok in E as ([] & w1 & Hy & E).
  apply elem_of_cons in Hx as [->|Hx].
  - eapply written_extend_r; [eapply Hbody, Hy|].
    eapply writes_only_extends; [|exact E]. apply writes_only_for_each. intros; apply Hext.
  - eapply written_extend_l; [|eapply IH; eauto].
    eapply writes_only_extends; [apply Hext|exact Hy].
Qed.

Lemma read_csv_world path w o w' : read_csv path w = (o, w') -> w' = w.
Proof. unfold read_csv. destruct (List.find _ _); intros E; now inversion E. Qed.

(** The bare name [proteinlist] is bound neither in [Experiment] nor in
    the module. *)
Lemma proteinlist_not_bound :
  str_in "proteinlist" Experiment_scope || str_in "proteinlist" module_scope = false.
Proof. reflexivity. Qed.

Section Crashes.
Context {ModelFn : Type} `{!Simulator ModelFn} `{!Utils} `{!Sklearn}.

Lemma dispatch_written fuel s (argdict : nat -> argdict.t ModelFn) out w w' :
  (forall c, argdict.outPrefix (argdict c) = out /\ argdict.cellid (argdict c) = c) ->
  dispatch fuel s argdict w = (Ok tt, w') ->
  forall c, (c < settings.num_cells s)%nat -> written w w' (cell_csv out c).
Proof.
  intros Harg E c Hc. unfold dispatch in E.
  eapply (for_each_written _ _ (cell_csv out)); [exact E| | |apply elem_of_seq; lia].
  - intros x. eapply writes_only_mono; [intros; exact I|].
    destruct (settings.doParallel s); [apply writes_only_in_worker|];
      apply writes_only_simulateAndSample.
  - intros x wa wb Hx. destruct (Harg x) as [Ho Hi].
    replace (cell_csv out x)
      with (cell_csv (argdict.outPrefix (argdict x)) (argdict.cellid (argdict x)))
      by (now rewrite Ho, Hi).
    destruct (settings.doParallel s); [|now apply simulateAndSample_written in Hx].
    unfold in_worker in Hx.
    destruct (simulateAndSample fuel (argdict x) wa) as [o1 w1] eqn:Es.
    inversion Hx; subst o1 wb; clear Hx. apply simulateAndSample_written in Es.
    exact Es.
Qed.

(** C7. For a model whose protein list is not empty (the variables
    having their initial conditions, so that the lines before are
    passed), [Experiment] raises the [NameError] of the unbound name
    [proteinlist] and leaves the world as it found it: no random draw,
    no file, no cell simulated. *)
Theorem proteinlist_NameError fuel m (Model : ModelFn) tspan s icsDF wp nt w y0 ss :
  mg.proteinlist m <> [] ->
  mapM (getitem (ModelSpec.ics (mg.ModelSpec m))) (mg.varmapper m) = Ok y0 ->
  build_ss m icsDF = Ok ss ->
  Experiment fuel m Model tspan s icsDF wp nt w = (Raise (NameError "proteinlist"), w) /\
  is_NameError (NameError "proteinlist") = true.
Proof.
  intros Hpl Hy0 Hss. split; [|reflexivity].
  destruct (pars_lookup_total (ModelSpec.pars (mg.ModelSpec m))) as (pars & Hpars).
  unfold Experiment, prepare.
  rewrite Hpars, Hy0, Hss. cbn [mbind M_bind lift].
  destruct (length (mg.proteinlist m) =? 0)%nat eqn:El; [|reflexivity].
  apply Nat.eqb_eq, length_zero_iff_nil in El. contradiction.
Qed.

(** C8. With [sample_cells] and [n_snapshots == 0], a run that reaches
    the aggregation with a cell to read back raises, at that cell, the
    [UnboundLocalError] (a [NameError]) of [groupedDict]; by then every
    cell has written its file. *)
Theorem groupedDict_NameError fuel m (Model : ModelFn) tspan s icsDF wp nt
    w argdict gd w1 w2 df w3 :
  settings.sample_cells s = true ->
  default O (settings.n_snapshots s) = O ->
  (1 <= settings.num_cells s)%nat ->
  prepare m Model tspan s icsDF wp w = (Ok (argdict, gd), w1) ->
  dispatch fuel s argdict w1 = (Ok tt, w2) ->
  read_csv (settings.outprefix s +:+ "/simulations/E" +:+ str 0 +:+ ".csv") w2 = (Ok df, w3) ->
  Experiment fuel m Model tspan s icsDF wp nt w = (Raise (UnboundLocalError "groupedDict"), w2) /\
  is_NameError (UnboundLocalError "groupedDict") = true /\
  forall c, (c < settings.num_cells s)%nat -> written w w2 (cell_csv (settings.outprefix s) c).
Proof.
  intros Hsc Hn Hcells Hprep Hdisp Hread.
  pose proof (prepare_Ok _ _ _ _ _ _ _ _ _ _ Hprep) as (Hfiles & _ & Harg & Hgd).
  rewrite Hsc in Hgd. subst gd.
  pose proof (read_csv_world _ _ _ _ Hread) as ->.
  split; [|split; [reflexivity|]].
  - unfold Experiment. rewrite (M_bind_eq_Ok _ _ _ _ _ Hprep).
    cbn beta iota. rewrite (M_bind_eq_Ok _ _ _ _ _ Hdisp).
    unfold collect. rewrite Hn.
    destruct (settings.num_cells s) as [|n]; [lia|].
    apply M_bind_eq_Raise. cbn [seq aggregate].
    apply M_bind_eq_Raise. unfold aggregate_cell.
    rewrite (M_bind_eq_Ok _ _ _ _ _ Hread). reflexivity.
  - intros c Hc. eapply written_extend_l; [exists []; exact Hfiles|].
    eapply dispatch_written; eauto.
Qed.
End Crashes.

(** ** The path of the sampled observation *)

Lemma rev_app_app (a b acc : string) :
  String.rev_app (a +:+ b) acc = String.rev_app b (String.rev_app a acc).
Proof.
  revert acc. induction a as [|x a IH]; intros acc; [reflexivity|].
  rewrite string_app_cons. simpl. apply IH.
Qed.

Lemma simulations_dir_no_trailing_sep (out : string) :
  ((String.length (os_path_join out "simulations") =? 0)%nat
   || ends_with_sep (os_path_join out "simulations")) = false.
Proof.
  assert (H : forall x, ((String.length (out +:+ x +:+ "simulations") =? 0)%nat
                         || ends_with_sep (out +:+ x +:+ "simulations")) = false).
  { intros x. apply orb_false_iff. split.
    - destruct out, x; reflexivity.
    - unfold ends_with_sep, String.rev. rewrite !rev_app_app. reflexivity. }
  destruct (os_path_join_simulations out) as [-> | ->].
  - apply (H "").
  - apply (H "/").
Qed.

(** For every output prefix and every cell, the sampled observation is
    written beside the simulations directory, not inside it. *)
Lemma sample_csv_outside_simulations (out : string) (cellid : nat) :
  documented_sample_csv out cellid
  = os_path_join out "simulations" +:+ "/" +:+ "E" +:+ str cellid +:+ "-cell.csv" /\
  sample_csv out cellid <> documented_sample_csv out cellid.
Proof.
  assert (E : documented_sample_csv out cellid
              = os_path_join out "simulations" +:+ "/" +:+ "E" +:+ str cellid +:+ "-cell.csv").
  { unfold documented_sample_csv. unfold os_path_join at 1. string_head. cbv iota.
    now rewrite simulations_dir_no_trailing_sep. }
  split; [exact E|]. rewrite E. unfold sample_csv. intros H.
  apply (inj (String.app _)) in H. discriminate H.
Qed.

(** ** Failures of a cell *)

(** A bind yields what its continuation yields, or the failure of its
    first part. *)
Lemma M_bind_cases {A B} (f : A -> M B) (m : M A) (w w' : World) (o : outcome B) :
  (m ≫= f) w = (o, w') ->
  (exists a w1, m w = (Ok a, w1) /\ f a w1 = (o, w')) \/
  ((exists e, m w = (Raise e, w') /\ o = Raise e) \/ (m w = (OutOfFuel, w') /\ o = OutOfFuel)).
Proof.
  unfold mbind, M_bind. destruct (m w) as [[a|e|] w1]; intros E.
  - left. eauto.
  - right. left. inversion E; subst. eauto.
  - right. right. inversion E; subst. eauto.
Qed.

Lemma M_bind_eq_OutOfFuel {A B} (f : A -> M B) (m : M A) (w w1 : World) :
  m w = (OutOfFuel, w1) -> (m ≫= f) w = (OutOfFuel, w1).
Proof. unfold mbind, M_bind. intros ->. reflexivity. Qed.

Lemma increasing_gap (b : nat -> Z) (n : nat) :
  (forall i, (i < n)%nat -> (b i < b (S i))%Z) -> (b 0%nat + Z.of_nat n <= b n)%Z.
Proof.
  induction n as [|n IH]; intros H; [lia|].
  specialize (IH ltac:(intros i Hi; apply H; lia)). specialize (H n ltac:(lia)). lia.
Qed.

Lemma empty_window_exists (b : nat -> Z) (n : nat) :
  (b n < b 0%nat + Z.of_nat n)%Z -> exists i, (i < n)%nat /\ (b (S i) <= b i)%Z.
Proof.
  induction n as [|n IH]; intros H; [lia|].
  destruct (Z_lt_le_dec (b n) (b (S n))) as [Hlt|Hge].
  - destruct IH as (i & Hi & Hb); [lia|]. exists i. split; [lia|exact Hb].
  - exists n. split; [lia|exact Hge].
Qed.

Lemma draws_fail (b : nat -> Z) (start len : nat) (w : World) :
  (exists i, (start <= i < start + len)%nat /\ (b (i + 1)%nat <= b i)%Z) ->
  exists j w',
    (start <= j < start + len)%nat /\ (b (j + 1)%nat <= b j)%Z /\
    (forall i, (start <= i < j)%nat -> (b i < b (i + 1)%nat)%Z) /\
    mapM (fun i => np_random_randint (b i) (b (i + 1)%nat)) (seq start len) w
    = (Raise (ValueError (if (b j =? 0)%Z then "high <= 0" else "low >= high")), w') /\
    files w' = files w.
Proof.
  revert start w. induction len as [|len IH]; intros start w (i & Hi & Hb); [lia|].
  cbn [seq mapM].
  destruct (Z_lt_le_dec (b start) (b (start + 1)%nat)) as [Hlt|Hge].
  - destruct (np_random_randint_total _ _ w Hlt) as (t & w1 & Ht).
    pose proof (np_random_randint_Ok _ _ _ _ _ Ht) as [_ Hf].
    destruct (IH (S start) w1) as (j & w2 & Hj & Hbj & Hfirst & E & Hf2).
    { exists i. split; [|exact Hb]. destruct (decide (i = start)) as [->|]; lia. }
    exists j, w2. split; [lia|]. split; [exact Hbj|]. split.
    { intros k Hk. destruct (decide (k = start)) as [->|]; [exact Hlt|apply Hfirst; lia]. }
    rewrite (M_bind_eq_Ok _ _ _ _ _ Ht), (M_bind_eq_Raise _ _ _ _ _ E).
    split; [reflexivity|congruence].
  - exists start, w. split; [lia|]. split; [exact Hge|]. split; [intros k Hk; lia|].
    split; [|reflexivity].
    apply M_bind_eq_Raise.
    unfold np_random_randint. apply Z.ltb_ge in Hge. rewrite Hge.
    now destruct (b start =? 0)%Z.
Qed.

Section CellFailures.
Context {ModelFn : Type} `{!Simulator ModelFn} `{!Utils}.

Lemma retry_loop_files fuel (a : argdict.t ModelFn) pars seed tries w o w' :
  retry_loop fuel a pars seed tries w = (o, w') -> files w' = files w.
Proof.
  intros E. destruct (writes_only_retry_loop (fun _ => False) _ _ _ _ _ _ _ _ E)
    as (pre & Epre & F).
  destruct pre; [exact Epre|inversion F; contradiction].
Qed.

Lemma snapshots_too_many (a : argdict.t ModelFn) P w :
  (1 <= argdict.n_snapshots a)%nat ->
  (shape1 P < argdict.n_snapshots a + 1)%nat ->
  let limits := snapshotIndicesLimits (Z.of_nat (shape1 P) - 1) (argdict.n_snapshots a) in
  exists j w',
    (j < argdict.n_snapshots a)%nat /\
    (nth (j + 1) limits 0 <= nth j limits 0)%Z /\
    (forall i, (i < j)%nat -> (nth i limits 0 < nth (i + 1) limits 0)%Z) /\
    snapshots a P w
    = (Raise (ValueError (if (nth j limits 0 =? 0)%Z then "high <= 0" else "low >= high")), w') /\
    files w' = files w.
Proof.
  intros Hn HT. unfold snapshots.
  set (n := argdict.n_snapshots a) in *.
  set (L := snapshotIndicesLimits (Z.of_nat (shape1 P) - 1) n). cbv zeta.
  destruct (draws_fail (fun i => nth i L 0%Z) 0 n w) as (j & w' & Hj & Hb & Hfirst & E & Hf).
  { destruct (empty_window_exists (fun i => nth i L 0%Z) n) as (i & Hi & Hb).
    - unfold L. rewrite snapshotIndicesLimits_first, snapshotIndicesLimits_last by lia. lia.
    - exists i. split; [lia|]. now rewrite Nat.add_1_r. }
  exists j, w'. split; [lia|]. split; [exact Hb|].
  split; [intros i Hi; apply Hfirst; lia|]. split; [|exact Hf].
  now apply M_bind_eq_Raise.
Qed.

(** X1. Under [Snapshots(n)] with [n >= 1], a cell whose accepted
    trajectory has fewer than [n + 1] time points fails: some window is
    empty, its rounded boundary points not increasing;
    [np.random.randint] raises its [ValueError] at the first such
    window [j] (worded "high <= 0" when the window starts at 0, and
    "low >= high" otherwise), and the cell writes no file. *)
Theorem too_many_snapshots_ValueError fuel (a : argdict.t ModelFn) w pars P tries w1 :
  (1 <= argdict.n_snapshots a)%nat ->
  mapM (getitem (argdict.allParameters a)) (argdict.parNames a) = Ok pars ->
  (argdict.sampleCells a = true -> is_Some (argdict.header a)) ->
  retry_loop fuel a pars (argdict.seed a) 0 w = (Ok (P, tries), w1) ->
  (shape1 P < argdict.n_snapshots a + 1)%nat ->
  let limits := snapshotIndicesLimits (Z.of_nat (shape1 P) - 1) (argdict.n_snapshots a) in
  exists j w',
    (j < argdict.n_snapshots a)%nat /\
    (nth (j + 1) limits 0 <= nth j limits 0)%Z /\
    (forall i, (i < j)%nat -> (nth i limits 0 < nth (i + 1) limits 0)%Z) /\
    simulateAndSample fuel a w
    = (Raise (ValueError (if (nth j limits 0 =? 0)%Z then "high <= 0" else "low >= high")), w') /\
    files w' = files w.
Proof.
  intros Hn Hp Hheader Hloop HT limits.
  destruct (snapshots_too_many a P w1 Hn HT) as (j & w' & Hj & Hb & Hfirst & E & Hf).
  exists j, w'. split; [exact Hj|]. split; [exact Hb|]. split; [exact Hfirst|].
  split; [|rewrite Hf; eapply retry_loop_files, Hloop].
  unfold simulateAndSample.
  assert (Hh : (if argdict.sampleCells a
                then match argdict.header a with
                     | Some _ => mret tt
                     | None => raise (KeyError "header")
                     end
                else mret tt) w = (Ok tt, w)).
  { destruct (argdict.sampleCells a); [|reflexivity].
    destruct (Hheader eq_refl) as (h & ->). reflexivity. }
  rewrite (M_bind_eq_Ok _ _ _ _ _ Hh), Hp. erewrite M_bind_eq_Ok by reflexivity.
  rewrite (M_bind_eq_Ok _ _ _ _ _ Hloop).
  destruct (argdict.n_snapshots a =? 0)%nat eqn:En; [apply Nat.eqb_eq in En; lia|].
  now apply M_bind_eq_Raise.
Qed.
End CellFailures.

Lemma writes_nothing_files {A} (m : M A) w o w' :
  writes_only (fun _ => False) m -> m w = (o, w') -> files w' = files w.
Proof.
  intros Hm E. destruct (Hm _ _ _ E) as (pre & Epre & F).
  destruct pre; [exact Epre|inversion F; contradiction].
Qed.

Lemma cell_csv_eq (out : string) (cellid : nat) :
  cell_csv out cellid
  = os_path_join out "simulations" +:+ "/" +:+ "E" +:+ str cellid +:+ ".csv".
Proof.
  unfold cell_csv. unfold os_path_join at 1. string_head. cbv iota.
  now rewrite simulations_dir_no_trailing_sep.
Qed.

Lemma cell_csv_not_sample (out : string) (c c' : nat) : cell_csv out c <> sample_csv out c'.
Proof.
  rewrite cell_csv_eq. unfold sample_csv. intros H.
  apply (inj (String.app _)) in H. discriminate H.
Qed.

Lemma ndarray_T_wf (P : ndarray) : wf_ndarray (ndarray_T P).
Proof.
  unfold wf_ndarray, ndarray_T. simpl. apply Forall_forall. intros r Hr.
  apply list_elem_of_fmap in Hr as (j & -> & _). now rewrite length_map.
Qed.

Lemma transcript_max_nonempty (P : ndarray) (idx : list nat) (m : Q) :
  wf_ndarray P -> transcript_max P idx = Ok m -> idx <> [] /\ (1 <= shape1 P)%nat.
Proof.
  intros Hwf E. unfold transcript_max in E. apply outcome_bind_Ok in E as (sub & Hsub & E).
  unfold take_rows in Hsub. apply outcome_bind_Ok in Hsub as (rs & Hrs & Hsub).
  inversion Hsub; subst sub; clear Hsub. unfold ndarray_max in E. simpl in E.
  apply outcome_mapM_Ok in Hrs.
  split.
  - intros ->. inversion Hrs; subst. discriminate E.
  - destruct (concat rs) as [|x xs] eqn:Ec; [discriminate E|].
    assert (Hx : x ∈ concat rs) by (rewrite Ec; now left).
    apply list_elem_of_In, in_concat in Hx as (r & Hr & Hx).
    apply list_elem_of_In in Hr. apply list_elem_of_lookup in Hr as (k & Hk).
    destruct (Forall2_lookup_r _ _ _ k r Hrs Hk) as (i & _ & Hi).
    destruct (rows P !! i) as [r'|] eqn:Er; [|discriminate Hi]. inversion Hi; subst r'.
    unfold wf_ndarray in Hwf. rewrite Forall_forall in Hwf.
    specialize (Hwf r ltac:(eapply list_elem_of_lookup_2, Er)).
    rewrite <- Hwf. destruct r; [inversion Hx|simpl; lia].
Qed.

Section CellConditions.
Context {ModelFn : Type} `{!Simulator ModelFn} `{!Utils}.

Lemma attempt_wf (a : argdict.t ModelFn) pars seed w seed' P retry w' :
  attempt a pars seed w = (Ok (seed', P, retry), w') -> wf_ndarray P.
Proof.
  unfold attempt. intros E.
  apply M_bind_Ok in E as (y0 & w1 & _ & E).
  apply M_bind_Ok in E as (P0 & w2 & _ & E).
  apply M_bind_Ok in E as (mx & w3 & _ & E).
  apply M_ret_Ok in E as [E _]. apply pair_equal_spec in E as [E _].
  apply pair_equal_spec in E as [_ <-]. apply ndarray_T_wf.
Qed.

Lemma retry_loop_accepted fuel (a : argdict.t ModelFn) pars seed tries w P tries' w' :
  retry_loop fuel a pars seed tries w = (Ok (P, tries'), w') ->
  wf_ndarray P /\ exists m, transcript_max P (argdict.rnaIndex a) = Ok m.
Proof.
  revert seed tries w. induction fuel as [|fuel IH]; intros seed tries w E; [discriminate|].
  simpl in E. apply M_bind_Ok in E as ([[seed' P0] retry] & w1 & Ha & E).
  destruct retry; [eapply IH, E|]. inversion E; subst.
  split; [eapply attempt_wf, Ha|].
  apply attempt_Ok in Ha as (_ & m & Hm & _). eauto.
Qed.

Lemma single_timepoint_shape (a : argdict.t ModelFn) outPrefix P w df w' :
  single_timepoint a outPrefix P w = (Ok df, w') ->
  length (argdict.genelist a) = length (argdict.rnaIndex a).
Proof.
  unfold single_timepoint. intros E.
  apply M_bind_Ok in E as (sub & w1 & Hsub & E). apply lift_Ok in Hsub as [Hsub ->].
  apply M_bind_Ok in E as (subset & w1 & Hss & E). apply lift_Ok in Hss as [Hss ->].
  apply M_bind_Ok in E as (df0 & w1 & Hdf & E). apply lift_Ok in Hdf as [Hdf ->].
  apply pd_DataFrame_Ok in Hdf as (_ & H0 & _).
  apply take_cols_Ok in Hss as (js & _ & ->).
  apply take_rows_Ok in Hsub as [_ Hs0].
  unfold shape0 in *. simpl in H0. rewrite length_map in H0. congruence.
Qed.

Lemma snapshots_shape (a : argdict.t ModelFn) P w df w' :
  snapshots a P w = (Ok df, w') ->
  length (argdict.genelist a) = length (argdict.rnaIndex a).
Proof.
  unfold snapshots. intros E.
  apply M_bind_Ok in E as (idx & w1 & _ & E).
  apply M_bind_Ok in E as (sub & w2 & Hsub & E). apply lift_Ok in Hsub as [Hsub ->].
  apply M_bind_Ok in E as (subset & w2 & Hss & E). apply lift_Ok in Hss as [Hss ->].
  apply lift_Ok in E as [Hdf _].
  apply pd_DataFrame_Ok in Hdf as (_ & H0 & _).
  apply take_cols_Ok in Hss as (js & _ & ->).
  apply take_rows_Ok in Hsub as [_ Hs0].
  unfold shape0 in *. simpl in H0. rewrite length_map in H0. congruence.
Qed.

(** A cell that returns has a transcript variable, and as many genes as
    transcript variables. *)
Lemma simulateAndSample_genes fuel (a : argdict.t ModelFn) w w' :
  simulateAndSample fuel a w = (Ok tt, w') ->
  argdict.rnaIndex a <> [] /\
  length (argdict.genelist a) = length (argdict.rnaIndex a).
Proof.
  intros E. unfold simulateAndSample in E.
  apply M_bind_Ok in E as ([] & w0 & _ & E).
  apply M_bind_Ok in E as (pars & w1 & _ & E).
  apply M_bind_Ok in E as ([P tries] & w2 & Hloop & E).
  apply M_bind_Ok in E as (df & w3 & Hdf & _).
  destruct (retry_loop_accepted _ _ _ _ _ _ _ _ _ Hloop) as (Hwf & m & Hm).
  split; [exact (proj1 (transcript_max_nonempty _ _ _ Hwf Hm))|].
  destruct (argdict.n_snapshots a =? 0)%nat.
  - eapply single_timepoint_shape, Hdf.
  - eapply snapshots_shape, Hdf.
Qed.

(** X2. A call of [simulateAndSample] returns only if every parameter
    name is a key of the parameters, the retry loop has accepted a
    trajectory, there is a transcript variable and a time point, the
    gene list is as long as [rnaIndex], the key ['header'] is there when
    [sampleCells] is set and, under [Snapshots(n)], the trajectory has
    at least [n + 1] time points. *)
Theorem simulateAndSample_returns_only_if fuel (a : argdict.t ModelFn) w w' :
  simulateAndSample fuel a w = (Ok tt, w') ->
  exists pars P tries w1,
    mapM (getitem (argdict.allParameters a)) (argdict.parNames a) = Ok pars /\
    retry_loop fuel a pars (argdict.seed a) 0 w = (Ok (P, tries), w1) /\
    argdict.rnaIndex a <> [] /\
    (1 <= shape1 P)%nat /\
    length (argdict.genelist a) = length (argdict.rnaIndex a) /\
    (argdict.sampleCells a = true -> is_Some (argdict.header a)) /\
    ((1 <= argdict.n_snapshots a)%nat -> (argdict.n_snapshots a + 1 <= shape1 P)%nat).
Proof.
  intros E. unfold simulateAndSample in E.
  apply M_bind_Ok in E as ([] & w0 & Hh & E).
  assert (Hheader : argdict.sampleCells a = true -> is_Some (argdict.header a)).
  { intros Hs. rewrite Hs in Hh. destruct (argdict.header a); [eauto|discriminate Hh]. }
  assert (w0 = w) as ->.
  { destruct (argdict.sampleCells a); [destruct (argdict.header a)|]; now inversion Hh. }
  apply M_bind_Ok in E as (pars & w0 & Hp & E). apply lift_Ok in Hp as [Hp ->].
  apply M_bind_Ok in E as ([P tries] & w1 & Hloop & E).
  apply M_bind_Ok in E as (df & w2 & Hdf & _).
  exists pars, P, tries, w1. split; [exact Hp|]. split; [exact Hloop|].
  destruct (retry_loop_accepted _ _ _ _ _ _ _ _ _ Hloop) as (Hwf & m & Hm).
  destruct (transcript_max_nonempty _ _ _ Hwf Hm) as [Hne HT].
  split; [exact Hne|]. split; [exact HT|].
  destruct (argdict.n_snapshots a =? 0)%nat eqn:En.
  - apply Nat.eqb_eq in En. split; [eapply single_timepoint_shape, Hdf|].
    split; [exact Hheader|lia].
  - split; [eapply snapshots_shape, Hdf|]. split; [exact Hheader|]. intros Hn.
    destruct (le_lt_dec (argdict.n_snapshots a + 1) (shape1 P)) as [Hle|Hlt]; [exact Hle|].
    destruct (snapshots_too_many a P w1 Hn Hlt) as (j & w3 & _ & _ & _ & E3 & _). congruence.
Qed.

Lemma simulateAndSample_failed_files fuel (a : argdict.t ModelFn) w o w' :
  simulateAndSample fuel a w = (o, w') -> o <> Ok tt ->
  exists pre, files w' = pre ++ files w /\
              Forall (fun p => p = sample_csv (argdict.outPrefix a) (argdict.cellid a)) pre.*1.
Proof.
  intros E Ho. unfold simulateAndSample in E.
  assert (Hnil : forall w1 : World, files w1 = files w ->
            exists pre, files w1 = pre ++ files w /\
              Forall (fun p => p = sample_csv (argdict.outPrefix a) (argdict.cellid a)) pre.*1).
  { intros w1 H1. exists []. split; [exact H1|constructor]. }
  assert (Hstage1 : writes_only (fun _ => False)
            (if argdict.sampleCells a
             then match argdict.header a with
                  | Some _ => mret tt
                  | None => raise (KeyError "header")
                  end
             else mret tt)).
  { destruct (argdict.sampleCells a); [|apply writes_only_ret].
    destruct (argdict.header a); [apply writes_only_ret|apply writes_only_raise]. }
  apply M_bind_cases in E as [([] & w0 & H1 & E)|[(e & H1 & ->)|[H1 ->]]];
    [|apply Hnil; exact (writes_nothing_files _ _ _ _ Hstage1 H1)..].
  pose proof (writes_nothing_files _ _ _ _ Hstage1 H1) as F1.
  apply M_bind_cases in E as [(pars & w1 & H2 & E)|[(e & H2 & ->)|[H2 ->]]];
    [|apply Hnil; rewrite <- F1;
      exact (writes_nothing_files _ _ _ _ (writes_only_lift _ _) H2)..].
  pose proof (writes_nothing_files _ _ _ _ (writes_only_lift _ _) H2) as F2.
  apply M_bind_cases in E as [([P tries] & w2 & H3 & E)|[(e & H3 & ->)|[H3 ->]]];
    [|apply Hnil; rewrite <- F1, <- F2; exact (retry_loop_files _ _ _ _ _ _ _ _ H3)..].
  pose proof (retry_loop_files _ _ _ _ _ _ _ _ H3) as F3.
  assert (Hbranch : writes_only
            (fun p => p = sample_csv (argdict.outPrefix a) (argdict.cellid a))
            (if (argdict.n_snapshots a =? 0)%nat
             then single_timepoint a (os_path_join (argdict.outPrefix a) "simulations") P
             else snapshots a P)).
  { destruct (_ =? _)%nat; [apply writes_only_single_timepoint|apply writes_only_snapshots]. }
  assert (Hw2 : files w2 = files w) by congruence.
  apply M_bind_cases in E as [(df & w3 & H4 & E)|[(e & H4 & ->)|[H4 ->]]].
  - rewrite to_csv_eq in E. inversion E; subst. contradiction.
  - destruct (Hbranch _ _ _ H4) as (pre & Epre & F). exists pre. now rewrite Epre, Hw2.
  - destruct (Hbranch _ _ _ H4) as (pre & Epre & F). exists pre. now rewrite Epre, Hw2.
Qed.

(** X3. Whatever the outcome of [simulateAndSample], the table
    [E{cellid}.csv] of the cell has been written exactly when the call
    has returned: a cell that fails, or whose retry loop does not end,
    leaves no table behind. *)
Theorem cell_table_written_iff_success fuel (a : argdict.t ModelFn) w o w' :
  simulateAndSample fuel a w = (o, w') ->
  (written w w' (cell_csv (argdict.outPrefix a) (argdict.cellid a)) <-> o = Ok tt).
Proof.
  intros E. split.
  - intros (pre & Epre & Hin).
    destruct o as [[]| |]; [reflexivity| |];
      (destruct (simulateAndSample_failed_files _ _ _ _ _ E) as (pre' & Epre' & F);
         [discriminate|];
       rewrite Epre' in Epre; apply app_inv_tail in Epre; subst pre';
       rewrite Forall_forall in F; apply F in Hin;
       now apply cell_csv_not_sample in Hin).
  - intros ->. eapply simulateAndSample_written, E.
Qed.
End CellConditions.

(** ** Paths up to runs of separators *)

Lemma normpath_cons (x : ascii) (r : string) :
  x <> "/"%char -> normpath (String x r) = String x (normpath r).
Proof.
  destruct x as [[] [] [] [] [] [] [] []]; intros H; try reflexivity.
  now contradiction H.
Qed.

Lemma normpath_sep_sep (r : string) :
  normpath (String "/" (String "/" r)) = normpath (String "/" r).
Proof. reflexivity. Qed.

Lemma normpath_sep_cons (y : ascii) (r : string) :
  y <> "/"%char -> normpath (String "/" (String y r)) = String "/" (normpath (String y r)).
Proof.
  destruct y as [[] [] [] [] [] [] [] []]; intros H; try reflexivity.
  now contradiction H.
Qed.

Lemma normpath_app_nonsep (a : string) (c : ascii) (b : string) :
  c <> "/"%char -> normpath (a +:+ String c b) = normpath a +:+ normpath (String c b).
Proof.
  intros Hc. induction a as [|x a IH]; [reflexivity|].
  rewrite string_app_cons. destruct (decide (x = "/"%char)) as [->|Hx].
  - destruct a as [|y a].
    + rewrite string_app_nil, normpath_sep_cons by exact Hc. reflexivity.
    + rewrite string_app_cons in *. destruct (decide (y = "/"%char)) as [->|Hy].
      * rewrite !normpath_sep_sep. exact IH.
      * rewrite !normpath_sep_cons by exact Hy. rewrite string_app_cons. now f_equal.
  - rewrite !normpath_cons by exact Hx. rewrite string_app_cons. now f_equal.
Qed.

Lemma normpath_app_sep_sep (a b : string) :
  normpath (a +:+ String "/" (String "/" b)) = normpath (a +:+ String "/" b).
Proof.
  induction a as [|x a IH]; [reflexivity|].
  rewrite !string_app_cons. destruct (decide (x = "/"%char)) as [->|Hx].
  - destruct a as [|y a].
    + reflexivity.
    + rewrite !string_app_cons in *. destruct (decide (y = "/"%char)) as [->|Hy].
      * rewrite !normpath_sep_sep. exact IH.
      * rewrite !normpath_sep_cons by exact Hy. now f_equal.
  - rewrite !normpath_cons by exact Hx. now f_equal.
Qed.

Lemma contains_sep_cons (x : ascii) (r : string) :
  contains "/" (String x r) = false <-> x <> "/"%char /\ contains "/" r = false.
Proof.
  destruct (decide (x = "/"%char)) as [->|Hx].
  - simpl. destruct r; simpl; (split; [discriminate|intros [H _]; now contradiction H]).
  - assert (E : String.prefix "/" (String x r) = false).
    { destruct x as [[] [] [] [] [] [] [] []]; try reflexivity. now contradiction Hx. }
    change (contains "/" (String x r))
      with (String.prefix "/" (String x r) || contains "/" r).
    rewrite E. simpl. tauto.
Qed.

Lemma normpath_no_sep (s : string) : contains "/" s = false -> normpath s = s.
Proof.
  induction s as [|x s IH]; [reflexivity|]. intros H.
  apply contains_sep_cons in H as [Hx Hs]. rewrite normpath_cons by exact Hx.
  now rewrite IH.
Qed.

Lemma contains_sep_app (a b : string) :
  contains "/" a = false -> contains "/" b = false -> contains "/" (a +:+ b) = false.
Proof.
  intros Ha Hb. induction a as [|x a IH]; [exact Hb|].
  apply contains_sep_cons in Ha as [Hx Ha]. rewrite string_app_cons.
  apply contains_sep_cons. auto.
Qed.

Lemma pretty_N_go_no_sep (x : N) (s : string) :
  contains "/" s = false -> contains "/" (pretty_N_go x s) = false.
Proof.
  revert s. induction (N.lt_wf_0 x) as [x _ IH]. intros s Hs.
  assert (x = 0 \/ 0 < x)%N as [->|Hx] by lia; [now rewrite pretty_N_go_0|].
  rewrite pretty_N_go_step by exact Hx. apply IH; [now apply N.div_lt|].
  apply contains_sep_cons. split; [|exact Hs].
  unfold pretty_N_char. repeat case_match; discriminate.
Qed.

Lemma str_no_sep (n : nat) : contains "/" (str n) = false.
Proof.
  unfold str, pretty, pretty_nat, pretty, pretty_N. case_decide; [reflexivity|].
  now apply pretty_N_go_no_sep.
Qed.

Lemma string_app_nil_r (s : string) : s +:+ "" = s.
Proof. induction s as [|x s IH]; [reflexivity|]. now rewrite string_app_cons, IH. Qed.

Lemma rev_app_rev_app (s acc t : string) :
  String.rev_app (String.rev_app s acc) t = String.rev_app acc (s +:+ t).
Proof.
  revert acc. induction s as [|x s IH]; intros acc; [reflexivity|].
  simpl. rewrite IH. now rewrite string_app_cons.
Qed.

Lemma rev_app_acc (s acc : string) : String.rev_app s acc = String.rev_app s "" +:+ acc.
Proof.
  revert acc. induction s as [|x s IH]; intros acc; [reflexivity|].
  simpl. rewrite (IH (String x acc)), (IH (String x "")), string_app_assoc. reflexivity.
Qed.

Lemma ends_with_sep_inv (a : string) : ends_with_sep a = true -> exists a', a = a' +:+ "/".
Proof.
  unfold ends_with_sep. destruct (String.rev a) as [|x r] eqn:E; [discriminate|].
  destruct (decide (x = "/"%char)) as [->|Hx].
  - intros _. exists (String.rev r).
    assert (H : String.rev (String.rev a) = a).
    { unfold String.rev. now rewrite rev_app_rev_app, string_app_nil_r. }
    rewrite <- H, E. unfold String.rev at 1. simpl. apply rev_app_acc.
  - destruct x as [[] [] [] [] [] [] [] []]; try discriminate. now contradiction Hx.
Qed.

(** The simulations directory: under the output directory [o], the
    prefix stripped of one trailing separator, unless the prefix is
    empty. *)
Lemma simulations_dir_cases (out : string) :
  (out = "" /\ os_path_join out "simulations" = "simulations") \/
  (exists o, (out = o /\ out <> "" \/ out = o +:+ "/") /\
             os_path_join out "simulations" = o +:+ "/simulations").
Proof.
  unfold os_path_join. simpl String.prefix. cbv iota.
  destruct out as [|x out]; [now left|]. right. simpl orb.
  destruct (ends_with_sep (String x out)) eqn:E.
  - apply ends_with_sep_inv in E as (o & E). exists o. split; [now right|].
    rewrite E, string_app_assoc. reflexivity.
  - exists (String x out). split; [left; split; [reflexivity|discriminate]|reflexivity].
Qed.

Lemma cell_csv_cases_dir (out : string) (c : nat) :
  (out = "" /\ cell_csv out c = "simulations/E" +:+ str c +:+ ".csv" /\
   sample_csv out c = "simulationsE" +:+ str c +:+ "-cell.csv") \/
  (exists o, (out = o /\ out <> "" \/ out = o +:+ "/") /\
             cell_csv out c = o +:+ "/simulations/E" +:+ str c +:+ ".csv" /\
             sample_csv out c = o +:+ "/simulationsE" +:+ str c +:+ "-cell.csv").
Proof.
  rewrite cell_csv_eq. unfold sample_csv.
  destruct (simulations_dir_cases out) as [[-> ->]|(o & Ho & ->)].
  - left. split; [reflexivity|]. split; reflexivity.
  - right. exists o. split; [exact Ho|]. rewrite !string_app_assoc. split; reflexivity.
Qed.

Lemma cell_name_no_sep (c : nat) (ext : string) :
  contains "/" ext = false -> contains "/" (str c +:+ ext) = false.
Proof. intros H. apply contains_sep_app; [apply str_no_sep|exact H]. Qed.

(** The normal form of the paths under the output directory [o]. *)
Lemma normpath_cell (o : string) (c : nat) :
  normpath (o +:+ "/simulations/E" +:+ str c +:+ ".csv")
  = normpath (o +:+ "/simulation") +:+ "s/E" +:+ str c +:+ ".csv".
Proof.
  change (o +:+ "/simulations/E" +:+ str c +:+ ".csv")
    with (o +:+ ("/simulation" +:+ String "s" ("/E" +:+ str c +:+ ".csv"))).
  rewrite <- string_app_assoc, normpath_app_nonsep by discriminate.
  f_equal. string_head. rewrite normpath_cons, normpath_sep_cons, normpath_cons by discriminate.
  now rewrite normpath_no_sep by (now apply cell_name_no_sep).
Qed.

Lemma normpath_sample (o : string) (c : nat) :
  normpath (o +:+ "/simulationsE" +:+ str c +:+ "-cell.csv")
  = normpath (o +:+ "/simulation") +:+ "sE" +:+ str c +:+ "-cell.csv".
Proof.
  change (o +:+ "/simulationsE" +:+ str c +:+ "-cell.csv")
    with (o +:+ ("/simulation" +:+ String "s" ("E" +:+ str c +:+ "-cell.csv"))).
  rewrite <- string_app_assoc, normpath_app_nonsep by discriminate.
  f_equal. string_head. rewrite !normpath_cons by discriminate.
  now rewrite normpath_no_sep by (now apply cell_name_no_sep).
Qed.

Lemma string_length_app (a b : string) :
  String.length (a +:+ b) = (String.length a + String.length b)%nat.
Proof. induction a as [|x a IH]; [reflexivity|]. rewrite string_app_cons. simpl. now rewrite IH. Qed.

Lemma string_app_inv_tail (a b s : string) : a +:+ s = b +:+ s -> a = b.
Proof.
  revert b. induction a as [|x a IH]; intros [|y b] H.
  - reflexivity.
  - apply (f_equal String.length) in H. rewrite string_app_nil, string_app_cons in H.
    simpl in H. rewrite string_length_app in H. lia.
  - apply (f_equal String.length) in H. rewrite string_app_nil, string_app_cons in H.
    simpl in H. rewrite string_length_app in H. lia.
  - rewrite !string_app_cons in H. injection H as -> H. f_equal. now apply IH.
Qed.

Lemma cell_tail_normal (c : nat) :
  normpath ("simulations/E" +:+ str c +:+ ".csv") = "simulations/E" +:+ str c +:+ ".csv".
Proof.
  string_head. rewrite !normpath_cons by discriminate.
  rewrite normpath_sep_cons, normpath_cons by discriminate.
  now rewrite normpath_no_sep by (now apply cell_name_no_sep).
Qed.

Lemma sample_tail_normal (c : nat) :
  normpath ("simulationsE" +:+ str c +:+ "-cell.csv") = "simulationsE" +:+ str c +:+ "-cell.csv".
Proof.
  string_head. rewrite !normpath_cons by discriminate.
  now rewrite normpath_no_sep by (now apply cell_name_no_sep).
Qed.

Lemma normpath_under (o : string) (x : ascii) (t : string) :
  x <> "/"%char -> normpath (String x t) = String x t ->
  normpath (o +:+ String "/" (String x t)) = normpath (o +:+ "/") +:+ String x t /\
  normpath ((o +:+ "/") +:+ String "/" (String x t)) = normpath (o +:+ "/") +:+ String x t.
Proof.
  intros Hx Ht.
  assert (E : normpath (o +:+ String "/" (String x t)) = normpath (o +:+ "/") +:+ String x t).
  { change (o +:+ String "/" (String x t)) with (o +:+ ("/" +:+ String x t)).
    now rewrite <- string_app_assoc, normpath_app_nonsep, Ht by exact Hx. }
  split; [exact E|].
  rewrite string_app_assoc. string_head. now rewrite normpath_app_sep_sep.
Qed.

(** The files of a run, up to runs of separators: the tables and the
    sampled observations sit under one root [R]; the cluster file and
    the paths read back by the aggregation sit under [R'], which is [R]
    unless the output prefix is empty. *)
Lemma run_paths (out : string) :
  exists R R',
    (out <> "" -> R' = R) /\ (out = "" -> R = "" /\ R' = "/") /\
    forall c,
      normpath (cell_csv out c) = R +:+ "simulations/E" +:+ str c +:+ ".csv" /\
      normpath (sample_csv out c) = R +:+ "simulationsE" +:+ str c +:+ "-cell.csv" /\
      normpath (cluster_csv out) = R' +:+ "ClusterIds.csv" /\
      normpath (out +:+ "/simulations/E" +:+ str c +:+ ".csv")
      = R' +:+ "simulations/E" +:+ str c +:+ ".csv".
Proof.
  destruct (simulations_dir_cases out) as [[-> HJ]|(o & Ho & HJ)].
  - exists "", "/". split; [congruence|]. split; [auto|]. intros c.
    rewrite cell_csv_eq. unfold sample_csv, cluster_csv. rewrite HJ.
    split; [apply (cell_tail_normal c)|]. split; [apply (sample_tail_normal c)|].
    split; [reflexivity|].
    pose proof (cell_tail_normal c) as E. revert E. string_head. intros E.
    rewrite normpath_sep_cons by discriminate. now rewrite E.
  - exists (normpath (o +:+ "/")), (normpath (o +:+ "/")). split; [reflexivity|].
    split; [intros ->; destruct Ho as [[_ H]|H]; [contradiction|];
            destruct o; discriminate H|].
    intros c. rewrite cell_csv_eq. unfold sample_csv, cluster_csv. rewrite HJ.
    pose proof (cell_tail_normal c) as Ec. pose proof (sample_tail_normal c) as Es.
    assert (Ek : normpath "ClusterIds.csv" = "ClusterIds.csv") by reflexivity.
    revert Ec Es Ek. rewrite !string_app_assoc. string_head. intros Ec Es Ek.
    split; [apply normpath_under; [discriminate|exact Ec]|].
    split; [apply normpath_under; [discriminate|exact Es]|].
    destruct Ho as [[-> _]| ->].
    + split; apply normpath_under; (discriminate || assumption).
    + split; apply normpath_under; (discriminate || assumption).
Qed.

(** Up to runs of separators, the table of cell [c] shares its path
    with no other table, no sampled observation and not with
    [ClusterIds.csv]; the path the aggregation reads names it when the
    output prefix is not empty. *)
Lemma run_files_distinct (out : string) (c : nat) :
  (forall c', normpath (cell_csv out c') = normpath (cell_csv out c) -> c' = c) /\
  (forall c', normpath (sample_csv out c') <> normpath (cell_csv out c)) /\
  normpath (cluster_csv out) <> normpath (cell_csv out c).
Proof.
  destruct (run_paths out) as (R & R' & Hne & He & H).
  destruct (H c) as (Hc & _ & Hk & _). rewrite Hc, Hk.
  split; [|split].
  - intros c' E. destruct (H c') as (Hc' & _). rewrite Hc' in E.
    apply (inj (String.app _)) in E.
    apply (inj (String.app _)), string_app_inv_tail in E. now apply (inj pretty) in E.
  - intros c' E. destruct (H c') as (_ & Hs' & _). rewrite Hs' in E.
    apply (inj (String.app _)) in E. discriminate E.
  - destruct out as [|x out].
    + destruct (He eq_refl) as [-> ->]. discriminate.
    + rewrite (Hne ltac:(discriminate)). intros E. apply (inj (String.app _)) in E.
      discriminate E.
Qed.

Lemma csvPath_names_table (out : string) (c : nat) :
  out <> "" ->
  normpath (out +:+ "/simulations/E" +:+ str c +:+ ".csv") = normpath (cell_csv out c).
Proof.
  intros Hout. destruct (run_paths out) as (R & R' & Hne & _ & H).
  destruct (H c) as (Hc & _ & _ & Hp). now rewrite Hc, Hp, (Hne Hout).
Qed.

(** X4. The files of a run do not collide, even up to repeated
    separators in their paths: the tables of two cells are one file
    only for one cell, and so are their sampled observations; a sampled
    observation is not the table of a cell, and [ClusterIds.csv] is
    neither a table nor a sampled observation. *)
Theorem run_files_do_not_collide (out : string) (c c' : nat) :
  (same_file (cell_csv out c) (cell_csv out c') = true <-> c = c') /\
  (same_file (sample_csv out c) (sample_csv out c') = true <-> c = c') /\
  same_file (sample_csv out c) (cell_csv out c') = false /\
  same_file (cluster_csv out) (cell_csv out c') = false /\
  same_file (cluster_csv out) (sample_csv out c') = false.
Proof.
  destruct (run_paths out) as (R & R' & Hne & He & H).
  destruct (H c) as (Hc & Hs & Hk & _). destruct (H c') as (Hc' & Hs' & _ & _).
  unfold same_file. rewrite !bool_decide_eq_true, !bool_decide_eq_false, Hc, Hc', Hs, Hs', Hk.
  split; [|split; [|split; [|split]]].
  - split; [|now intros ->]. intros E. apply (inj (String.app _)) in E.
    apply (inj (String.app _)), string_app_inv_tail in E. now apply (inj pretty) in E.
  - split; [|now intros ->]. intros E. apply (inj (String.app _)) in E.
    apply (inj (String.app _)), string_app_inv_tail in E. now apply (inj pretty) in E.
  - intros E. apply (inj (String.app _)) in E. discriminate E.
  - destruct out as [|x out].
    + destruct (He eq_refl) as [-> ->]. discriminate.
    + rewrite (Hne ltac:(discriminate)). intros E. apply (inj (String.app _)) in E.
      discriminate E.
  - destruct out as [|x out].
    + destruct (He eq_refl) as [-> ->]. discriminate.
    + rewrite (Hne ltac:(discriminate)). intros E. apply (inj (String.app _)) in E.
      discriminate E.
Qed.

(** X5. The path [f'{outPrefix}/simulations/E{cellid}.csv'] that
    [Experiment] reads names, up to repeated separators, the file that
    [simulateAndSample] writes for the cell through [os.path.join],
    provided the output prefix is not empty; it names neither the table
    of another cell nor a sampled observation. *)
Theorem cell_table_read_back (out : string) (c c' : nat) :
  out <> "" ->
  let csvPath := out +:+ "/simulations/E" +:+ str c +:+ ".csv" in
  same_file (cell_csv out c) csvPath = true /\
  (c' <> c -> same_file (cell_csv out c') csvPath = false) /\
  same_file (sample_csv out c') csvPath = false.
Proof.
  intros Hout csvPath.
  destruct (run_paths out) as (R & R' & Hne & _ & H).
  destruct (H c) as (Hc & _ & _ & Hp). destruct (H c') as (Hc' & Hs' & _ & _).
  rewrite (Hne Hout) in Hp. unfold same_file, csvPath.
  rewrite bool_decide_eq_true, !bool_decide_eq_false, Hc, Hc', Hs', Hp.
  split; [reflexivity|]. split.
  - intros Hcc E. apply (inj (String.app _)) in E.
    apply (inj (String.app _)), string_app_inv_tail in E. now apply (inj pretty) in E.
  - intros E. apply (inj (String.app _)) in E. discriminate E.
Qed.

(** ** Runs that stop before or after the simulations *)

Lemma outcome_mapM_first_Raise {A B} (f : A -> outcome B) (l1 : list A) (x : A)
    (l2 : list A) (e : exn) :
  Forall (fun y => exists b, f y = Ok b) l1 -> f x = Raise e ->
  mapM f (l1 ++ x :: l2) = Raise e.
Proof.
  intros H Hx. induction H as [|y l1 [b Hy] _ IH]; simpl.
  - now rewrite Hx.
  - rewrite Hy. simpl. now rewrite IH.
Qed.

Lemma in_worker_inv {A} (m : M A) w o w' :
  in_worker m w = (o, w') -> exists w1, m w = (o, w1) /\ files w' = files w1.
Proof.
  unfold in_worker. destruct (m w) as [o1 w1]. intros E. inversion E; subst. eauto.
Qed.

Section Runs.
Context {ModelFn : Type} `{!Simulator ModelFn} `{!Utils} `{!Sklearn}.

(** The fields of the argument dictionary that [Experiment] fills from
    the model and the settings. *)
Lemma prepare_argdict m (Model : ModelFn) tspan s icsDF writeProtein w argdict gd w1 :
  prepare m Model tspan s icsDF writeProtein w = (Ok (argdict, gd), w1) ->
  forall c,
    argdict.outPrefix (argdict c) = settings.outprefix s /\
    argdict.cellid (argdict c) = c /\
    argdict.genelist (argdict c) = mg.genelist m /\
    argdict.n_snapshots (argdict c) = default O (settings.n_snapshots s) /\
    argdict.sampleCells (argdict c) = settings.sample_cells s.
Proof.
  unfold prepare. intros E.
  apply M_bind_Ok in E as (pars & w0 & Hp & E). apply lift_Ok in Hp as [_ ->].
  apply M_bind_Ok in E as (y0 & w0 & Hy & E). apply lift_Ok in Hy as [_ ->].
  apply M_bind_Ok in E as (ss & w0 & Hs & E). apply lift_Ok in Hs as [_ ->].
  apply M_bind_Ok in E as ([] & w0 & Hpl & E).
  apply M_bind_Ok in E as ([header gd0] & w2 & Hh & E).
  inversion E; subst; clear E. intros c. repeat split.
Qed.

Lemma aggregate_world out n cells st w o w' :
  aggregate out n cells st w = (o, w') -> w' = w.
Proof.
  revert st w. induction cells as [|c cells IH]; intros [gd frames] w E; simpl in E.
  - now inversion E.
  - apply M_bind_cases in E as [(st' & w1 & H1 & E)|[(e & H1 & _)|[H1 _]]].
    + apply IH in E as ->. clear IH. unfold aggregate_cell in H1.
      apply M_bind_Ok in H1 as (df & w2 & Hr & H1). apply read_csv_world in Hr as ->.
      apply M_bind_Ok in H1 as (gd' & w2 & Hg & H1). inversion H1; subst.
      destruct (n =? 0)%nat; [|now inversion Hg].
      destruct gd; now inversion Hg.
    + unfold aggregate_cell in H1.
      apply M_bind_cases in H1 as [(df & w2 & Hr & H1)|[(e' & Hr & _)|[Hr _]]];
        [|now apply read_csv_world in Hr..].
      apply read_csv_world in Hr as ->.
      apply M_bind_cases in H1 as [(gd' & w2 & Hg & H1)|[(e' & Hg & _)|[Hg _]]];
        [now inversion H1| |];
        (destruct (n =? 0)%nat; [|now inversion Hg]; destruct gd; now inversion Hg).
    + unfold aggregate_cell in H1.
      apply M_bind_cases in H1 as [(df & w2 & Hr & H1)|[(e' & Hr & _)|[Hr _]]];
        [|now apply read_csv_world in Hr..].
      apply read_csv_world in Hr as ->.
      apply M_bind_cases in H1 as [(gd' & w2 & Hg & H1)|[(e' & Hg & _)|[Hg _]]];
        [now inversion H1| |];
        (destruct (n =? 0)%nat; [|now inversion Hg]; destruct gd; now inversion Hg).
Qed.

(** With [groupedDict] unbound and a single time point, the aggregation
    gets past no cell. *)
Lemma aggregate_unbound out cells frames w st w' :
  aggregate out 0 cells (None, frames) w = (Ok st, w') -> cells = [].
Proof.
  destruct cells as [|c cells]; [reflexivity|]. simpl. intros E.
  apply M_bind_Ok in E as (st' & w1 & H1 & _). unfold aggregate_cell in H1.
  apply M_bind_Ok in H1 as (df & w2 & _ & H1).
  apply M_bind_Ok in H1 as (gd' & w3 & Hg & _). discriminate Hg.
Qed.

(** X6. With [num_cells = 0] (no protein species, the initial
    conditions and the base vector being there) [Experiment] simulates
    nothing and raises the [ValueError] of [pd.concat] on an empty
    list; the world is left as it was found. *)
Theorem no_cells_ValueError fuel m (Model : ModelFn) tspan s icsDF wp nt w y0 ss :
  settings.num_cells s = 0%nat ->
  mg.proteinlist m = [] ->
  mapM (getitem (ModelSpec.ics (mg.ModelSpec m))) (mg.varmapper m) = Ok y0 ->
  build_ss m icsDF = Ok ss ->
  Experiment fuel m Model tspan s icsDF wp nt w
  = (Raise (ValueError "No objects to concatenate"), w).
Proof.
  intros HN Hpl Hy0 Hss.
  destruct (pars_lookup_total (ModelSpec.pars (mg.ModelSpec m))) as (pars & Hpars).
  unfold Experiment, prepare, dispatch, collect.
  rewrite Hpars, Hy0, Hss, Hpl, HN. cbn [mbind M_bind lift length Nat.eqb mret M_ret].
  destruct (settings.sample_cells s); reflexivity.
Qed.

(** X7. [Experiment] looks up the initial condition of every variable
    (the list [y0], which it does not use afterwards): the first
    variable of [varmapper] that is no key of [ModelSpec['ics']] raises
    [KeyError], before any random draw, simulation or file. *)
Theorem missing_initial_condition_KeyError fuel m (Model : ModelFn) tspan s icsDF wp nt w
    (l1 : list string) (k : string) (l2 : list string) :
  mg.varmapper m = l1 ++ k :: l2 ->
  (forall k', k' ∈ l1 -> is_Some (ModelSpec.ics (mg.ModelSpec m) !! k')) ->
  ModelSpec.ics (mg.ModelSpec m) !! k = None ->
  Experiment fuel m Model tspan s icsDF wp nt w = (Raise (KeyError k), w).
Proof.
  intros Hv Hl1 Hk.
  destruct (pars_lookup_total (ModelSpec.pars (mg.ModelSpec m))) as (pars & Hpars).
  assert (Hy0 : mapM (getitem (ModelSpec.ics (mg.ModelSpec m))) (mg.varmapper m)
                = Raise (KeyError k)).
  { rewrite Hv. apply outcome_mapM_first_Raise.
    - apply Forall_forall. intros k' Hk'. destruct (Hl1 k' Hk') as [v Hv'].
      exists v. unfold getitem. now rewrite Hv'.
    - unfold getitem. now rewrite Hk. }
  unfold Experiment, prepare. rewrite Hpars, Hy0. reflexivity.
Qed.

(** X8. With [sample_cells] and a single time point
    ([n_snapshots == 0]) no run of [Experiment] returns a result,
    whatever the model, the number of cells and the files present:
    [groupedDict] is bound only without [sample_cells]. *)
Theorem sample_cells_single_timepoint_never_returns
    fuel m (Model : ModelFn) tspan s icsDF wp nt w o w' :
  settings.sample_cells s = true ->
  default O (settings.n_snapshots s) = O ->
  Experiment fuel m Model tspan s icsDF wp nt w = (o, w') ->
  forall result, o <> Ok result.
Proof.
  intros Hsc Hn E result ->. unfold Experiment in E.
  apply M_bind_Ok in E as ([argdict gd] & w1 & Hprep & E).
  apply prepare_Ok in Hprep as (_ & _ & _ & Hgd). rewrite Hsc in Hgd. subst gd.
  apply M_bind_Ok in E as ([] & w2 & _ & E). unfold collect in E. rewrite Hn in E.
  apply M_bind_Ok in E as ([gd frames] & w3 & Hagg & E).
  pose proof (aggregate_unbound _ _ _ _ _ _ Hagg) as Hcells.
  rewrite Hcells in Hagg. simpl in Hagg. inversion Hagg; subst.
  apply M_bind_Ok in E as (r & w4 & Hr & _). discriminate Hr.
Qed.
End Runs.

(** ** The tables of a run *)

Lemma find_app {A} (p : A -> bool) (l1 l2 : list A) :
  List.find p (l1 ++ l2) = match List.find p l1 with
                           | Some x => Some x
                           | None => List.find p l2
                           end.
Proof. induction l1 as [|x l1 IH]; [reflexivity|]. simpl. now destruct (p x). Qed.

Section Tables.
Context {ModelFn : Type} `{!Simulator ModelFn} `{!Utils}.

Lemma single_timepoint_no_sample (a : argdict.t ModelFn) outPrefix P w o w' :
  argdict.sampleCells a = false ->
  single_timepoint a outPrefix P w = (o, w') -> files w' = files w.
Proof.
  intros Hs. apply writes_nothing_files. unfold single_timepoint.
  apply writes_only_bind; [apply writes_only_lift|]. intros _ sub _ _.
  apply writes_only_bind; [apply writes_only_lift|]. intros _ subset _ _.
  apply writes_only_bind; [apply writes_only_lift|]. intros _ df _ _.
  apply writes_only_bind; [|intros; apply writes_only_ret].
  unfold write_sample. rewrite Hs. apply writes_only_ret.
Qed.

(** What a cell that returns leaves behind: its table on top of the
    files, over its sampled observation if the cell wrote one. *)
Lemma simulateAndSample_table fuel (a : argdict.t ModelFn) w w' :
  simulateAndSample fuel a w = (Ok tt, w') ->
  exists df rest,
    files w' = (cell_csv (argdict.outPrefix a) (argdict.cellid a), df) :: rest ++ files w /\
    Forall (fun p => p = sample_csv (argdict.outPrefix a) (argdict.cellid a)) rest.*1 /\
    (argdict.sampleCells a = false \/ argdict.n_snapshots a <> 0%nat -> rest = []) /\
    index df = argdict.genelist a /\
    shape0 (values df) = length (argdict.genelist a) /\
    wf_ndarray (values df) /\
    ((argdict.n_snapshots a = 0%nat /\
      exists T, columns df = col_name (argdict.cellid a) <$> seq 1 (T - 1)) \/
     ((1 <= argdict.n_snapshots a)%nat /\
      columns df = snapshot_name (argdict.cellid a) <$> seq 0 (argdict.n_snapshots a))).
Proof.
  intros E. unfold simulateAndSample in E.
  apply M_bind_Ok in E as ([] & w0 & Hh & E).
  assert (w0 = w) as ->.
  { destruct (argdict.sampleCells a); [destruct (argdict.header a)|]; now inversion Hh. }
  apply M_bind_Ok in E as (pars & w0 & Hp & E). apply lift_Ok in Hp as [Hp ->].
  apply M_bind_Ok in E as ([P tries] & w1 & Hloop & E).
  apply M_bind_Ok in E as (df & w2 & Hdf & E).
  rewrite to_csv_eq in E. inversion E; subst w'; clear E. cbn [files].
  pose proof (retry_loop_files _ _ _ _ _ _ _ _ Hloop) as F1.
  fold (cell_csv (argdict.outPrefix a) (argdict.cellid a)).
  destruct (argdict.n_snapshots a =? 0)%nat eqn:En.
  - apply Nat.eqb_eq in En.
    destruct (writes_only_single_timepoint _ _ _ _ _ Hdf) as (rest & Erest & F).
    pose proof (single_timepoint_shape _ _ _ _ _ _ Hdf) as Hlen.
    pose proof Hdf as Hdf0.
    apply single_timepoint_Ok in Hdf as (sub & Hsub & Hidx & Hcols & Hvals).
    apply take_rows_Ok in Hsub as [_ Hs0].
    exists df, rest. split; [now rewrite Erest, F1|]. split; [exact F|].
    split; [|split; [exact Hidx|split; [|split]]].
    + intros [Hs|Hn]; [|contradiction].
      pose proof (single_timepoint_no_sample _ _ _ _ _ _ Hs Hdf0) as H0.
      rewrite H0 in Erest. destruct rest; [reflexivity|].
      apply (f_equal length) in Erest. simpl in Erest. rewrite length_app in Erest. lia.
    + rewrite Hvals. unfold shape0 in *. simpl. rewrite length_fmap. congruence.
    + rewrite Hvals. unfold wf_ndarray. simpl. apply Forall_forall. intros r Hr.
      apply list_elem_of_fmap in Hr as (r0 & -> & _). now rewrite length_fmap, length_seq.
    + left. split; [exact En|]. exists (shape1 P). exact Hcols.
  - apply Nat.eqb_neq in En.
    pose proof (snapshots_shape _ _ _ _ _ Hdf) as Hlen.
    apply snapshots_Ok in Hdf
      as (sub & idx & Hsub & HF & _ & Hidx & Hcols & Hvals & F2); [|lia].
    apply take_rows_Ok in Hsub as [_ Hs0].
    exists df, []. split; [simpl; now rewrite F2, F1|]. split; [constructor|].
    split; [reflexivity|]. split; [exact Hidx|]. split; [|split].
    + rewrite Hvals. unfold shape0 in *. simpl. rewrite length_fmap. congruence.
    + rewrite Hvals. unfold wf_ndarray. simpl. apply Forall_forall. intros r Hr.
      apply list_elem_of_fmap in Hr as (r0 & -> & _). rewrite length_fmap.
      apply Forall2_length in HF. now rewrite length_seq in HF.
    + right. split; [lia|exact Hcols].
Qed.
End Tables.

Lemma for_each_tables (body : nat -> M unit) (path : nat -> string)
    (sok : nat -> string -> Prop) (good : nat -> DataFrame -> Prop) :
  (forall c wa wb, body c wa = (Ok tt, wb) ->
     exists df rest, files wb = (path c, df) :: rest ++ files wa /\
                     Forall (sok c) rest.*1 /\ good c df) ->
  forall len start w w', for_each (seq start len) body w = (Ok tt, w') ->
  exists (tables : list DataFrame) (pre : list (string * DataFrame)),
    length tables = len /\
    files w' = pre ++ files w /\
    (forall i df, tables !! i = Some df ->
       (path (start + i)%nat, df) ∈ pre /\ good (start + i)%nat df) /\
    (forall p df, (p, df) ∈ pre ->
       exists i, (i < len)%nat /\
                 ((p = path (start + i)%nat /\ tables !! i = Some df) \/
                  sok (start + i)%nat p)).
Proof.
  intros Hbody. induction len as [|len IH]; intros start w w' E.
  - simpl in E. inversion E; subst. exists [], []. split; [reflexivity|].
    split; [reflexivity|]. split; [intros i df Hi; discriminate Hi|].
    intros p df Hin. inversion Hin.
  - simpl in E. apply M_bind_Ok in E as ([] & w1 & H1 & E).
    destruct (Hbody _ _ _ H1) as (df0 & rest & F1 & Hrest & Hgood).
    destruct (IH _ _ _ E) as (tables & pre & Hlen & F2 & Htab & Hpre).
    exists (df0 :: tables), (pre ++ (path start, df0) :: rest).
    split; [simpl; now rewrite Hlen|].
    split; [rewrite F2, F1, <- app_assoc; reflexivity|]. split.
    + intros [|i] df Hi.
      * inversion Hi; subst df. rewrite Nat.add_0_r. split; [|exact Hgood].
        apply elem_of_app. right. now left.
      * destruct (Htab i df Hi) as [Hin Hg].
        replace (start + S i)%nat with (S start + i)%nat by lia.
        split; [apply elem_of_app; now left|exact Hg].
    + intros p df Hin. apply elem_of_app in Hin as [Hin|Hin].
      * destruct (Hpre p df Hin) as (i & Hi & Hcase). exists (S i). split; [lia|].
        replace (start + S i)%nat with (S start + i)%nat by lia. exact Hcase.
      * exists 0%nat. split; [lia|]. rewrite Nat.add_0_r.
        apply elem_of_cons in Hin as [Hin|Hin].
        -- inversion Hin; subst. left. split; reflexivity.
        -- right. rewrite Forall_forall in Hrest. apply Hrest.
           apply list_elem_of_fmap. exists (p, df). split; [reflexivity|exact Hin].
Qed.

Section RunTables.
Context {ModelFn : Type} `{!Simulator ModelFn} `{!Utils}.

Lemma dispatch_tables fuel s (argdict : nat -> argdict.t ModelFn) out genes n sc w w' :
  (forall c, argdict.outPrefix (argdict c) = out /\ argdict.cellid (argdict c) = c /\
             argdict.genelist (argdict c) = genes /\ argdict.n_snapshots (argdict c) = n /\
             argdict.sampleCells (argdict c) = sc) ->
  dispatch fuel s argdict w = (Ok tt, w') ->
  exists (tables : list DataFrame) (pre : list (string * DataFrame)),
    length tables = settings.num_cells s /\
    files w' = pre ++ files w /\
    (forall c df, tables !! c = Some df ->
       (cell_csv out c, df) ∈ pre /\ table_of genes n c df) /\
    (forall p df, (p, df) ∈ pre ->
       exists c, (c < settings.num_cells s)%nat /\
                 ((p = cell_csv out c /\ tables !! c = Some df) \/
                  (p = sample_csv out c /\ sc = true /\ n = 0%nat))).
Proof.
  intros Harg E. unfold dispatch in E.
  eapply (for_each_tables _ (cell_csv out)
            (fun c p => p = sample_csv out c /\ sc = true /\ n = 0%nat)
            (fun c df => table_of genes n c df)) in E.
  - destruct E as (tables & pre & Hlen & F & Htab & Hpre). exists tables, pre.
    split; [exact Hlen|]. split; [exact F|]. split; [exact Htab|exact Hpre].
  - intros c wa wb Hc. destruct (Harg c) as (Ho & Hi & Hg & Hn & Hs).
    assert (Hjob : exists w1, simulateAndSample fuel (argdict c) wa = (Ok tt, w1) /\
                              files wb = files w1).
    { destruct (settings.doParallel s); [now apply in_worker_inv in Hc|eauto]. }
    destruct Hjob as (w1 & Hjob & ->).
    apply simulateAndSample_table in Hjob
      as (df & rest & F & Hrest & Hnone & Hidx & Hs0 & Hwf & Hcols).
    rewrite Ho, Hi, Hg, Hn, Hs in *. exists df, rest. split; [exact F|].
    split; [|unfold table_of; tauto].
    destruct sc; [|rewrite Hnone by auto; constructor].
    destruct n as [|n']; [|rewrite Hnone by auto; constructor].
    eapply Forall_impl; [exact Hrest|]. intros p ->. auto.
Qed.

(** Reading back the table of a cell after the simulations: a path
    that names the file of the table yields the table the cell wrote
    in this run. *)
Lemma read_back out N (tables : list DataFrame) (pre : list (string * DataFrame))
    sc n (w1 w2 : World) c df q :
  normpath q = normpath (cell_csv out c) ->
  files w2 = pre ++ files w1 ->
  (forall c df, tables !! c = Some df -> (cell_csv out c, df) ∈ pre) ->
  (forall p df, (p, df) ∈ pre ->
     (exists c, (c < N)%nat /\
                ((p = cell_csv out c /\ tables !! c = Some df) \/
                 (p = sample_csv out c /\ sc = true /\ n = 0%nat))) \/
     p = cluster_csv out) ->
  tables !! c = Some df ->
  read_csv q w2 = (Ok df, w2).
Proof.
  intros Hq F Htab Hpre Hc. unfold read_csv. rewrite F.
  destruct (run_files_distinct out c) as (Hcell & Hsample & Hcluster).
  assert (Hmatch : forall f, f ∈ pre -> same_file f.1 q = true -> f.2 = df).
  { intros [p d] Hin Hsame. simpl in *. unfold same_file in Hsame.
    apply bool_decide_eq_true in Hsame. rewrite Hq in Hsame.
    destruct (Hpre p d Hin) as [(c' & _ & [[-> Hd]|[-> _]])| ->].
    - apply Hcell in Hsame. subst c'. congruence.
    - now apply Hsample in Hsame.
    - now apply Hcluster in Hsame. }
  assert (Hsome : same_file (cell_csv out c) q = true).
  { unfold same_file. apply bool_decide_eq_true. now rewrite Hq. }
  destruct (List.find (fun f => same_file f.1 q) pre) as [f|] eqn:Ef.
  - rewrite find_app, Ef. apply find_some in Ef as [Hin Hsame].
    apply list_elem_of_In in Hin. now rewrite (Hmatch f Hin Hsame).
  - exfalso. pose proof (find_none _ _ Ef (cell_csv out c, df)) as Hnone.
    simpl in Hnone. rewrite Hsome in Hnone.
    specialize (Hnone ltac:(apply list_elem_of_In; eauto)). discriminate Hnone.
Qed.
End RunTables.

(** ** The aggregated result *)

Lemma insert_sorted_fst {A B} (le : A -> A -> bool) (x : A * B) (l : list (A * B)) :
  (insert_sorted (fun a b => le a.1 b.1) x l).*1 = insert_sorted le x.1 l.*1.
Proof.
  induction l as [|y l IH]; [reflexivity|]. cbn [insert_sorted fmap list_fmap].
  destruct (le x.1 y.1); [reflexivity|]. cbn [fmap list_fmap]. f_equal. exact IH.
Qed.

Lemma sort_by_fst {A B} (le : A -> A -> bool) (l : list (A * B)) :
  (sort_by (fun a b => le a.1 b.1) l).*1 = sort_by le l.*1.
Proof.
  unfold sort_by. induction l as [|x l IH]; [reflexivity|]. cbn [foldr fmap list_fmap].
  rewrite insert_sorted_fst. f_equal. exact IH.
Qed.

Lemma insert_sorted_length {A} (le : A -> A -> bool) (x : A) (l : list A) :
  length (insert_sorted le x l) = S (length l).
Proof.
  induction l as [|y l IH]; [reflexivity|]. simpl.
  destruct (le x y); [reflexivity|]. simpl. now rewrite IH.
Qed.

Lemma sort_by_length {A} (le : A -> A -> bool) (l : list A) :
  length (sort_by le l) = length l.
Proof.
  unfold sort_by. induction l as [|x l IH]; [reflexivity|]. simpl.
  now rewrite insert_sorted_length, IH.
Qed.

(** Sorting a table by gene keeps its shape. *)
Lemma sort_index_table genes n c df :
  table_of genes n c df ->
  index (sort_index df) = sorted genes /\
  columns (sort_index df) = columns df /\
  shape1 (values (sort_index df)) = shape1 (values df) /\
  shape0 (values (sort_index df)) = length genes /\
  wf_ndarray (values (sort_index df)).
Proof.
  intros (Hidx & Hs0 & Hwf & _). unfold sort_index, shape0 in *. cbn [index columns values shape1 rows].
  split; [|split; [reflexivity|split; [reflexivity|split]]].
  - rewrite sort_by_fst, fst_zip by (rewrite Hidx; lia). now rewrite Hidx.
  - rewrite length_fmap, sort_by_length, length_zip, Hidx. lia.
  - unfold wf_ndarray in *. cbn [shape1 rows]. apply Forall_forall. intros r Hr.
    apply list_elem_of_fmap in Hr as ([k r'] & -> & Hin). simpl.
    apply sort_by_elem in Hin. apply elem_of_zip_r in Hin.
    rewrite Forall_forall in Hwf. now apply Hwf.
Qed.

Section Aggregation.
Context {ModelFn : Type} `{!Simulator ModelFn} `{!Utils} `{!Sklearn}.

(** One binding of [groupedDict] per cell read back. *)
Lemma aggregate_Ok out n cells gd frames w gd' frames' w' :
  aggregate out n cells (gd, frames) w = (Ok (gd', frames'), w') ->
  exists tables,
    Forall2 (fun c df => read_csv (out +:+ "/simulations/E" +:+ str c +:+ ".csv") w = (Ok df, w))
            cells tables /\
    frames' = frames ++ ((fun df => DataFrame_T (sort_index df)) <$> tables) /\
    gd' = (if (n =? 0)%nat
           then (fun d => foldl (fun d ct => dict_setitem d ("E" +:+ str ct.1)
                                               (ravel (values (sort_index ct.2))))
                                d (zip cells tables)) <$> gd
           else gd).
Proof.
  revert gd frames w. induction cells as [|c cells IH]; intros gd frames w E; simpl in E.
  - inversion E; subst. exists []. split; [constructor|]. split; [now rewrite app_nil_r|].
    destruct (n =? 0)%nat; [now destruct gd'|reflexivity].
  - apply M_bind_Ok in E as ([gd1 frames1] & w1 & H1 & E). unfold aggregate_cell in H1.
    apply M_bind_Ok in H1 as (df & w2 & Hr & H1).
    pose proof (read_csv_world _ _ _ _ Hr) as ->.
    apply M_bind_Ok in H1 as (gd2 & w2 & Hg & H1). inversion H1; subst; clear H1.
    assert (w1 = w /\ gd1 = (if (n =? 0)%nat
                             then (fun d => dict_setitem d ("E" +:+ str c)
                                              (ravel (values (sort_index df)))) <$> gd
                             else gd)) as [-> ->].
    { destruct (n =? 0)%nat; [|now inversion Hg]. destruct gd; [now inversion Hg|discriminate Hg]. }
    destruct (IH _ _ _ E) as (tables & HF & -> & ->).
    exists (df :: tables). split; [now constructor|].
    split; [now rewrite <- app_assoc|].
    destruct (n =? 0)%nat; [|reflexivity]. now destruct gd.
Qed.

(** A run that returns: the tables [tables] that the cells wrote (the
    files [pre] of the simulations), the frames [read] that the
    aggregation read back, the concatenation, and the clustering step
    when it is asked for. *)
Lemma Experiment_returns fuel m (Model : ModelFn) tspan s icsDF wp nt w result w' :
  Experiment fuel m Model tspan s icsDF wp nt w = (Ok result, w') ->
  exists (tables : list DataFrame) (pre : list (string * DataFrame)) (w2 : World)
         (read : list DataFrame) (r : DataFrame),
    length tables = settings.num_cells s /\
    files w2 = pre ++ files w /\
    (forall c df, tables !! c = Some df ->
       (cell_csv (settings.outprefix s) c, df) ∈ pre /\
       table_of (mg.genelist m) (default O (settings.n_snapshots s)) c df) /\
    (forall p df, (p, df) ∈ pre ->
       exists c, (c < settings.num_cells s)%nat /\
                 ((p = cell_csv (settings.outprefix s) c /\ tables !! c = Some df) \/
                  (p = sample_csv (settings.outprefix s) c /\ settings.sample_cells s = true /\
                   default O (settings.n_snapshots s) = 0%nat))) /\
    Forall2 (fun c df =>
               read_csv (settings.outprefix s +:+ "/simulations/E" +:+ str c +:+ ".csv") w2
               = (Ok df, w2))
            (seq 0 (settings.num_cells s)) read /\
    pd_concat ((fun df => DataFrame_T (sort_index df)) <$> read) = Ok r /\
    result = {| index := replace_x_ <$> columns r; columns := index r;
                values := ndarray_T (values r) |} /\
    (if clustering_requested s
     then settings.sample_cells s = false /\
          cluster (settings.outprefix s) (settings.nClusters s)
            (Some (foldl (fun d ct => dict_setitem d ("E" +:+ str ct.1)
                                        (ravel (values (sort_index ct.2))))
                     [] (zip (seq 0 (settings.num_cells s)) read))) w2 = (Ok tt, w')
     else w' = w2).
Proof.
  intros E. unfold Experiment in E.
  apply M_bind_Ok in E as ([argdict gd] & w1 & Hprep & E).
  pose proof (prepare_argdict _ _ _ _ _ _ _ _ _ _ Hprep) as Harg.
  apply prepare_Ok in Hprep as (F1 & _ & _ & Hgd).
  apply M_bind_Ok in E as ([] & w2 & Hdisp & E).
  eapply dispatch_tables in Hdisp as (tables & pre & Hlen & F2 & Htab & Hpre); [|exact Harg].
  unfold collect in E.
  apply M_bind_Ok in E as ([gd' frames] & w3 & Hagg & E).
  pose proof (aggregate_world _ _ _ _ _ _ _ Hagg) as ->.
  apply aggregate_Ok in Hagg as (read & Hread & -> & ->).
  apply M_bind_Ok in E as (r & w3 & Hr & E). apply lift_Ok in Hr as [Hr ->].
  apply M_bind_Ok in E as ([] & w3 & Hcl & E). inversion E; subst w3 result; clear E.
  exists tables, pre, w2, read, r. rewrite F1 in F2.
  split; [exact Hlen|]. split; [exact F2|]. split; [exact Htab|]. split; [exact Hpre|].
  split; [exact Hread|]. split; [exact Hr|]. split; [reflexivity|].
  fold (clustering_requested s) in Hcl. destruct (clustering_requested s) eqn:Ec.
  - unfold clustering_requested in Ec. apply andb_true_iff in Ec as [_ Ec]. rewrite Ec in Hcl.
    subst gd. destruct (settings.sample_cells s); [|split; [reflexivity|exact Hcl]].
    unfold cluster in Hcl. apply M_bind_Ok in Hcl as (d & w4 & Hd & _). discriminate Hd.
  - now inversion Hcl.
Qed.

(** With an output prefix that is not empty, the frames read back are
    the tables of the cells. *)
Lemma read_back_tables out N n sc (tables read : list DataFrame)
    (pre : list (string * DataFrame)) (w w2 : World) :
  out <> "" ->
  length tables = N ->
  files w2 = pre ++ files w ->
  (forall c df, tables !! c = Some df -> (cell_csv out c, df) ∈ pre) ->
  (forall p df, (p, df) ∈ pre ->
     exists c, (c < N)%nat /\
               ((p = cell_csv out c /\ tables !! c = Some df) \/
                (p = sample_csv out c /\ sc = true /\ n = 0%nat))) ->
  Forall2 (fun c df => read_csv (out +:+ "/simulations/E" +:+ str c +:+ ".csv") w2 = (Ok df, w2))
          (seq 0 N) read ->
  read = tables.
Proof.
  intros Hout Hlen F Htab Hpre Hread. apply list_eq. intros c.
  pose proof (Forall2_length _ _ _ Hread) as Hl. rewrite length_seq in Hl.
  destruct (tables !! c) as [df|] eqn:Ec.
  - assert (Hc : (c < N)%nat) by (rewrite <- Hlen; eapply lookup_lt_Some, Ec).
    destruct (Forall2_lookup_l _ _ _ c c Hread) as (df' & Hdf' & Hr);
      [apply lookup_seq; split; [reflexivity|exact Hc]|].
    assert (Hrb : read_csv (out +:+ "/simulations/E" +:+ str c +:+ ".csv") w2 = (Ok df, w2)).
    { apply (read_back out N tables pre sc n w w2 c df _
               (csvPath_names_table out c Hout) F Htab); [|exact Ec].
      intros p d Hin. left. eauto. }
    rewrite Hrb in Hr. inversion Hr; subst. exact Hdf'.
  - apply lookup_ge_None. apply lookup_ge_None in Ec. lia.
Qed.
End Aggregation.

Lemma fmap_by_index {A B} (f : A -> B) (g : nat -> B) (l : list A) :
  (forall c x, l !! c = Some x -> f x = g c) -> f <$> l = g <$> seq 0 (length l).
Proof.
  intros H. apply list_eq. intros c. rewrite !list_lookup_fmap.
  destruct (l !! c) as [x|] eqn:E; simpl.
  - rewrite (lookup_seq_lt _ _ _ (lookup_lt_Some _ _ _ E)). simpl. now rewrite (H c x E).
  - apply lookup_ge_None in E. rewrite lookup_seq_ge by exact E. reflexivity.
Qed.

Lemma pd_concat_Ok (frames : list DataFrame) (r : DataFrame) :
  pd_concat frames = Ok r ->
  exists f rest, frames = f :: rest /\
    index r = concat (index <$> frames) /\ columns r = columns f /\
    shape1 (values r) = shape1 (values f) /\
    rows (values r) = concat ((fun g => rows (values g)) <$> frames).
Proof.
  destruct frames as [|f rest]; [discriminate|]. intros E. inversion E; subst.
  exists f, rest. repeat split.
Qed.

Lemma row_by_columns (R : list Q) (k : nat) :
  length R = k -> (fun j => nth j R 0) <$> seq 0 k = R.
Proof.
  intros <-. apply list_eq. intros j. rewrite list_lookup_fmap.
  destruct (R !! j) as [x|] eqn:E.
  - rewrite (lookup_seq_lt _ _ _ (lookup_lt_Some _ _ _ E)). simpl. f_equal.
    now apply nth_lookup_Some with (d := 0) in E.
  - apply lookup_ge_None in E. rewrite lookup_seq_ge by exact E. reflexivity.
Qed.

(** Row [i] of the transposed concatenation of transposed tables is the
    concatenation of the rows [i] of the tables. *)
Lemma concat_transposed_rows (tables : list DataFrame) (G : nat) (r : DataFrame) :
  Forall (fun df => shape0 (values df) = G /\ wf_ndarray (values df)) tables ->
  pd_concat (DataFrame_T <$> tables) = Ok r ->
  rows (ndarray_T (values r))
  = (fun i => concat ((fun df => nth i (rows (values df)) []) <$> tables)) <$> seq 0 G.
Proof.
  intros Hall Hr. apply pd_concat_Ok in Hr as (f & rest & Hf & _ & _ & Hs1 & Hrows).
  unfold ndarray_T at 1. cbn [rows]. rewrite Hs1, Hrows.
  destruct tables as [|df0 tables0] eqn:Et; [discriminate Hf|]. rewrite <- Et in *.
  assert (HG : shape1 (values f) = G).
  { rewrite Et in Hf, Hall. inversion Hf; subst f. inversion Hall as [|? ? [H0 _] _]; subst.
    reflexivity. }
  rewrite HG. clear Hf HG Hs1 Hrows Et.
  apply list_eq. intros i. rewrite !list_lookup_fmap.
  change (map ?f ?l) with (f <$> l).
  destruct (seq 0 G !! i) as [i'|] eqn:Ei; [|reflexivity]. simpl. f_equal.
  apply lookup_seq in Ei as [-> Hi]. simpl.
  induction Hall as [|df tables [H0 Hwf] _ IH]; [reflexivity|].
  cbn [fmap list_fmap concat]. rewrite fmap_app. f_equal; [|exact IH].
  cbn [DataFrame_T values ndarray_T rows].
  change (map ?f ?l) with (f <$> l). rewrite <- list_fmap_compose.
  assert (Hrow : exists R, rows (values df) !! i = Some R).
  { apply lookup_lt_is_Some. unfold shape0 in H0. lia. }
  destruct Hrow as [R HR].
  assert (HlenR : length R = shape1 (values df)).
  { unfold wf_ndarray in Hwf. rewrite Forall_forall in Hwf. apply Hwf.
    eapply list_elem_of_lookup_2, HR. }
  rewrite (nth_lookup_Some _ _ [] _ HR).
  etrans; [|apply (row_by_columns R _ HlenR)].
  apply list_fmap_ext. intros _ j _. simpl.
  change (map ?f ?l) with (f <$> l).
  erewrite nth_lookup_Some; [reflexivity|].
  rewrite list_lookup_fmap, HR. reflexivity.
Qed.

(** Assignments under keys that are new append to the dictionary. *)
Lemma dict_setitem_fresh {V} (d : list (string * V)) (k : string) (v : V) :
  k ∉ d.*1 -> dict_setitem d k v = d ++ [(k, v)].
Proof.
  induction d as [|[k' v'] d IH]; [reflexivity|]. intros Hk. simpl.
  apply not_elem_of_cons in Hk as [Hne Hk]. simpl in Hne.
  destruct (String.eqb_spec k' k) as [->|_]; [contradiction|]. now rewrite IH.
Qed.

Lemma groupedDict_keys {V} (f : nat -> DataFrame -> V) (tables : list DataFrame)
    (start : nat) (d : list (string * V)) :
  d.*1 = (fun c => "E" +:+ str c) <$> seq 0 start ->
  (foldl (fun d ct => dict_setitem d ("E" +:+ str ct.1) (f ct.1 ct.2)) d
         (zip (seq start (length tables)) tables)).*1
  = (fun c => "E" +:+ str c) <$> seq 0 (start + length tables).
Proof.
  revert start d. induction tables as [|df tables IH]; intros start d Hd.
  - simpl. now rewrite Nat.add_0_r.
  - cbn [length seq zip zip_with foldl]. cbn [fst snd].
    rewrite dict_setitem_fresh.
    + rewrite IH; [f_equal; f_equal; lia|].
      rewrite fmap_app, Hd. cbn [fmap list_fmap].
      replace (S start) with (start + 1)%nat by lia. now rewrite seq_app, fmap_app.
    + rewrite Hd. intros Hin. apply list_elem_of_fmap in Hin as (c & Hc & Hin).
      apply (inj (String.app _)), (inj pretty) in Hc. subst c.
      apply elem_of_seq in Hin. lia.
Qed.

Section Result.
Context {ModelFn : Type} `{!Simulator ModelFn} `{!Utils} `{!Sklearn}.

Lemma cluster_file out k d w w' :
  cluster out k (Some d) w = (Ok tt, w') ->
  exists df, files w' = (cluster_csv out, df) :: files w /\
             index df = d.*1 /\ columns df = ["cl"] /\ shape0 (values df) = length d.
Proof.
  unfold cluster. intros E.
  apply M_bind_Ok in E as (d' & w1 & Hd & E). inversion Hd; subst d' w1; clear Hd.
  apply M_bind_Ok in E as (g & w1 & Hg & E). apply lift_Ok in Hg as [Hg ->].
  apply M_bind_Ok in E as (labels & w1 & Hk & E).
  apply M_bind_Ok in E as (cdf & w2 & Hc & E). apply lift_Ok in Hc as [Hc ->].
  rewrite to_csv_eq in E. inversion E; subst w'; clear E. cbn [files].
  pose proof (writes_nothing_files _ _ _ _ (writes_only_with_rng _ _) Hk) as F.
  apply pd_DataFrame_Ok in Hc as (-> & Hsh & _). cbn [index columns values] in *.
  exists {| index := columns g; columns := ["cl"];
            values := {| shape1 := 1; rows := (fun l => [inject_Z l]) <$> labels |} |}.
  rewrite F. split; [reflexivity|]. cbn [index columns values].
  unfold DataFrame_from_dict in Hg. destruct (forallb _ d); [|discriminate Hg].
  inversion Hg; subst g; clear Hg. cbn [columns] in *.
  split; [reflexivity|]. split; [reflexivity|]. now rewrite Hsh, length_fmap.
Qed.

(** X9. The rows of the result of a run (the output prefix not being
    empty) are labelled by the gene list sorted as strings, every
    ['x_'] then removed from each name. *)
Theorem result_rows_are_sorted_genes fuel m (Model : ModelFn) tspan s icsDF wp nt
    w result w' :
  settings.outprefix s <> "" ->
  Experiment fuel m Model tspan s icsDF wp nt w = (Ok result, w') ->
  index result = replace_x_ <$> sorted (mg.genelist m).
Proof.
  intros Hout E.
  apply Experiment_returns in E
    as (tables & pre & w2 & read & r & Hlen & F & Htab & Hpre & Hread & Hr & -> & _).
  assert (read = tables) as ->.
  { eapply (read_back_tables _ _ _ _ _ _ _ _ _ Hout Hlen F); eauto.
    intros c df Hc. now apply Htab. }
  cbn [index]. f_equal.
  apply pd_concat_Ok in Hr as (f & rest & Hf & _ & -> & _).
  destruct tables as [|df0 tables]; [discriminate Hf|]. inversion Hf; subst f rest.
  destruct (Htab 0%nat df0 eq_refl) as [_ Ht].
  apply sort_index_table in Ht as (Hi & _). exact Hi.
Qed.

(** X10. The columns of the result follow the cells in order: under
    [Snapshots(n)] they are [E{c}_t0 .. E{c}_t{n-1}] for
    [c = 0 .. num_cells - 1]; with a single time point they are, cell
    after cell, [E{c}_1 .. E{c}_{T - 1}] for some number [T] of time
    points of the cell. *)
Theorem result_columns_by_cell fuel m (Model : ModelFn) tspan s icsDF wp nt w result w' :
  settings.outprefix s <> "" ->
  Experiment fuel m Model tspan s icsDF wp nt w = (Ok result, w') ->
  ((1 <= default O (settings.n_snapshots s))%nat ->
   columns result
   = concat ((fun c => snapshot_name c <$> seq 0 (default O (settings.n_snapshots s)))
               <$> seq 0 (settings.num_cells s))) /\
  (default O (settings.n_snapshots s) = 0%nat ->
   exists Ts : list nat,
     length Ts = settings.num_cells s /\
     columns result = concat (imap (fun c T => col_name c <$> seq 1 (T - 1)) Ts)).
Proof.
  intros Hout E.
  apply Experiment_returns in E
    as (tables & pre & w2 & read & r & Hlen & F & Htab & Hpre & Hread & Hr & -> & _).
  assert (read = tables) as ->.
  { eapply (read_back_tables _ _ _ _ _ _ _ _ _ Hout Hlen F); eauto.
    intros c df Hc. now apply Htab. }
  cbn [columns].
  apply pd_concat_Ok in Hr as (f & rest & _ & -> & _).
  rewrite <- list_fmap_compose.
  split.
  - intros Hn. f_equal. rewrite <- Hlen. apply fmap_by_index. intros c df Hc.
    destruct (Htab c df Hc) as (_ & _ & _ & _ & [[Hz _]|[_ Hcols]]); [lia|exact Hcols].
  - intros Hn. exists ((fun df => S (length (columns df))) <$> tables).
    split; [now rewrite length_fmap|]. f_equal.
    apply list_eq. intros c. rewrite list_lookup_imap, !list_lookup_fmap.
    destruct (tables !! c) as [df|] eqn:Ec; [|reflexivity]. simpl. f_equal.
    destruct (Htab c df Ec) as (_ & _ & _ & _ & [[_ [T Hcols]]|[H1 _]]); [|lia].
    rewrite Hcols, length_fmap, length_seq. do 2 f_equal. lia.
Qed.

(** X11. The result of a run is the tables of the cells side by side:
    with [tables] the tables found at the paths [E{c}.csv] when the run
    ends, the columns of the result are the columns of the tables in
    cell order, and row [i] of the result is the concatenation, in cell
    order, of the rows [i] of the tables sorted by gene. *)
Theorem result_is_tables_side_by_side fuel m (Model : ModelFn) tspan s icsDF wp nt
    w result w' :
  settings.outprefix s <> "" ->
  Experiment fuel m Model tspan s icsDF wp nt w = (Ok result, w') ->
  exists tables : list DataFrame,
    length tables = settings.num_cells s /\
    (forall c df, tables !! c = Some df ->
       read_csv (cell_csv (settings.outprefix s) c) w' = (Ok df, w')) /\
    columns result = concat (columns <$> tables) /\
    rows (values result)
    = (fun i => concat ((fun df => nth i (rows (values (sort_index df))) []) <$> tables))
        <$> seq 0 (length (mg.genelist m)).
Proof.
  intros Hout E.
  apply Experiment_returns in E
    as (tables & pre & w2 & read & r & Hlen & F & Htab & Hpre & Hread & Hr & -> & Hcl).
  assert (read = tables) as ->.
  { eapply (read_back_tables _ _ _ _ _ _ _ _ _ Hout Hlen F); eauto.
    intros c df Hc. now apply Htab. }
  exists tables. split; [exact Hlen|]. split; [|split].
  - intros c df Hc.
    assert (Hfiles : exists top, files w' = (top ++ pre) ++ files w /\
                                 Forall (fun p => p = cluster_csv (settings.outprefix s)) top.*1).
    { destruct (clustering_requested s).
      - destruct Hcl as [_ Hcl]. apply cluster_file in Hcl as (cdf & Fc & _).
        exists [(cluster_csv (settings.outprefix s), cdf)].
        split; [now rewrite Fc, F|]. repeat constructor.
      - subst w'. exists []. split; [exact F|constructor]. }
    destruct Hfiles as (top & Fw & Htop).
    eapply (read_back _ (settings.num_cells s) tables (top ++ pre) _ _ w w' c df);
      [reflexivity|exact Fw| | |exact Hc].
    + intros c0 df0 Hz. apply elem_of_app. right. now apply Htab.
    + intros p d Hin. apply elem_of_app in Hin as [Hin|Hin].
      * right. rewrite Forall_forall in Htop. apply Htop.
        apply list_elem_of_fmap. exists (p, d). split; [reflexivity|exact Hin].
      * left. apply Hpre, Hin.
  - cbn [columns]. apply pd_concat_Ok in Hr as (f & rest & _ & -> & _).
    now rewrite <- list_fmap_compose.
  - cbn [values].
    replace ((fun df => DataFrame_T (sort_index df)) <$> tables)
      with (DataFrame_T <$> (sort_index <$> tables)) in Hr
      by (now rewrite <- list_fmap_compose).
    apply concat_transposed_rows with (G := length (mg.genelist m)) in Hr.
    + rewrite Hr. apply list_fmap_ext. intros _ i _. now rewrite <- list_fmap_compose.
    + apply Forall_forall. intros sdf Hin. apply list_elem_of_fmap in Hin as (df & -> & Hin).
      apply list_elem_of_lookup in Hin as (c & Hc). destruct (Htab c df Hc) as [_ Ht].
      apply sort_index_table in Ht as (_ & _ & _ & Hz & Hwf). auto.
Qed.

(** X12. When clustering is asked for, the file [ClusterIds.csv] of a
    run that returns is the last file written; it has one row per cell,
    labelled [E0 .. E{num_cells - 1}] in this order, and the single
    column ['cl']. *)
Theorem ClusterIds_rows_are_cells fuel m (Model : ModelFn) tspan s icsDF wp nt
    w result w' :
  clustering_requested s = true ->
  Experiment fuel m Model tspan s icsDF wp nt w = (Ok result, w') ->
  exists df,
    head (files w') = Some (cluster_csv (settings.outprefix s), df) /\
    index df = (fun c => "E" +:+ str c) <$> seq 0 (settings.num_cells s) /\
    columns df = ["cl"] /\
    shape0 (values df) = settings.num_cells s.
Proof.
  intros Hc E.
  apply Experiment_returns in E
    as (tables & pre & w2 & read & r & Hlen & F & Htab & Hpre & Hread & Hr & -> & Hcl).
  rewrite Hc in Hcl. destruct Hcl as [_ Hcl].
  apply cluster_file in Hcl as (df & Fc & Hidx & Hcols & Hs0).
  pose proof (Forall2_length _ _ _ Hread) as Hl. rewrite length_seq in Hl.
  pose proof (groupedDict_keys (fun _ df => ravel (values (sort_index df))) read 0 []
                eq_refl) as Hkeys.
  rewrite <- Hl in Hkeys. rewrite Nat.add_0_l in Hkeys.
  exists df. split; [now rewrite Fc|]. split; [now rewrite Hidx, Hkeys|].
  split; [exact Hcols|].
  rewrite Hs0, <- (length_fmap fst), Hkeys, length_fmap, length_seq. reflexivity.
Qed.
End Result.

(** ** The files of a run *)

Section RunFiles.
Context {ModelFn : Type} `{!Simulator ModelFn} `{!Utils} `{!Sklearn}.

(** The files between the worlds of a run that returns: the cluster
    file, if any, over the files of the cells. *)
Lemma Experiment_files fuel m (Model : ModelFn) tspan s icsDF wp nt w result w' :
  Experiment fuel m Model tspan s icsDF wp nt w = (Ok result, w') ->
  exists top pre,
    files w' = (top ++ pre) ++ files w /\
    Forall (fun p => p = cluster_csv (settings.outprefix s)) top.*1 /\
    Forall (fun p => exists c, p = cell_csv (settings.outprefix s) c) pre.*1.
Proof.
  intros E. pose proof E as E0.
  apply Experiment_returns in E
    as (tables & pre & w2 & read & r & Hlen & F & Htab & Hpre & Hread & Hr & -> & Hcl).
  assert (Hns : settings.sample_cells s = true -> default O (settings.n_snapshots s) <> O).
  { intros Hsc Hn. unfold Experiment in E0.
    apply M_bind_Ok in E0 as ([argdict gd] & w1 & Hprep & E0).
    apply prepare_Ok in Hprep as (_ & _ & _ & Hgd). rewrite Hsc in Hgd. subst gd.
    apply M_bind_Ok in E0 as ([] & w3 & _ & E0). unfold collect in E0. rewrite Hn in E0.
    apply M_bind_Ok in E0 as ([gd frames] & w4 & Hagg & E0).
    pose proof (aggregate_unbound _ _ _ _ _ _ Hagg) as Hcells.
    rewrite Hcells in Hagg. simpl in Hagg. inversion Hagg; subst.
    apply M_bind_Ok in E0 as (r0 & w5 & Hr0 & _). discriminate Hr0. }
  assert (Hcells : Forall (fun p => exists c, p = cell_csv (settings.outprefix s) c) pre.*1).
  { apply Forall_forall. intros p Hp. apply list_elem_of_fmap in Hp as ([p' d] & -> & Hin).
    destruct (Hpre _ _ Hin) as (c & _ & [[-> _]|(_ & Hsc & Hn)]); [eauto|].
    now destruct (Hns Hsc). }
  destruct (clustering_requested s).
  - destruct Hcl as [_ Hcl]. apply cluster_file in Hcl as (cdf & Fc & _).
    exists [(cluster_csv (settings.outprefix s), cdf)], pre.
    split; [now rewrite Fc, F|]. split; [repeat constructor|exact Hcells].
  - subst w'. exists [], pre. split; [exact F|]. split; [constructor|exact Hcells].
Qed.

(** X13. A run of [Experiment] that returns has written no sampled
    observation [E{c}-cell.csv]: the observation is written only with
    [sample_cells] and a single time point, under which no run
    returns. *)
Theorem completed_run_has_no_sample_file fuel m (Model : ModelFn) tspan s icsDF wp nt
    w result w' :
  Experiment fuel m Model tspan s icsDF wp nt w = (Ok result, w') ->
  forall c, ~ written w w' (sample_csv (settings.outprefix s) c).
Proof.
  intros E c (pre0 & F0 & Hin).
  apply Experiment_files in E as (top & pre & F & Htop & Hpre).
  rewrite F in F0. apply app_inv_tail in F0. subst pre0.
  rewrite fmap_app in Hin. apply elem_of_app in Hin as [Hin|Hin].
  - rewrite Forall_forall in Htop. apply Htop in Hin.
    now apply sample_csv_not_cluster in Hin.
  - rewrite Forall_forall in Hpre. apply Hpre in Hin as (c' & Hin).
    symmetry in Hin. now apply cell_csv_not_sample in Hin.
Qed.

Lemma writes_only_dispatch_cells fuel s (argdict : nat -> argdict.t ModelFn) out :
  (forall c, argdict.outPrefix (argdict c) = out /\ argdict.cellid (argdict c) = c) ->
  writes_only (fun p => exists c, (c < settings.num_cells s)%nat /\ cell_file out c p)
    (dispatch fuel s argdict).
Proof.
  intros Harg. unfold dispatch. apply writes_only_for_each. intros c Hc.
  apply elem_of_seq in Hc.
  assert (Hjob : writes_only
                   (fun p => exists c, (c < settings.num_cells s)%nat /\ cell_file out c p)
                   (simulateAndSample fuel (argdict c))).
  { eapply writes_only_mono; [|apply writes_only_simulateAndSample].
    intros p Hp. destruct (Harg c) as [Ho Hi]. rewrite Ho, Hi in Hp. exists c.
    split; [lia|exact Hp]. }
  destruct (settings.doParallel s); [apply writes_only_in_worker|]; exact Hjob.
Qed.

(** X14. Whatever its outcome, a run of [Experiment] only adds files,
    and only the tables and the sampled observations of the cells
    [0 .. num_cells - 1] and, when clustering is asked for,
    [ClusterIds.csv]. *)
Theorem run_writes_only_its_files fuel m (Model : ModelFn) tspan s icsDF wp nt w o w' :
  Experiment fuel m Model tspan s icsDF wp nt w = (o, w') ->
  exists pre,
    files w' = pre ++ files w /\
    Forall (fun p => (exists c, (c < settings.num_cells s)%nat /\
                                cell_file (settings.outprefix s) c p) \/
                     (clustering_requested s = true /\
                      p = cluster_csv (settings.outprefix s))) pre.*1.
Proof.
  revert w o w'.
  change (writes_only
            (fun p => (exists c, (c < settings.num_cells s)%nat /\
                                 cell_file (settings.outprefix s) c p) \/
                      (clustering_requested s = true /\
                       p = cluster_csv (settings.outprefix s)))
            (Experiment fuel m Model tspan s icsDF wp nt)).
  unfold Experiment.
  apply writes_only_bind; [apply writes_only_prepare|].
  intros w [argdict gd] w1 Hprep. apply prepare_Ok in Hprep as (_ & _ & Harg & _).
  apply writes_only_bind.
  - eapply writes_only_mono; [|apply writes_only_dispatch_cells, Harg]. auto.
  - intros _ _ _ _. eapply writes_only_mono; [|apply writes_only_collect]. auto.
Qed.
End RunFiles.

(** ** The override of the base vector *)

Lemma make_revvarmapper_None (varmapper : list string) (name : string) :
  name ∉ varmapper -> make_revvarmapper varmapper !! name = None.
Proof.
  intros Hn. destruct (make_revvarmapper varmapper !! name) as [i|] eqn:E; [|reflexivity].
  apply make_revvarmapper_lookup in E. destruct Hn. eapply list_elem_of_lookup_2, E.
Qed.

Lemma for_fold_first_Raise {A B} (l1 : list A) (x : A) (l2 : list A)
    (body : B -> A -> outcome B) (I : B -> Prop) (acc : B) (e : exn) :
  (forall b y, y ∈ l1 -> I b -> exists b', body b y = Ok b' /\ I b') ->
  (forall b, I b -> body b x = Raise e) ->
  I acc ->
  for_fold (l1 ++ x :: l2) body acc = Raise e.
Proof.
  intros H1 Hx Hacc. rewrite for_fold_app.
  destruct (for_fold_total I l1 body acc H1 Hacc) as (b & -> & Hb).
  simpl. now rewrite (Hx b Hb).
Qed.

Lemma assign_missing (m : mg.t) (spec : icsspec.t) (tag : string) (ss : list Q) (x : string) :
  tag +:+ x ∉ mg.varmapper m -> assign m spec tag ss x = Raise (KeyError (tag +:+ x)).
Proof.
  intros Hn. unfold assign, getitem. now rewrite make_revvarmapper_None.
Qed.

(** X16. With an override table and a model that has a variable, the
    first protein of the protein list without its ['p_'] variable
    raises [KeyError] with the name of that variable; the proteins
    having theirs, so does the first gene of the gene list without its
    ['x_'] variable. *)
Theorem override_missing_variable_KeyError (m : mg.t) (spec : icsspec.t) :
  mg.varmapper m <> [] ->
  (forall p1 p p2,
     mg.proteinlist m = p1 ++ p :: p2 ->
     (forall p', p' ∈ p1 -> "p_" +:+ p' ∈ mg.varmapper m) ->
     "p_" +:+ p ∉ mg.varmapper m ->
     build_ss m (Some spec) = Raise (KeyError ("p_" +:+ p))) /\
  (forall g1 g g2,
     (forall p, p ∈ mg.proteinlist m -> "p_" +:+ p ∈ mg.varmapper m) ->
     mg.genelist m = g1 ++ g :: g2 ->
     (forall g', g' ∈ g1 -> "x_" +:+ g' ∈ mg.varmapper m) ->
     "x_" +:+ g ∉ mg.varmapper m ->
     build_ss m (Some spec) = Raise (KeyError ("x_" +:+ g))).
Proof.
  intros Hv. unfold build_ss. rewrite default_ss_eq. cbn [mbind outcome_bind].
  unfold override_ss. cbv zeta.
  change (for_fold (enumerate (mg.varmapper m)) _ (default_entry m <$> mg.varmapper m))
    with (for_fold (enumerate (mg.varmapper m))
            (fun ss _ => ss0 ← for_fold (mg.proteinlist m) (assign m spec "p_") ss;
                         for_fold (mg.genelist m) (assign m spec "x_") ss0)
            (default_entry m <$> mg.varmapper m)).
  destruct (mg.varmapper m) as [|k0 vm] eqn:Evm; [contradiction|]. rewrite <- Evm in *.
  assert (Hen : exists ik rest, enumerate (mg.varmapper m) = ik :: rest).
  { rewrite Evm. unfold enumerate. simpl. eauto. }
  destruct Hen as (ik & rest & ->). cbn [for_fold].
  assert (Hlen : length (default_entry m <$> mg.varmapper m) = length (mg.varmapper m))
    by apply length_fmap.
  split.
  - intros p1 p p2 Hpl Hp1 Hp. rewrite Hpl.
    rewrite (for_fold_first_Raise p1 p p2 (assign m spec "p_")
               (fun ss => length ss = length (mg.varmapper m)) _ (KeyError ("p_" +:+ p)));
      [reflexivity| | |exact Hlen].
    + intros b y Hy Hb. apply assign_total; auto.
    + intros b _. now apply assign_missing.
  - intros g1 g g2 Hp Hgl Hg1 Hg.
    destruct (for_fold_total (fun ss => length ss = length (mg.varmapper m))
                (mg.proteinlist m) (assign m spec "p_") (default_entry m <$> mg.varmapper m))
      as (b1 & -> & Hb1); [|exact Hlen|].
    { intros b y Hy Hb. apply assign_total; auto. }
    cbn [mbind outcome_bind]. rewrite Hgl.
    rewrite (for_fold_first_Raise g1 g g2 (assign m spec "x_")
               (fun ss => length ss = length (mg.varmapper m)) _ (KeyError ("x_" +:+ g)));
      [reflexivity| | |exact Hb1].
    + intros b y Hy Hb. apply assign_total; auto.
    + intros b _. now apply assign_missing.
Qed.

(** X17. The override leaves alone every variable that is neither the
    ['p_'] variable of a listed protein nor the ['x_'] variable of a
    listed gene: its entry remains the default one; and the vector
    keeps the length of [varmapper]. *)
Theorem override_keeps_other_entries (m : mg.t) (spec : icsspec.t) (ss : list Q) (i : nat) :
  build_ss m (Some spec) = Ok ss ->
  (forall p, p ∈ mg.proteinlist m ->
     make_revvarmapper (mg.varmapper m) !! ("p_" +:+ p) <> Some i) ->
  (forall g, g ∈ mg.genelist m ->
     make_revvarmapper (mg.varmapper m) !! ("x_" +:+ g) <> Some i) ->
  ss !! i = (default_entry m <$> mg.varmapper m) !! i /\
  length ss = length (mg.varmapper m).
Proof.
  intros E Hp Hg. unfold build_ss in E. rewrite default_ss_eq in E.
  cbn [mbind outcome_bind] in E. unfold override_ss in E. cbv zeta in E.
  change (for_fold (enumerate (mg.varmapper m))
            (fun ss _ => ss0 ← for_fold (mg.proteinlist m) (assign m spec "p_") ss;
                         for_fold (mg.genelist m) (assign m spec "x_") ss0)
            (default_entry m <$> mg.varmapper m) = Ok ss) in E.
  set (d := default_entry m <$> mg.varmapper m) in *.
  set (I := fun ss : list Q => ss !! i = d !! i /\ length ss = length (mg.varmapper m)).
  assert (Hassign : forall tag (l : list string), (forall x, x ∈ l ->
              make_revvarmapper (mg.varmapper m) !! (tag +:+ x) <> Some i) ->
            forall b x b', x ∈ l -> assign m spec tag b x = Ok b' -> I b -> I b').
  { intros tag l Hl b x b' Hx Hb [Hi Hlen]. apply assign_Ok in Hb as (j & Hj & -> & Hlt).
    split; [|now rewrite length_insert].
    rewrite list_lookup_insert_ne; [exact Hi|]. intros ->. now apply (Hl x Hx). }
  apply (for_fold_invariant I _ _ _ _ E).
  - intros b _ b' _ Hb Hb0. apply outcome_bind_Ok in Hb as (b1 & H1 & H2).
    eapply (for_fold_invariant I); [exact H2|apply (Hassign "x_" _ Hg)|].
    eapply (for_fold_invariant I); [exact H1|apply (Hassign "p_" _ Hp)|exact Hb0].
  - split; [reflexivity|apply length_fmap].
Qed.

Section NoCap.
Context {ModelFn : Type} `{!Simulator ModelFn}.

(** X18. The retry loop has no bound on its tries: as long as the
    attempts are degenerate it goes on.  With the first [fuel] attempts
    degenerate, [fuel] passes do not end it. *)
Theorem retry_loop_has_no_cap (fuel : nat) (a : argdict.t ModelFn) (pars : list Q)
    (seed : Z) (tries : nat) (w : World) :
  (forall k, (k < fuel)%nat ->
     exists seed' P w', nth_attempt k a pars seed w = (Ok (seed', P, true), w')) ->
  exists w', retry_loop fuel a pars seed tries w = (OutOfFuel, w').
Proof.
  revert seed tries w. induction fuel as [|fuel IH]; intros seed tries w Hall.
  - exists w. reflexivity.
  - destruct (Hall 0%nat ltac:(lia)) as (s0 & P0 & w0 & H0). simpl in H0.
    cbn [retry_loop]. rewrite (M_bind_eq_Ok _ _ _ _ _ H0). cbn beta iota.
    apply IH. intros k Hk.
    destruct (Hall (S k) ltac:(lia)) as (s1 & P1 & w1 & H1).
    cbn [nth_attempt] in H1. rewrite (M_bind_eq_Ok _ _ _ _ _ H0) in H1.
    cbn beta iota in H1. eauto.
Qed.
End NoCap.

(** ** The override map *)

Lemma foldl_insert_last {V} (l1 : list (string * V)) (k : string) (v : V)
    (l2 : list (string * V)) (acc : gmap string V) :
  k ∉ l2.*1 ->
  foldl (fun d kv => <[kv.1 := kv.2]> d) acc (l1 ++ (k, v) :: l2) !! k = Some v.
Proof.
  intros Hk. rewrite foldl_app. cbn [foldl fst snd].
  generalize (foldl (fun d kv => <[kv.1 := kv.2]> d) acc l1). intros acc'.
  assert (Hacc : <[k := v]> acc' !! k = Some v) by apply lookup_insert_eq.
  revert Hacc. generalize (<[k := v]> acc'). clear acc acc' l1.
  induction l2 as [|[k' v'] l2 IH]; intros acc Hacc; [exact Hacc|].
  apply not_elem_of_cons in Hk as [Hne Hk]. simpl in Hne. cbn [foldl fst snd].
  apply IH; [exact Hk|]. rewrite lookup_insert_ne by congruence. exact Hacc.
Qed.

Lemma foldl_insert_None {V} (l : list (string * V)) (k : string) (acc : gmap string V) :
  k ∉ l.*1 -> acc !! k = None ->
  foldl (fun d kv => <[kv.1 := kv.2]> d) acc l !! k = None.
Proof.
  revert acc. induction l as [|[k' v'] l IH]; intros acc Hk Hacc; [exact Hacc|].
  apply not_elem_of_cons in Hk as [Hne Hk]. simpl in Hne. cbn [foldl fst snd].
  apply IH; [exact Hk|]. rewrite lookup_insert_ne by congruence. exact Hacc.
Qed.

(** X19. The override map pairs the genes with the values by position
    ([zip]): for a gene listed several times the value of its last pair
    counts; a gene all of whose occurrences lie beyond the end of the
    values is not named by the map and gets [0.01]. *)
Theorem override_map_pairs_genes_with_values (spec : icsspec.t) (g : string) :
  (forall l1 v l2,
     zip (icsspec.Genes spec) (icsspec.Values spec) = l1 ++ (g, v) :: l2 ->
     g ∉ l2.*1 ->
     override_entry spec g = v) /\
  ((forall i, icsspec.Genes spec !! i = Some g ->
      (length (icsspec.Values spec) <= i)%nat) ->
   override_entry spec g = 0.01).
Proof.
  unfold override_entry, icsmap, dict_of_pairs. split.
  - intros l1 v l2 Hz Hg. rewrite Hz. now rewrite (foldl_insert_last l1 g v l2 ∅ Hg).
  - intros Hi. rewrite foldl_insert_None; [reflexivity| |apply lookup_empty].
    intros Hin. apply list_elem_of_fmap in Hin as ([g' v] & -> & Hin).
    apply list_elem_of_lookup in Hin as (i & Hl).
    apply lookup_zip_with_Some in Hl as (x & y & E & Hx & Hy). inversion E; subst.
    simpl in Hi. specialize (Hi i Hx). apply lookup_lt_Some in Hy. lia.
Qed.

Section Conditions.
Context {ModelFn : Type} `{!Simulator ModelFn} `{!Utils} `{!Sklearn}.

Lemma prepare_model m (Model : ModelFn) tspan s icsDF writeProtein w argdict gd w1 :
  prepare m Model tspan s icsDF writeProtein w = (Ok (argdict, gd), w1) ->
  (exists y0, mapM (getitem (ModelSpec.ics (mg.ModelSpec m))) (mg.varmapper m) = Ok y0) /\
  (exists ss, build_ss m icsDF = Ok ss) /\
  forall c, argdict.rnaIndex (argdict c) = indices_with "x_" (mg.varmapper m).
Proof.
  unfold prepare. intros E.
  apply M_bind_Ok in E as (pars & w0 & Hp & E). apply lift_Ok in Hp as [_ ->].
  apply M_bind_Ok in E as (y0 & w0 & Hy & E). apply lift_Ok in Hy as [Hy ->].
  apply M_bind_Ok in E as (ss & w0 & Hs & E). apply lift_Ok in Hs as [Hs ->].
  apply M_bind_Ok in E as ([] & w0 & Hpl & E).
  apply M_bind_Ok in E as ([header gd0] & w2 & Hh & E).
  inversion E; subst; clear E. eauto.
Qed.

(** X20. A run of [Experiment] returns only with at least one cell and
    for a model without protein species, all of whose variables have an
    initial condition, whose base vector is built, which has a
    transcript variable (a name containing ['x_']) and as many genes as
    transcript variables. *)
Theorem completed_run_model_conditions fuel m (Model : ModelFn) tspan s icsDF wp nt
    w result w' :
  Experiment fuel m Model tspan s icsDF wp nt w = (Ok result, w') ->
  mg.proteinlist m = [] /\
  (1 <= settings.num_cells s)%nat /\
  (forall k, k ∈ mg.varmapper m -> is_Some (ModelSpec.ics (mg.ModelSpec m) !! k)) /\
  (exists ss, build_ss m icsDF = Ok ss) /\
  indices_with "x_" (mg.varmapper m) <> [] /\
  length (mg.genelist m) = length (indices_with "x_" (mg.varmapper m)).
Proof.
  intros E. unfold Experiment in E.
  apply M_bind_Ok in E as ([argdict gd] & w1 & Hprep & E).
  pose proof (prepare_argdict _ _ _ _ _ _ _ _ _ _ Hprep) as Harg.
  pose proof (prepare_model _ _ _ _ _ _ _ _ _ _ Hprep) as ([y0 Hy0] & Hss & Hrna).
  apply prepare_Ok in Hprep as (_ & Hpl & _ & _).
  apply M_bind_Ok in E as ([] & w2 & Hdisp & E).
  unfold collect in E.
  apply M_bind_Ok in E as ([gd' frames] & w3 & Hagg & E).
  apply aggregate_Ok in Hagg as (read & Hread & -> & _).
  apply M_bind_Ok in E as (r & w4 & Hr & _). apply lift_Ok in Hr as [Hr _].
  assert (HN : (1 <= settings.num_cells s)%nat).
  { destruct (settings.num_cells s); [|lia]. inversion Hread; subst. discriminate Hr. }
  split; [exact Hpl|]. split; [exact HN|]. split; [|split; [exact Hss|]].
  - intros k Hk. apply outcome_mapM_Ok in Hy0.
    apply list_elem_of_lookup in Hk as (i & Hi).
    destruct (Forall2_lookup_l _ _ _ _ _ Hy0 Hi) as (v & _ & Hv).
    unfold getitem in Hv. destruct (_ !! k); [eauto|discriminate Hv].
  - unfold dispatch in Hdisp.
    destruct (settings.num_cells s) as [|N]; [lia|]. cbn [seq for_each] in Hdisp.
    apply M_bind_Ok in Hdisp as ([] & w5 & Hcell & _).
    assert (Hjob : exists w6, simulateAndSample fuel (argdict 0%nat) w1 = (Ok tt, w6)).
    { destruct (settings.doParallel s); [|eauto].
      apply in_worker_inv in Hcell as (w6 & Hcell & _). eauto. }
    destruct Hjob as (w6 & Hjob).
    apply simulateAndSample_genes in Hjob as [Hne Hlen].
    destruct (Harg 0%nat) as (_ & _ & Hg & _). rewrite Hrna in Hne, Hlen. rewrite Hg in Hlen.
    split; assumption.
Qed.
End Conditions.

(** * The statements on a concrete run *)

Import Demo.

Lemma accepted_trajectory_not_degenerate_witness :
  exists P tries w',
    retry_loop 3 cell43 [1] 0 0 world = (Ok (P, tries), w') /\
    exists maxExp, transcript_max P [0; 2]%nat = Ok maxExp /\
                   fmul (float 0.1) 43 <= maxExp.
Proof.
  do 3 eexists. split; [vm_compute; reflexivity|].
  edestruct (accepted_trajectory_not_degenerate 3 cell43 [1] 0%Z 0%nat world)
    as (m & Hm & _ & Hle & _); [vm_compute; reflexivity|].
  exists m. split; [exact Hm|exact Hle].
Defined.

(** C1 as stated fails: with [x_max = 43.0] the threshold [0.1 * 43.0]
    is the double [4.3], which is below 43/10; the trajectory of
    [cell43], whose transcripts peak at that double, is accepted. *)
Lemma accepted_below_tenth : ~ accepted_above_tenth cell43 [1] 0 world.
Proof.
  intros H.
  destruct (H 3%nat 0%nat _ _ _ ltac:(vm_compute; reflexivity)) as (m & Hm & Hle).
  vm_compute in Hm. inversion Hm; subst m. apply Qle_bool_iff in Hle.
  vm_compute in Hle. discriminate Hle.
Qed.


Lemma snapshot_windows_partition_witness :
  (1 <= 2)%nat /\ (2 + 1 <= 5)%nat /\ (Z.of_nat 5 <= 2 ^ 25)%Z /\
  exists i, (i < 2)%nat /\ in_window (Z.of_nat 5 - 1) 2 i 3.
Proof.
  split; [lia|]. split; [lia|]. split; [lia|].
  destruct (snapshot_windows_partition 5 2 ltac:(lia) ltac:(lia) ltac:(lia)) as (H & _).
  destruct (H 3%Z ltac:(lia)) as (i & Hi & Hw & _). exists i. split; assumption.
Defined.

Lemma single_timepoint_table_witness :
  exists w',
    argdict.n_snapshots (cell0 false 0) = 0%nat /\
    simulateAndSample 3 (cell0 false 0) world = (Ok tt, w') /\
    exists df, head (files w') = Some (cell_csv "out" 0, df) /\
               columns df = ["E0_1"; "E0_2"; "E0_3"; "E0_4"].
Proof.
  eexists. split; [reflexivity|]. split; [vm_compute; reflexivity|].
  destruct (single_timepoint_table 3 (cell0 false 0) world eq_refl) as [Htable _].
  edestruct Htable
    as (pars & P & tries & w1 & sub & df & Hloop & _ & Hhead & Hcols & _);
    [vm_compute; reflexivity|].
  exists df. split; [exact Hhead|].
  vm_compute in Hhead. inversion Hhead; subst df. reflexivity.
Defined.


(** C5 as stated fails: in a model where the genes [a] and [b] have
    protein variables and no species is of type protein, the variable
    [p_a] (its name contains ["p_"]) starts at [0.0], not at [20.0]. *)
Lemma defaults_as_specified_fails : ~ defaults_as_specified model.
Proof.
  intros H.
  destruct (H [1.0; 0; 1.0; 0] ltac:(vm_compute; reflexivity) 1%nat "p_a" eq_refl) as [_ Hp].
  specialize (Hp eq_refl). discriminate Hp.
Qed.

Lemma initial_condition_base_vector_witness :
  let spec := {| icsspec.Genes := ["b"]; icsspec.Values := [5] |} in
  build_ss model_with_protein (Some spec) = Ok [0.01; 0; 5] /\
  "b" ∈ mg.proteinlist model_with_protein /\
  make_revvarmapper (mg.varmapper model_with_protein) !! "p_b" = Some 2%nat /\
  [0.01; 0; 5] !! 2%nat = Some (override_entry spec "b").
Proof.
  intros spec. split; [vm_compute; reflexivity|]. split; [now left|].
  split; [vm_compute; reflexivity|].
  destruct (initial_condition_base_vector model_with_protein) as (_ & H & _).
  destruct (H spec [0.01; 0; 5] ltac:(vm_compute; reflexivity)) as (Hp & _).
  apply Hp; [now left|vm_compute; reflexivity].
Defined.

(** C6 as stated fails: the run [sampling] asks for two clusters and a
    single time point, and stops at the aggregation (see C8) before any
    [ClusterIds.csv] is written. *)
Lemma ClusterIds_not_written_by_failed_run :
  ~ ClusterIds_iff_requested 3 model tt tspan sampling None false false world.
Proof.
  intros [_ H]. destruct H as (pre & F & Hin); [split; [simpl; lia|reflexivity]|].
  simpl in F. rewrite app_nil_r in F. subst pre. vm_compute in Hin.
  repeat (apply elem_of_cons in Hin as [Hin|Hin]; [discriminate Hin|]).
  inversion Hin.
Qed.

Lemma ClusterIds_written_iff_witness :
  exists result w',
    Experiment 3 model tt tspan clustering None false false world = (Ok result, w') /\
    (1 < settings.nClusters clustering)%nat /\
    default O (settings.n_snapshots clustering) = O /\
    written world w' (cluster_csv "out").
Proof.
  do 2 eexists. split; [vm_compute; reflexivity|]. split; [simpl; lia|].
  split; [reflexivity|].
  edestruct (ClusterIds_written_iff 3 model tt tspan clustering None false false world)
    as [_ H]; [vm_compute; reflexivity|].
  eapply H; [reflexivity|simpl; lia|reflexivity].
Defined.

Lemma proteinlist_NameError_witness :
  mg.proteinlist model_with_protein <> [] /\
  (exists y0, mapM (getitem (ModelSpec.ics (mg.ModelSpec model_with_protein)))
                (mg.varmapper model_with_protein) = Ok y0) /\
  (exists ss, build_ss model_with_protein None = Ok ss) /\
  Experiment 3 model_with_protein tt tspan clustering None false false world
  = (Raise (NameError "proteinlist"), world).
Proof.
  split; [discriminate|]. split; [eexists; vm_compute; reflexivity|].
  split; [eexists; vm_compute; reflexivity|].
  eapply proj1,
    (proteinlist_NameError 3 model_with_protein tt tspan clustering None false false world);
    [discriminate|vm_compute; reflexivity|vm_compute; reflexivity].
Defined.

Lemma groupedDict_NameError_witness :
  settings.sample_cells sampling = true /\
  default O (settings.n_snapshots sampling) = O /\
  (1 <= settings.num_cells sampling)%nat /\
  exists w2,
    Experiment 3 model tt tspan sampling None false false world
    = (Raise (UnboundLocalError "groupedDict"), w2) /\
    written world w2 (cell_csv "out" 1).
Proof.
  split; [reflexivity|]. split; [reflexivity|]. split; [simpl; lia|].
  edestruct (groupedDict_NameError 3 model tt tspan sampling None false false world)
    as (HE & _ & Hw);
    [reflexivity|reflexivity|simpl; lia
    |vm_compute; reflexivity|vm_compute; reflexivity|vm_compute; reflexivity|].
  eexists. split; [exact HE|]. apply Hw. simpl; lia.
Defined.

(** C9.  On a run with [sample_cells] under [SingleTimepoint], the
    sampled observation of cell 0 is written to
    [out/simulationsE0-cell.csv], a file of the output directory, and
    not to the documented [out/simulations/E0-cell.csv]: the name is
    appended to the directory path without a separator. *)
Theorem sample_cell_file_misplaced :
  (files (simulateAndSample 3 (cell0 true 0) world).2).*1
  = [cell_csv "out" 0; sample_csv "out" 0] /\
  sample_csv "out" 0 = "out/simulationsE0-cell.csv" /\
  documented_sample_csv "out" 0 = "out/simulations/E0-cell.csv".
Proof. vm_compute. auto. Qed.

(** ** Further statements on the concrete run *)

Lemma too_many_snapshots_ValueError_witness :
  (1 <= argdict.n_snapshots (cell0 false 5))%nat /\
  (exists w', simulateAndSample 3 (cell0 false 5) world
              = (Raise (ValueError "low >= high"), w') /\ files w' = []) /\
  (exists w', simulateAndSample 3 (cell0 false 8) world
              = (Raise (ValueError "high <= 0"), w') /\ files w' = []).
Proof.
  split; [simpl; lia|]. split.
  - edestruct (too_many_snapshots_ValueError 3 (cell0 false 5) world)
      as (j & w' & _ & _ & _ & H & F);
      [simpl; lia|vm_compute; reflexivity|discriminate|vm_compute; reflexivity
      |vm_compute; lia|].
    exists w'. split; [|exact F].
    assert (E0 : (simulateAndSample 3 (cell0 false 5) world).1
                 = Raise (ValueError "low >= high")) by (vm_compute; reflexivity).
    rewrite H in E0. rewrite H. f_equal. exact E0.
  - edestruct (too_many_snapshots_ValueError 3 (cell0 false 8) world)
      as (j & w' & _ & _ & _ & H & F);
      [simpl; lia|vm_compute; reflexivity|discriminate|vm_compute; reflexivity
      |vm_compute; lia|].
    exists w'. split; [|exact F].
    assert (E0 : (simulateAndSample 3 (cell0 false 8) world).1
                 = Raise (ValueError "high <= 0")) by (vm_compute; reflexivity).
    rewrite H in E0. rewrite H. f_equal. exact E0.
Defined.

Lemma simulateAndSample_returns_only_if_witness :
  exists w', simulateAndSample 3 (cell0 false 2) world = (Ok tt, w') /\
    exists P, (argdict.n_snapshots (cell0 false 2) + 1 <= shape1 P)%nat /\
              length (argdict.genelist (cell0 false 2))
              = length (argdict.rnaIndex (cell0 false 2)).
Proof.
  eexists. split; [vm_compute; reflexivity|].
  edestruct (simulateAndSample_returns_only_if 3 (cell0 false 2) world)
    as (pars & P & tries & w1 & _ & _ & _ & _ & Hlen & _ & HT); [vm_compute; reflexivity|].
  exists P. split; [apply HT; simpl; lia|exact Hlen].
Defined.

Lemma cell_table_written_iff_success_witness :
  exists w', simulateAndSample 3 (cell0 false 0) world = (Ok tt, w') /\
             written world w' (cell_csv "out" 0).
Proof.
  eexists. split; [vm_compute; reflexivity|].
  eapply (cell_table_written_iff_success 3 (cell0 false 0) world);
    [vm_compute; reflexivity|reflexivity].
Defined.

Lemma run_files_do_not_collide_witness :
  same_file (cell_csv "out/" 1) (cell_csv "out/" 1) = true /\
  same_file (sample_csv "out/" 1) (cell_csv "out/" 1) = false.
Proof.
  destruct (run_files_do_not_collide "out/" 1 1) as (Hc & _ & Hs & _).
  split; [now apply Hc|exact Hs].
Defined.

Lemma cell_table_read_back_witness :
  "out/" <> "" /\
  same_file (cell_csv "out/" 1) ("out/" +:+ "/simulations/E" +:+ str 1 +:+ ".csv") = true /\
  same_file (cell_csv "out/" 0) ("out/" +:+ "/simulations/E" +:+ str 1 +:+ ".csv") = false.
Proof.
  split; [discriminate|].
  destruct (cell_table_read_back "out/" 1 0 ltac:(discriminate)) as (H & H' & _).
  split; [exact H|apply H'; discriminate].
Defined.

Lemma no_cells_ValueError_witness :
  settings.num_cells no_cells = 0%nat /\
  Experiment 3 model tt tspan no_cells None false false world
  = (Raise (ValueError "No objects to concatenate"), world).
Proof.
  split; [reflexivity|].
  eapply (no_cells_ValueError 3 model tt tspan no_cells None false false world);
    [reflexivity|reflexivity|vm_compute; reflexivity|vm_compute; reflexivity].
Defined.

Lemma missing_initial_condition_KeyError_witness :
  ModelSpec.ics (mg.ModelSpec model_without_ics) !! "x_b" = None /\
  Experiment 3 model_without_ics tt tspan clustering None false false world
  = (Raise (KeyError "x_b"), world).
Proof.
  split; [vm_compute; reflexivity|].
  apply (missing_initial_condition_KeyError 3 model_without_ics tt tspan clustering None
           false false world ["x_a"; "p_a"] "x_b" ["p_b"]);
    [reflexivity| |vm_compute; reflexivity].
  intros k Hk. apply elem_of_cons in Hk as [->|Hk]; [vm_compute; eauto|].
  apply elem_of_cons in Hk as [->|Hk]; [vm_compute; eauto|]. inversion Hk.
Defined.

Lemma sample_cells_single_timepoint_never_returns_witness :
  settings.sample_cells sampling = true /\
  default O (settings.n_snapshots sampling) = O /\
  ~ (exists result, (Experiment 3 model tt tspan sampling None false false world).1 = Ok result).
Proof.
  split; [reflexivity|]. split; [reflexivity|]. intros [result H].
  eapply (sample_cells_single_timepoint_never_returns 3 model tt tspan sampling None
            false false world); [reflexivity|reflexivity|apply surjective_pairing|exact H].
Defined.

Lemma result_rows_are_sorted_genes_witness :
  exists result w',
    Experiment 3 model tt tspan clustering None false false world = (Ok result, w') /\
    index result = ["a"; "b"].
Proof.
  do 2 eexists. split; [vm_compute; reflexivity|].
  erewrite (result_rows_are_sorted_genes 3 model tt tspan clustering None false false world);
    [reflexivity|discriminate|vm_compute; reflexivity].
Defined.

Lemma result_columns_by_cell_witness :
  exists result w',
    Experiment 3 model tt tspan snapshot_run None false false world = (Ok result, w') /\
    columns result = ["E0_t0"; "E0_t1"; "E1_t0"; "E1_t1"].
Proof.
  do 2 eexists. split; [vm_compute; reflexivity|].
  edestruct (result_columns_by_cell 3 model tt tspan snapshot_run None false false world)
    as [Hcols _]; [discriminate|vm_compute; reflexivity|].
  rewrite Hcols by (simpl; lia). reflexivity.
Defined.

Lemma result_is_tables_side_by_side_witness :
  exists result w' tables,
    Experiment 3 model tt tspan snapshot_run None false false world = (Ok result, w') /\
    length tables = 2%nat /\
    columns result = concat (columns <$> tables).
Proof.
  edestruct (result_is_tables_side_by_side 3 model tt tspan snapshot_run None false false world)
    as (tables & Hlen & _ & Hcols & _); [discriminate|vm_compute; reflexivity|].
  do 2 eexists. exists tables. split; [vm_compute; reflexivity|]. split; [exact Hlen|exact Hcols].
Defined.

Lemma ClusterIds_rows_are_cells_witness :
  clustering_requested clustering = true /\
  exists result w' df,
    Experiment 3 model tt tspan clustering None false false world = (Ok result, w') /\
    head (files w') = Some (cluster_csv "out", df) /\
    index df = ["E0"; "E1"].
Proof.
  split; [reflexivity|].
  edestruct (ClusterIds_rows_are_cells 3 model tt tspan clustering None false false world)
    as (df & Hhead & Hidx & _); [reflexivity|vm_compute; reflexivity|].
  do 2 eexists. exists df. split; [vm_compute; reflexivity|]. split; [exact Hhead|exact Hidx].
Defined.

Lemma completed_run_has_no_sample_file_witness :
  exists result w',
    Experiment 3 model tt tspan clustering None false false world = (Ok result, w') /\
    ~ written world w' (sample_csv "out" 0).
Proof.
  do 2 eexists. split; [vm_compute; reflexivity|].
  eapply (completed_run_has_no_sample_file 3 model tt tspan clustering None false false world).
  vm_compute; reflexivity.
Defined.

Lemma run_writes_only_its_files_witness :
  exists o w' pre,
    Experiment 3 model tt tspan sampling None false false world = (o, w') /\
    files w' = pre ++ files world /\
    Forall (fun p => (exists c, (c < 2)%nat /\ cell_file "out" c p) \/
                     (clustering_requested sampling = true /\ p = cluster_csv "out")) pre.*1.
Proof.
  edestruct (run_writes_only_its_files 3 model tt tspan sampling None false false world)
    as (pre & F & Hpre); [apply surjective_pairing|].
  do 2 eexists. exists pre. split; [apply surjective_pairing|]. split; [exact F|exact Hpre].
Defined.

Lemma override_missing_variable_KeyError_witness :
  mg.varmapper model_without_variable <> [] /\
  ("x_c" ∉ mg.varmapper model_without_variable) /\
  build_ss model_without_variable (Some override) = Raise (KeyError "x_c").
Proof.
  assert (Hc : "x_c" ∉ mg.varmapper model_without_variable).
  { intros H. repeat (apply elem_of_cons in H as [H|H]; [discriminate H|]). inversion H. }
  split; [discriminate|]. split; [exact Hc|].
  destruct (override_missing_variable_KeyError model_without_variable override) as [_ Hg];
    [discriminate|].
  apply (Hg ["a"] "c" []); [intros p Hp; inversion Hp|reflexivity| |exact Hc].
  intros g Hg1. apply elem_of_cons in Hg1 as [->|Hg1]; [now left|inversion Hg1].
Defined.

Lemma override_keeps_other_entries_witness :
  exists ss,
    build_ss model_with_protein (Some override) = Ok ss /\
    ss !! 1%nat = Some 0.
Proof.
  eexists. split; [vm_compute; reflexivity|].
  edestruct (override_keeps_other_entries model_with_protein override) as [Hi _];
    [vm_compute; reflexivity| | |rewrite Hi; reflexivity].
  - intros p Hp. apply elem_of_cons in Hp as [->|Hp]; [vm_compute; discriminate|inversion Hp].
  - intros g Hg. apply elem_of_cons in Hg as [->|Hg]; [vm_compute; discriminate|inversion Hg].
Defined.

Lemma retry_loop_has_no_cap_witness :
  exists w', retry_loop 2 (cell0 false 0) [1] 0 0 world = (OutOfFuel, w').
Proof.
  apply (retry_loop_has_no_cap 2 (cell0 false 0) [1] 0%Z 0%nat world).
  intros [|[|k]] Hk; [do 3 eexists; vm_compute; reflexivity..|lia].
Defined.

Lemma override_map_pairs_genes_with_values_witness :
  override_entry override "a" = 7 /\ override_entry override "c" = 0.01.
Proof.
  split.
  - destruct (override_map_pairs_genes_with_values override "a") as [H _].
    apply (H [("a", 3); ("b", 5)] 7 []); [reflexivity|intros Hin; inversion Hin].
  - destruct (override_map_pairs_genes_with_values override "c") as [_ H].
    apply H. intros [|[|[|[|i]]]] Hi; try discriminate Hi; simpl; lia.
Defined.

Lemma completed_run_model_conditions_witness :
  exists result w',
    Experiment 3 model tt tspan clustering None false false world = (Ok result, w') /\
    length (mg.genelist model) = length (indices_with "x_" (mg.varmapper model)).
Proof.
  do 2 eexists. split; [vm_compute; reflexivity|].
  eapply (completed_run_model_conditions 3 model tt tspan clustering None false false world).
  vm_compute; reflexivity.
Defined.
